(** * Bitcoin transaction and block construction: a shallow embedding

    The development follows the two Python programs of the repository:
    - week 2, [python/main.py]: the P2SH-wrapped P2WSH multisig spend
      ([serialize_varint], [create_witness_program], [create_scriptSig],
      [derive_p2sh_address], [create_scriptPubKey], [serialize_inputs],
      [serialize_outputs], [calculate_sighash], [assemble_transaction]);
    - week 3, [python/main.py]: the block builder (selection of pool
      transactions, the two coinbase passes, both merkle reductions and the
      nonce search).

    Python values are modelled as follows: [bytes] objects are lists of
    [byte]; [int] is [Z]; [str] is [string]; a raised exception is the [Err]
    branch of [result]; a JSON object is a [gmap string json]. *)

From Stdlib Require Import ZArith QArith Qround List Lia Bool Ascii String.
From Stdlib Require Import Sorted Permutation.
From Stdlib.Strings Require Import Byte.
From stdpp Require Import gmap strings.
Import ListNotations.

Local Open Scope Z_scope.

(** ** Exceptions and the error monad *)

(** The Python exceptions the two programs can raise. *)
Inductive error : Type :=
| StructError        (* struct.error: value out of range for the format *)
| IndexError         (* list index out of range *)
| KeyError (k : string)
| TypeError
| ValueError (msg : string)
| ZeroDivisionError
| OverflowError.

(** The outcome of a run: a value, an exception, or (for the loops the
    model bounds by a step count: the [while] of the merkle reduction and
    the one of the Base58 digits) the bound reached before the loop ended. *)
Inductive result (A : Type) : Type :=
| Ok (a : A)
| Err (e : error)
| OutOfFuel.
Arguments Ok {A} a.
Arguments Err {A} e.
Arguments OutOfFuel {A}.

(** Sequencing: [x ← r; k] runs [k] on the value of [r], or propagates
    the exception [r] raised. *)
#[export] Instance result_bind : MBind result :=
  fun A B (k : A -> result B) (r : result A) =>
    match r with
    | Ok a => k a
    | Err e => Err e
    | OutOfFuel => OutOfFuel
    end.
#[export] Instance result_ret : MRet result := fun A a => Ok a.

Definition is_ok {A : Type} (r : result A) : bool :=
  match r with Ok _ => true | _ => false end.

(** [map_result f l]: a comprehension [[f(x) for x in l]] whose body can
    raise; the first exception, in list order, is the one that escapes. *)
Fixpoint map_result {A B : Type} (f : A -> result B) (l : list A) : result (list B) :=
  match l with
  | [] => Ok []
  | x :: l' => y ← f x; ys ← map_result f l'; Ok (y :: ys)
  end.

(** ** Bytes *)

Abbreviation bytes := (list byte).

Definition Z_of_byte (b : byte) : Z := Z.of_N (Byte.to_N b).

Definition byte_of_Z (z : Z) : byte :=
  match Byte.of_N (Z.to_N (z mod 256)) with
  | Some b => b
  | None => x00
  end.

(** [bytes(n)]: [n] zero bytes. *)
Definition zeros (n : nat) : bytes := repeat x00 n.

(** Little-endian and big-endian encodings on [n] bytes. *)
Fixpoint le_bytes (n : nat) (v : Z) : bytes :=
  match n with
  | O => []
  | S n' => byte_of_Z v :: le_bytes n' (Z.shiftr v 8)
  end.

Definition be_bytes (n : nat) (v : Z) : bytes := rev (le_bytes n v).

(** The value of a byte string read as a big-endian number. *)
Definition be_value (b : bytes) : Z :=
  fold_left (fun acc x => acc * 256 + Z_of_byte x) b 0.

(** ** SHA-256 ([hashlib.sha256], FIPS 180-4) *)

Module SHA256.

Definition mask32 : Z := 0xFFFFFFFF.
Definition add32 (x y : Z) : Z := Z.land (x + y) mask32.
Definition rotr (n x : Z) : Z :=
  Z.lor (Z.shiftr x n) (Z.land (Z.shiftl x (32 - n)) mask32).
Definition not32 (x : Z) : Z := Z.lxor x mask32.

Definition Ch (x y z : Z) : Z := Z.lxor (Z.land x y) (Z.land (not32 x) z).
Definition Maj (x y z : Z) : Z :=
  Z.lxor (Z.lxor (Z.land x y) (Z.land x z)) (Z.land y z).
Definition Sigma0 (x : Z) : Z := Z.lxor (Z.lxor (rotr 2 x) (rotr 13 x)) (rotr 22 x).
Definition Sigma1 (x : Z) : Z := Z.lxor (Z.lxor (rotr 6 x) (rotr 11 x)) (rotr 25 x).
Definition sigma0 (x : Z) : Z := Z.lxor (Z.lxor (rotr 7 x) (rotr 18 x)) (Z.shiftr x 3).
Definition sigma1 (x : Z) : Z := Z.lxor (Z.lxor (rotr 17 x) (rotr 19 x)) (Z.shiftr x 10).

(** The round constants are the first 32 bits of the fractional parts of
    the cube roots of the first 64 primes, the initial chaining value those
    of the square roots of the first 8. *)
Definition is_prime (n : Z) : bool :=
  forallb (fun d => negb (n mod Z.of_nat d =? 0)) (seq 2 (Z.to_nat n - 2)).

Definition primes : list Z :=
  List.filter is_prime (map Z.of_nat (seq 2 310)).

(** Integer cube root, one bit at a time from bit [bits - 1] down. *)
Fixpoint cube_root_bits (bits : nat) (x r : Z) : Z :=
  match bits with
  | O => r
  | S b =>
      let r' := r + 2 ^ Z.of_nat b in
      if r' * r' * r' <=? x then cube_root_bits b x r' else cube_root_bits b x r
  end.

Definition cube_root (x : Z) : Z := cube_root_bits 48 x 0.

Definition K : list Z :=
  Eval vm_compute in map (fun p => cube_root (p * 2 ^ 96) mod 2 ^ 32) primes.

Definition initial_words : list Z :=
  Eval vm_compute in map (fun p => Z.sqrt (p * 2 ^ 64) mod 2 ^ 32) (firstn 8 primes).

(** The eight working variables / the chaining value. *)
Record state : Type := mkState
  { sa : Z; sb : Z; sc : Z; sd : Z; se : Z; sf : Z; sg : Z; sh : Z }.

Definition H0 : state :=
  let w (i : nat) := nth i initial_words 0 in
  mkState (w 0%nat) (w 1%nat) (w 2%nat) (w 3%nat) (w 4%nat) (w 5%nat) (w 6%nat) (w 7%nat).

(** Padding: a 1 bit, zeros up to 56 modulo 64, the bit length on 8 bytes. *)
Definition pad (msg : bytes) : bytes :=
  let l := Z.of_nat (length msg) in
  msg ++ [x80] ++ zeros (Z.to_nat ((55 - l) mod 64)) ++ be_bytes 8 (8 * l).

(** Big-endian 32-bit words of a block. *)
Fixpoint words (b : bytes) : list Z :=
  match b with
  | b0 :: b1 :: b2 :: b3 :: r =>
      be_value [b0; b1; b2; b3] :: words r
  | _ => []
  end.

(** Message schedule: [n] more words after the ones held in [w]. *)
Fixpoint schedule (n : nat) (w : list Z) : list Z :=
  match n with
  | O => w
  | S n' =>
      let t := length w in
      let x := add32 (add32 (sigma1 (nth (t - 2) w 0)) (nth (t - 7) w 0))
                     (add32 (sigma0 (nth (t - 15) w 0)) (nth (t - 16) w 0)) in
      schedule n' (w ++ [x])
  end.

Definition round (s : state) (kw : Z * Z) : state :=
  let t1 := add32 (add32 (add32 (sh s) (Sigma1 (se s))) (Ch (se s) (sf s) (sg s)))
                  (add32 (fst kw) (snd kw)) in
  let t2 := add32 (Sigma0 (sa s)) (Maj (sa s) (sb s) (sc s)) in
  mkState (add32 t1 t2) (sa s) (sb s) (sc s) (add32 (sd s) t1) (se s) (sf s) (sg s).

Definition compress (s : state) (block : bytes) : state :=
  let w := schedule 48 (words block) in
  let r := fold_left round (combine K w) s in
  mkState (add32 (sa s) (sa r)) (add32 (sb s) (sb r)) (add32 (sc s) (sc r))
          (add32 (sd s) (sd r)) (add32 (se s) (se r)) (add32 (sf s) (sf r))
          (add32 (sg s) (sg r)) (add32 (sh s) (sh r)).

(** The first [n] 64-byte blocks of [b], compressed in turn. *)
Fixpoint absorb (n : nat) (s : state) (b : bytes) : state :=
  match n with
  | O => s
  | S n' => absorb n' (compress s (firstn 64 b)) (skipn 64 b)
  end.

Definition digest_of (s : state) : bytes :=
  be_bytes 4 (sa s) ++ be_bytes 4 (sb s) ++ be_bytes 4 (sc s) ++ be_bytes 4 (sd s) ++
  be_bytes 4 (se s) ++ be_bytes 4 (sf s) ++ be_bytes 4 (sg s) ++ be_bytes 4 (sh s).

Definition sha256 (msg : bytes) : bytes :=
  let p := pad msg in
  digest_of (absorb (length p / 64)%nat H0 p).

End SHA256.

Definition sha256 : bytes -> bytes := SHA256.sha256.

(** [hash_twice] of week 3, and the inline
    [hashlib.sha256(hashlib.sha256(x).digest()).digest()] of week 2. *)
Definition hash_twice (data : bytes) : bytes := sha256 (sha256 data).

Arguments sha256 : simpl never.
Arguments hash_twice : simpl never.

(** ** Python primitives on bytes and strings *)

(** [a == b] on bytes objects. *)
Fixpoint bytes_eqb (a b : bytes) : bool :=
  match a, b with
  | [], [] => true
  | x :: a', y :: b' => Byte.eqb x y && bytes_eqb a' b'
  | _, _ => false
  end.

(** [a < b] on bytes objects: lexicographic on the byte values, a proper
    prefix being smaller. *)
Fixpoint bytes_ltb (a b : bytes) : bool :=
  match a, b with
  | _, [] => false
  | [], _ :: _ => true
  | x :: a', y :: b' =>
      if Z_of_byte x <? Z_of_byte y then true
      else if Z_of_byte y <? Z_of_byte x then false
      else bytes_ltb a' b'
  end.

(** [struct.pack] of one unsigned little-endian integer on [n] bytes
    (formats [<B], [<H], [<I], [<Q]); out of range is [struct.error]. *)
Definition pack_uint (n : nat) (v : Z) : result bytes :=
  if (0 <=? v) && (v <? 2 ^ (8 * Z.of_nat n)) then Ok (le_bytes n v)
  else Err StructError.

Definition pack_B : Z -> result bytes := pack_uint 1.
Definition pack_H : Z -> result bytes := pack_uint 2.
Definition pack_I : Z -> result bytes := pack_uint 4.
Definition pack_Q : Z -> result bytes := pack_uint 8.

(** [len(b)] as a Python integer. *)
Definition len {A : Type} (l : list A) : Z := Z.of_nat (length l).

(** [bytes([v])]. *)
Definition bytes_of_int (v : Z) : result bytes :=
  if (0 <=? v) && (v <? 256) then Ok [byte_of_Z v]
  else Err (ValueError "bytes must be in range(0, 256)").

(** [l[0]]. *)
Definition index0 {A : Type} (l : list A) : result A :=
  match l with
  | x :: _ => Ok x
  | [] => Err IndexError
  end.

Definition Z_of_ascii (c : ascii) : Z := Z.of_N (N_of_ascii c).
Definition ascii_of_Z (z : Z) : ascii := ascii_of_N (Z.to_N z).

(** One lowercase hexadecimal digit of [bytes.hex()]. *)
Definition hex_digit (n : Z) : ascii :=
  if n <? 10 then ascii_of_Z (48 + n) else ascii_of_Z (87 + n).

(** [b.hex()]. *)
Fixpoint hex (b : bytes) : string :=
  match b with
  | [] => EmptyString
  | x :: b' =>
      String (hex_digit (Z_of_byte x / 16))
        (String (hex_digit (Z_of_byte x mod 16)) (hex b'))
  end.

Definition hex_value (c : ascii) : option Z :=
  let n := Z_of_ascii c in
  if (48 <=? n) && (n <=? 57) then Some (n - 48)
  else if (97 <=? n) && (n <=? 102) then Some (n - 87)
  else if (65 <=? n) && (n <=? 70) then Some (n - 55)
  else None.

(** ASCII whitespace, which [bytes.fromhex] skips between bytes. *)
Definition is_ascii_space (c : ascii) : bool :=
  let n := Z_of_ascii c in
  (n =? 32) || ((9 <=? n) && (n <=? 13)).

(** The [ValueError] of [bytes.fromhex]; CPython's message goes on with the
    position of the character. *)
Definition fromhex_error : error :=
  ValueError "non-hexadecimal number found in fromhex() arg".

(** [bytes.fromhex(s)]: two hexadecimal digits per byte, either case,
    whitespace allowed between bytes only. *)
Fixpoint fromhex (s : string) : result bytes :=
  match s with
  | EmptyString => Ok []
  | String c s' =>
      if is_ascii_space c then fromhex s'
      else
        match hex_value c, s' with
        | Some hi, String c' s'' =>
            match hex_value c' with
            | Some lo => bs ← fromhex s''; Ok (byte_of_Z (16 * hi + lo) :: bs)
            | None => Err fromhex_error
            end
        | _, _ => Err fromhex_error
        end
  end.

(** ** Base58Check decoding ([base58.b58decode_check], package base58 2.1)

    The package is a library the program imports; it is modelled here so
    that [create_scriptPubKey] runs on concrete addresses. *)

Module Base58.

Definition alphabet : string :=
  "123456789ABCDEFGHJKLMNPQRSTUVWXYZabcdefghijkmnopqrstuvwxyz".

(** Position of [c] in [s], counted from [i]. *)
Fixpoint find_char (c : ascii) (s : string) (i : Z) : option Z :=
  match s with
  | EmptyString => None
  | String c' s' => if Ascii.eqb c c' then Some i else find_char c s' (i + 1)
  end.

(** [str.isspace] on one character (code points below 256). *)
Definition is_space (c : ascii) : bool :=
  let n := Z_of_ascii c in
  ((9 <=? n) && (n <=? 13)) || ((28 <=? n) && (n <=? 32)) || (n =? 133) || (n =? 160).

(** [v.rstrip()]. *)
Fixpoint rstrip (v : string) : string :=
  match v with
  | EmptyString => EmptyString
  | String c v' =>
      match rstrip v' with
      | EmptyString => if is_space c then EmptyString else String c EmptyString
      | r => String c r
      end
  end.

(** [v.lstrip(b'1')], with the number of characters removed. *)
Fixpoint lstrip_ones (v : string) : nat * string :=
  match v with
  | String "1" v' => let '(n, r) := lstrip_ones v' in (S n, r)
  | _ => (O, v)
  end.

(** [b58decode_int]: the characters as base-58 digits, most significant
    first. The exception is the library's [ValueError]; its message, which
    in the library also quotes the character, is shortened here. *)
Fixpoint b58decode_int_from (acc : Z) (v : string) : result Z :=
  match v with
  | EmptyString => Ok acc
  | String c v' =>
      match find_char c alphabet 0 with
      | Some d => b58decode_int_from (acc * 58 + d) v'
      | None => Err (ValueError "Invalid character")
      end
  end.

Definition b58decode_int (v : string) : result Z := b58decode_int_from 0 v.

(** [acc.to_bytes((acc.bit_length() + 7) // 8, 'big')]. *)
Definition minimal_be_bytes (acc : Z) : bytes :=
  if acc <=? 0 then [] else be_bytes (Z.to_nat ((Z.log2 acc + 8) / 8)) acc.

(** [b58decode]. *)
Definition b58decode (v : string) : result bytes :=
  let '(nzeros, rest) := lstrip_ones (rstrip v) in
  acc ← b58decode_int rest;
  Ok (zeros nzeros ++ minimal_be_bytes acc).

(** [b58decode_check]: the last four bytes must be the first four bytes
    of the double SHA-256 of what precedes them. *)
Definition b58decode_check (v : string) : result bytes :=
  decoded ← b58decode v;
  let n := (length decoded - 4)%nat in
  let payload := firstn n decoded in
  let check := skipn n decoded in
  if bytes_eqb check (firstn 4 (hash_twice payload)) then Ok payload
  else Err (ValueError "Invalid checksum").

End Base58.

(** ** Python's true division of integers

    [a / b] on two [int]s is the IEEE 754 binary64 number nearest to the
    exact quotient (ties to even); it raises [ZeroDivisionError] when [b]
    is zero and [OverflowError] when the rounded quotient exceeds the
    largest finite float. A float is represented by its exact rational
    value, which is all that comparisons observe. *)

Module PyFloat.

Definition float : Type := Q.

(** The integer nearest to [n / d], ties to even ([0 <= n], [0 < d]). *)
Definition round_half_even (n d : Z) : Z :=
  let q := n / d in
  let r := n mod d in
  if 2 * r <? d then q
  else if d <? 2 * r then q + 1
  else if Z.even q then q else q + 1.

(** The binary64 number nearest to [n / d] ([0 < n], [0 < d]), the
    exponent range unbounded above: 53 significant bits, the unit in the
    last place never below [2^-1074]. *)
Definition nearest_binary64 (n d : Z) : float :=
  let e0 := Z.log2 n - Z.log2 d in
  let above := if 0 <=? e0 then d * 2 ^ e0 <=? n else d <=? n * 2 ^ (- e0) in
  let e := if above then e0 else e0 - 1 in
  let ulp := Z.max (e - 52) (-1074) in
  if 0 <=? ulp
  then inject_Z (round_half_even n (d * 2 ^ ulp) * 2 ^ ulp)
  else Qmake (round_half_even (n * 2 ^ (- ulp)) d) (Z.to_pos (2 ^ (- ulp))).

(** [a / b]. *)
Definition truediv (a b : Z) : result float :=
  if b =? 0 then Err ZeroDivisionError
  else if a =? 0 then Ok (inject_Z 0)
  else
    let q := nearest_binary64 (Z.abs a) (Z.abs b) in
    if Qle_bool (inject_Z (2 ^ 1024)) q then Err OverflowError
    else Ok (if Z.sgn a * Z.sgn b <? 0 then Qopp q else q).

(** [x < y] on floats. *)
Definition ltb (x y : float) : bool := negb (Qle_bool y x).

End PyFloat.

(** ** Week 2: the P2SH-P2WSH multisig transaction *)

Module Multisig.

(** [serialize_varint]. *)
Definition serialize_varint (value : Z) : result bytes :=
  if value <? 0xfd then bytes_of_int value
  else if value <=? 0xffff then b ← pack_H value; Ok (xfd :: b)
  else if value <=? 0xffffffff then b ← pack_I value; Ok (xfe :: b)
  else b ← pack_Q value; Ok (xff :: b).

(** [serialize_varint(len(b)) + b]. *)
Definition with_length (b : bytes) : result bytes :=
  n ← serialize_varint (len b); Ok (n ++ b).

(** [create_witness_program]. *)
Definition create_witness_program (redeem_script : bytes) : bytes :=
  [x00; x20] ++ sha256 redeem_script.

(** [create_scriptSig]. *)
Definition create_scriptSig (witness_program : bytes) : result bytes :=
  with_length witness_program.

(** [create_scriptPubKey]. *)
Definition create_scriptPubKey (output_address : string) : result bytes :=
  decoded ← Base58.b58decode_check output_address;
  let output_hash160 := skipn 1 decoded in
  Ok ([xa9; x14] ++ output_hash160 ++ [x87]).

(** The dictionaries the program builds for inputs and outputs. *)
Record txin : Type := mkTxin
  { prev_txid : bytes; prev_index : Z; script_sig : bytes; sequence : Z }.

Record txout : Type := mkTxout
  { value : Z; script_pubkey : bytes }.

Definition serialize_input (i : txin) : result bytes :=
  idx ← pack_I (prev_index i);
  script ← with_length (script_sig i);
  sq ← pack_I (sequence i);
  Ok (prev_txid i ++ idx ++ script ++ sq).

(** [serialize_inputs]. *)
Definition serialize_inputs (tx_inputs : list txin) : result bytes :=
  parts ← map_result serialize_input tx_inputs; Ok (concat parts).

Definition serialize_output (o : txout) : result bytes :=
  v ← pack_Q (value o);
  script ← with_length (script_pubkey o);
  Ok (v ++ script).

(** [serialize_outputs]. *)
Definition serialize_outputs (tx_outputs : list txout) : result bytes :=
  parts ← map_result serialize_output tx_outputs; Ok (concat parts).

Definition outpoint (i : txin) : result bytes :=
  idx ← pack_I (prev_index i); Ok (prev_txid i ++ idx).

(** [calculate_sighash]. The [locktime] argument is received and not
    used: the preimage carries the literals 100000 and 0. *)
Definition sighash_preimage (tx_version : Z) (tx_inputs : list txin)
    (tx_outputs : list txout) (redeem_script : bytes) (locktime : Z) : result bytes :=
  ops ← map_result outpoint tx_inputs;
  let prevouts := hash_twice (concat ops) in
  sqs ← map_result (fun i => pack_I (sequence i)) tx_inputs;
  let sequences := hash_twice (concat sqs) in
  scriptCode ← with_length redeem_script;
  outs ← map_result serialize_output tx_outputs;
  let outputs := hash_twice (concat outs) in
  ver ← pack_I tx_version;
  in0 ← index0 tx_inputs;
  idx0 ← pack_I (prev_index in0);
  amount ← pack_Q 100000;
  in0' ← index0 tx_inputs;
  sq0 ← pack_I (sequence in0');
  lt ← pack_I 0;
  ty ← pack_I 0x01;
  Ok (ver ++ prevouts ++ sequences ++ prev_txid in0 ++ idx0 ++ scriptCode ++
      amount ++ sq0 ++ outputs ++ lt ++ ty).

Definition calculate_sighash (tx_version : Z) (tx_inputs : list txin)
    (tx_outputs : list txout) (redeem_script : bytes) (locktime : Z) : result bytes :=
  preimage ← sighash_preimage tx_version tx_inputs tx_outputs redeem_script locktime;
  Ok (hash_twice preimage).

(** [assemble_transaction]: one [witness] stack for the whole transaction. *)
Definition assemble_transaction (tx_version : Z) (tx_inputs : list txin)
    (tx_outputs : list txout) (witness : list bytes) (locktime : Z) : result bytes :=
  ver ← pack_I tx_version;
  nin ← serialize_varint (len tx_inputs);
  ins ← serialize_inputs tx_inputs;
  nout ← serialize_varint (len tx_outputs);
  outs ← serialize_outputs tx_outputs;
  nwit ← serialize_varint (len witness);
  items ← map_result with_length witness;
  lt ← pack_I locktime;
  Ok (ver ++ [x00; x01] ++ nin ++ ins ++ nout ++ outs ++ nwit ++ concat items ++ lt).

End Multisig.

(** ** Week 3: mining a block *)

Module Mining.

(** A value of a transaction record as [json.load] returns it: an [int] or
    a [str] (the only kinds the program's operations are modelled on). *)
Inductive json : Type :=
| JInt (n : Z)
| JStr (s : string).

(** A record of the pool: a JSON object, loaded as a [dict]. *)
Abbreviation tx := (gmap string json).

Definition target_threshold : result bytes :=
  fromhex "0000ffff00000000000000000000000000000000000000000000000000000000".
Definition witness_reserved_value : bytes := zeros 32.
Definition max_block_size : Z := 4000000.

(** [tx[k]]. *)
Definition getitem (t : tx) (k : string) : result json :=
  match t !! k with
  | Some v => Ok v
  | None => Err (KeyError k)
  end.

(** [k in tx]. *)
Definition contains (t : tx) (k : string) : bool :=
  match t !! k with
  | Some _ => true
  | None => false
  end.

(** [a + v] and [a / b] where operands come from a record: a [str] operand
    is a [TypeError]. *)
Definition add_json (a : Z) (v : json) : result Z :=
  match v with
  | JInt n => Ok (a + n)
  | JStr _ => Err TypeError
  end.

Definition div_json (a b : json) : result PyFloat.float :=
  match a, b with
  | JInt x, JInt y => PyFloat.truediv x y
  | _, _ => Err TypeError
  end.

(** [bytes.fromhex(v)] on a value of a record. *)
Definition fromhex_json (v : json) : result bytes :=
  match v with
  | JStr s => fromhex s
  | JInt _ => Err TypeError
  end.

(** *** Selection (lines 33-42) *)

(** [[tx for tx in tx_list if all(field in tx for field in ('fee', 'weight'))]]. *)
Definition valid_txs (tx_list : list tx) : list tx :=
  filter (fun t => forallb (contains t) ["fee"; "weight"] = true) tx_list.

(** The sort key [tx['fee'] / tx['weight']]. *)
Definition density (t : tx) : result PyFloat.float :=
  fee ← getitem t "fee";
  weight ← getitem t "weight";
  div_json fee weight.

(** [list.sort(key=..., reverse=True)]: the keys are computed once, in list
    order; the order is descending and stable (an element goes before the
    first one that is not greater than it). *)
Fixpoint insert_desc (x : PyFloat.float * tx) (l : list (PyFloat.float * tx))
  : list (PyFloat.float * tx) :=
  match l with
  | [] => [x]
  | y :: l' => if PyFloat.ltb (fst x) (fst y) then y :: insert_desc x l' else x :: l
  end.

Definition sort_desc (l : list (PyFloat.float * tx)) : list (PyFloat.float * tx) :=
  foldr insert_desc [] l.

Definition keyed (txs : list tx) : result (list (PyFloat.float * tx)) :=
  map_result (fun t => k ← density t; Ok (k, t)) txs.

Definition sort_by_density (txs : list tx) : result (list tx) :=
  ks ← keyed txs; Ok (map snd (sort_desc ks)).

(** The loop of lines 37-40, from the state [(selected_txs, total_weight)]. *)
Fixpoint select_loop (txs selected_txs : list tx) (total_weight : Z)
  : result (list tx * Z) :=
  match txs with
  | [] => Ok (selected_txs, total_weight)
  | t :: rest =>
      w ← getitem t "weight";
      s ← add_json total_weight w;
      if s <=? max_block_size - 4000
      then select_loop rest (selected_txs ++ [t]) s
      else select_loop rest selected_txs total_weight
  end.

(** [sum(tx['fee'] for tx in selected_txs)]. *)
Fixpoint sum_fees (txs : list tx) (acc : Z) : result Z :=
  match txs with
  | [] => Ok acc
  | t :: rest => fee ← getitem t "fee"; acc' ← add_json acc fee; sum_fees rest acc'
  end.

Definition select_txs (tx_list : list tx) : result (list tx * Z) :=
  sorted ← sort_by_density (valid_txs tx_list);
  select_loop sorted [] 0.

(** *** The coinbase transaction, first pass (lines 46-72) *)

Definition tx_version : result bytes := pack_I 1.
Definition segwit_marker : bytes := [x00].
Definition segwit_flag : bytes := [x01].
Definition script_sig : result bytes := b ← pack_B 4; Ok (b ++ zeros 4).

Definition coinbase_tx (total_fees : Z) : result bytes :=
  tx_version ← tx_version;
  script_sig ← script_sig;
  index ← pack_I 0xFFFFFFFF;
  script_sig_len ← bytes_of_int (len script_sig);
  reward ← pack_Q (5000000000 + total_fees);
  p2pkh ← fromhex "76a914000000000000000000000000000000000000000088ac";
  tag ← fromhex "6a24aa21a9ed";
  let commitment_script := tag ++ zeros 32 in
  commitment_len ← bytes_of_int (len commitment_script);
  locktime ← pack_I 0;
  Ok (tx_version ++ segwit_marker ++ segwit_flag ++ [x01] ++ zeros 32 ++ index ++
      script_sig_len ++ script_sig ++ [xff; xff; xff; xff] ++ [x02] ++ reward ++
      [x19] ++ p2pkh ++ zeros 8 ++ commitment_len ++ commitment_script ++
      [x01] ++ [x20] ++ witness_reserved_value ++ locktime).

(** *** Witness ids (lines 73-76) *)

Definition wtxid_of (t : tx) : result string :=
  h ← getitem t "hex";
  raw ← fromhex_json h;
  Ok (hex (rev (hash_twice raw))).

Definition tx_wtxid_list (coinbase_tx : bytes) (selected_txs : list tx)
  : result (list string) :=
  rest ← map_result wtxid_of selected_txs;
  Ok (hex (rev (hash_twice coinbase_tx)) :: rest).

(** *** The merkle reduction (lines 80-84 and 116-120, the same text) *)

(** [[hash_twice(l[i] + l[i+1]) for i in range(0, len(l), 2)]]. *)
Fixpoint pair_hashes (l : list bytes) : result (list bytes) :=
  match l with
  | [] => Ok []
  | [_] => Err IndexError
  | a :: b :: r => hs ← pair_hashes r; Ok (hash_twice (a ++ b) :: hs)
  end.

(** [l[-1]]. *)
Definition index_last (l : list bytes) : result bytes :=
  match rev l with
  | x :: _ => Ok x
  | [] => Err IndexError
  end.

(** One turn of the [while] body. *)
Definition merkle_step (hash_list : list bytes) : result (list bytes) :=
  padded ← (if Nat.odd (length hash_list)
            then x ← index_last hash_list; Ok (hash_list ++ [x])
            else Ok hash_list);
  pair_hashes padded.

(** [while len(hash_list) > 1: ...], at most [fuel] turns. *)
Fixpoint merkle_loop (fuel : nat) (hash_list : list bytes) : result (list bytes) :=
  if 1 <? len hash_list then
    match fuel with
    | O => OutOfFuel
    | S fuel' => next ← merkle_step hash_list; merkle_loop fuel' next
    end
  else Ok hash_list.

(** The loop, then [hash_list[0] if hash_list else bytes(32)]. The length
    of the list bounds the number of turns. *)
Definition merkle_root (hash_list : list bytes) : result bytes :=
  final ← merkle_loop (length hash_list) hash_list;
  Ok (match final with
      | h :: _ => h
      | [] => zeros 32
      end).

(** *** The witness commitment (lines 79-85) *)

Definition witness_hash_list (tx_wtxid_list : list string) : result (list bytes) :=
  match tx_wtxid_list with
  | [] => Ok []
  | _ :: others =>
      rest ← map_result (fun txid => b ← fromhex txid; Ok (rev b)) others;
      Ok (zeros 32 :: rest)
  end.

Definition witness_commitment_value (tx_wtxid_list : list string) : result bytes :=
  hash_list ← witness_hash_list tx_wtxid_list;
  witness_root_hash ← merkle_root hash_list;
  Ok (hash_twice (witness_root_hash ++ witness_reserved_value)).

(** *** The coinbase transaction, second pass (lines 88-110) *)

Definition coinbase_tx_final (total_fees : Z) (witness_commitment_value : bytes)
  : result bytes :=
  tx_version ← tx_version;
  script_sig ← script_sig;
  index ← pack_I 0xFFFFFFFF;
  script_sig_len ← bytes_of_int (len script_sig);
  reward ← pack_Q (5000000000 + total_fees);
  p2pkh ← fromhex "76a914000000000000000000000000000000000000000088ac";
  tag ← fromhex "6a24aa21a9ed";
  let commitment_script := tag ++ witness_commitment_value in
  commitment_len ← bytes_of_int (len commitment_script);
  locktime ← pack_I 0;
  Ok (tx_version ++ segwit_marker ++ segwit_flag ++ [x01] ++ zeros 32 ++ index ++
      script_sig_len ++ script_sig ++ [xff; xff; xff; xff] ++ [x02] ++ reward ++
      [x19] ++ p2pkh ++ zeros 8 ++ commitment_len ++ commitment_script ++
      [x01] ++ [x20] ++ witness_reserved_value ++ locktime).

(** *** The transaction merkle root (lines 111-120) *)

Definition coinbase_wtxid (coinbase_tx_final : bytes) : string :=
  hex (rev (hash_twice coinbase_tx_final)).

Definition tx_id_list (coinbase_wtxid : string) (selected_txs : list tx)
  : result (list json) :=
  ids ← map_result (fun t => getitem t "txid") selected_txs;
  Ok (JStr coinbase_wtxid :: ids).

Definition hash_items (tx_id_list : list json) : result (list bytes) :=
  match tx_id_list with
  | [] => Ok []
  | _ => map_result (fun txid => b ← fromhex_json txid; Ok (rev b)) tx_id_list
  end.

(** *** The header and the nonce search (lines 123-139) *)

Definition block_header (merkle_root_hash : bytes) (now : Z) : result bytes :=
  block_version ← pack_I 0x20000000;
  let prev_block_hash := zeros 32 in
  timestamp_now ← pack_I now;
  block_bits ← pack_I 0x1f00ffff;
  Ok (block_version ++ prev_block_hash ++ merkle_root_hash ++ timestamp_now ++ block_bits).

Definition nonce_not_found : error := ValueError "Valid nonce not found".

(** [for nonce in range(nonce, nonce + remaining): ... else: raise]: the
    first nonce of the range whose header hash is below the target. *)
Fixpoint search_nonce (remaining : nat) (nonce : Z) (block_header target_value : bytes)
  : result (bytes * Z) :=
  match remaining with
  | O => Err nonce_not_found
  | S remaining' =>
      n ← pack_I nonce;
      let full_block_header := block_header ++ n in
      let block_hash_attempt := rev (hash_twice full_block_header) in
      if bytes_ltb block_hash_attempt target_value
      then Ok (full_block_header, nonce)
      else search_nonce remaining' (nonce + 1) block_header target_value
  end.

(** [range(0, 0xFFFFFFFF)] has [0xFFFFFFFF] elements. *)
Definition mine (block_header target_value : bytes) : result (bytes * Z) :=
  search_nonce (Z.to_nat (0xFFFFFFFF - 0)) 0 block_header target_value.

(** *** The whole program, from the loaded pool and the clock *)

(** Everything the program has computed when the nonce search starts. *)
Record candidate : Type := mkCandidate
  { c_selected_txs : list tx;
    c_total_fees : Z;
    c_coinbase_tx : bytes;
    c_tx_wtxid_list : list string;
    c_witness_commitment_value : bytes;
    c_coinbase_tx_final : bytes;
    c_tx_id_list : list json;
    c_merkle_root_hash : bytes;
    c_block_header : bytes }.

Definition prepare_block (tx_list : list tx) (now : Z) : result candidate :=
  '(selected_txs, _) ← select_txs tx_list;
  total_fees ← sum_fees selected_txs 0;
  cb ← coinbase_tx total_fees;
  wtxids ← tx_wtxid_list cb selected_txs;
  commitment ← witness_commitment_value wtxids;
  cb_final ← coinbase_tx_final total_fees commitment;
  ids ← tx_id_list (coinbase_wtxid cb_final) selected_txs;
  items ← hash_items ids;
  merkle_root_hash ← merkle_root items;
  header ← block_header merkle_root_hash now;
  Ok (mkCandidate selected_txs total_fees cb wtxids commitment cb_final ids
        merkle_root_hash header).

(** What the program writes to [out.txt]: the mined header, the final
    coinbase transaction and the transaction ids. *)
Definition mine_block (tx_list : list tx) (now : Z) : result (bytes * bytes * list json) :=
  c ← prepare_block tx_list now;
  target_value ← target_threshold;
  '(mined_block_header, _) ← mine (c_block_header c) target_value;
  Ok (mined_block_header, c_coinbase_tx_final c, c_tx_id_list c).

End Mining.

(** ** The formats as the specification words them

    Pure byte layouts, with no failure case: they are what the program's
    functions are compared with on well-formed data. *)

Module Spec.

Import Multisig.

(** A field in range for its fixed-width encoding. *)
Definition u32 (v : Z) : Prop := 0 <= v < 2 ^ 32.
Definition u64 (v : Z) : Prop := 0 <= v < 2 ^ 64.

(** VarInt: 1, 3, 5 or 9 bytes depending on magnitude. *)
Definition varint (n : Z) : bytes :=
  if n <? 0xfd then [byte_of_Z n]
  else if n <=? 0xffff then xfd :: le_bytes 2 n
  else if n <=? 0xffffffff then xfe :: le_bytes 4 n
  else xff :: le_bytes 8 n.

(** VarInt(len) followed by the bytes. *)
Definition prefixed (b : bytes) : bytes := varint (len b) ++ b.

(** prevTxid(32B), prevIndex(4B), VarInt(scriptLen), script, sequence(4B). *)
Definition input_bytes (i : txin) : bytes :=
  prev_txid i ++ le_bytes 4 (prev_index i) ++ prefixed (script_sig i) ++
  le_bytes 4 (sequence i).

(** value(8B), VarInt(scriptLen), script. *)
Definition output_bytes (o : txout) : bytes :=
  le_bytes 8 (value o) ++ prefixed (script_pubkey o).

(** One input's witness: VarInt(item count), then each item as
    VarInt(len) and bytes. *)
Definition witness_bytes (stack : list bytes) : bytes :=
  varint (len stack) ++ concat (map prefixed stack).

Definition wf_txin (i : txin) : Prop :=
  u32 (prev_index i) /\ u32 (sequence i) /\ u64 (len (script_sig i)).

Definition wf_txout (o : txout) : Prop :=
  u64 (value o) /\ u64 (len (script_pubkey o)).

(** A transaction: version, inputs, outputs, one witness stack per input,
    locktime. *)
Record transaction : Type := mkTransaction
  { version : Z;
    inputs : list txin;
    outputs : list txout;
    witnesses : list (list bytes);
    locktime : Z }.

(** The legacy form: no marker, no flag, no witness data. *)
Definition legacy_serialization (t : transaction) : bytes :=
  le_bytes 4 (version t) ++
  varint (len (inputs t)) ++ concat (map input_bytes (inputs t)) ++
  varint (len (outputs t)) ++ concat (map output_bytes (outputs t)) ++
  le_bytes 4 (locktime t).

(** The extended form: marker and flag after the version, and after the
    outputs one witness per input. *)
Definition extended_serialization (t : transaction) : bytes :=
  le_bytes 4 (version t) ++ [x00; x01] ++
  varint (len (inputs t)) ++ concat (map input_bytes (inputs t)) ++
  varint (len (outputs t)) ++ concat (map output_bytes (outputs t)) ++
  concat (map witness_bytes (witnesses t)) ++
  le_bytes 4 (locktime t).

(** The ids, as displayed: reversed, in hexadecimal. *)
Definition legacy_id (t : transaction) : string :=
  hex (rev (hash_twice (legacy_serialization t))).
Definition witness_id (t : transaction) : string :=
  hex (rev (hash_twice (extended_serialization t))).

(** The BIP143 preimage for [this_input], the first input, spending an
    output of value [amount] under the script [script_code]. *)
Definition bip143_preimage (tx_version : Z) (this_input : txin) (others : list txin)
    (tx_outputs : list txout) (script_code : bytes) (amount tx_locktime : Z) : bytes :=
  let all_inputs := this_input :: others in
  le_bytes 4 tx_version ++
  hash_twice (concat (map (fun i => prev_txid i ++ le_bytes 4 (prev_index i)) all_inputs)) ++
  hash_twice (concat (map (fun i => le_bytes 4 (sequence i)) all_inputs)) ++
  prev_txid this_input ++ le_bytes 4 (prev_index this_input) ++
  prefixed script_code ++
  le_bytes 8 amount ++
  le_bytes 4 (sequence this_input) ++
  hash_twice (concat (map output_bytes tx_outputs)) ++
  le_bytes 4 tx_locktime ++
  le_bytes 4 0x01.

Definition bip143_sighash (tx_version : Z) (this_input : txin) (others : list txin)
    (tx_outputs : list txout) (script_code : bytes) (amount tx_locktime : Z) : bytes :=
  hash_twice (bip143_preimage tx_version this_input others tx_outputs script_code
                amount tx_locktime).

(** The coinbase transaction of a block whose selected transactions pay
    [total_fees], committing to [commitment]: one input with the null
    outpoint, the subsidy output, the commitment output, and the reserved
    value as the input's only witness item. *)
Definition coinbase (total_fees : Z) (commitment : bytes) : transaction :=
  {| version := 1;
     inputs := [ {| prev_txid := zeros 32; prev_index := 0xFFFFFFFF;
                    script_sig := [x04; x00; x00; x00; x00];
                    sequence := 0xFFFFFFFF |} ];
     outputs :=
       [ {| value := 5000000000 + total_fees;
            script_pubkey := [x76; xa9; x14] ++ zeros 20 ++ [x88; xac] |};
         {| value := 0;
            script_pubkey := [x6a; x24; xaa; x21; xa9; xed] ++ commitment |} ];
     witnesses := [ [ zeros 32 ] ];
     locktime := 0 |}.

End Spec.

(** ** Predicates used by the statements *)

Module Props.

Import Multisig.

(** [decoded] is what [addr] carries under Base58Check: the address
    decodes to [decoded] followed by a four-byte checksum that matches. *)
Definition base58check (addr : string) (decoded : bytes) : Prop :=
  exists check : bytes,
    Base58.b58decode addr = Ok (decoded ++ check) /\
    length check = 4%nat /\
    check = firstn 4 (hash_twice decoded).

(** All fields of a transaction in range for their encodings. *)
Definition wf_parts (tx_version : Z) (tx_inputs : list txin) (tx_outputs : list txout)
    (tx_locktime : Z) : Prop :=
  Spec.u32 tx_version /\ Spec.u64 (len tx_inputs) /\ Forall Spec.wf_txin tx_inputs /\
  Spec.u64 (len tx_outputs) /\ Forall Spec.wf_txout tx_outputs /\ Spec.u32 tx_locktime.

(** What the signature digest reads of an input: its outpoint index and
    its sequence number. *)
Definition wf_outpoint (i : txin) : Prop :=
  Spec.u32 (prev_index i) /\ Spec.u32 (sequence i).

Definition wf_stack (stack : list bytes) : Prop :=
  Spec.u64 (len stack) /\ Forall (fun item => Spec.u64 (len item)) stack.

(** The same conditions as boolean tests. *)
Definition u32b (v : Z) : bool := (0 <=? v) && (v <? 2 ^ 32).
Definition u64b (v : Z) : bool := (0 <=? v) && (v <? 2 ^ 64).
Definition wf_txinb (i : txin) : bool :=
  u32b (prev_index i) && u32b (sequence i) && u64b (len (script_sig i)).
Definition wf_txoutb (o : txout) : bool :=
  u64b (value o) && u64b (len (script_pubkey o)).
Definition wf_partsb (tx_version : Z) (tx_inputs : list txin) (tx_outputs : list txout)
    (tx_locktime : Z) : bool :=
  u32b tx_version && u64b (len tx_inputs) && forallb wf_txinb tx_inputs &&
  u64b (len tx_outputs) && forallb wf_txoutb tx_outputs && u32b tx_locktime.
Definition wf_outpointb (i : txin) : bool :=
  u32b (prev_index i) && u32b (sequence i).
Definition wf_stackb (stack : list bytes) : bool :=
  u64b (len stack) && forallb (fun item => u64b (len item)) stack.

(** The test of the nonce search on one nonce: the header hash, in
    display order, is below the target. *)
Definition hit (block_header target_value : bytes) (nonce : Z) : bool :=
  bytes_ltb (rev (hash_twice (block_header ++ le_bytes 4 nonce))) target_value.

(** The weight budget of the selection: the block weight ceiling minus
    the 4000 units kept for the header and the coinbase. *)
Definition weight_budget : Z := Mining.max_block_size - 4000.

(** The weight a record carries, and the weight of a list of records. *)
Definition weight_of (t : Mining.tx) : Z :=
  match t !! "weight" with
  | Some (Mining.JInt w) => w
  | _ => 0
  end.

Definition total_weight (l : list Mining.tx) : Z :=
  fold_right (fun t acc => weight_of t + acc) 0 l.

(** Greedy acceptance: scanning the candidates in order from a running
    total, each one is taken when it still fits and passed over when it
    does not; the scan goes on to the end either way. *)
Inductive greedy (budget : Z) : Z -> list Mining.tx -> list Mining.tx -> Prop :=
| greedy_done (total : Z) : greedy budget total [] []
| greedy_take (total : Z) (t : Mining.tx) (rest selected : list Mining.tx) :
    total + weight_of t <= budget ->
    greedy budget (total + weight_of t) rest selected ->
    greedy budget total (t :: rest) (t :: selected)
| greedy_skip (total : Z) (t : Mining.tx) (rest selected : list Mining.tx) :
    budget < total + weight_of t ->
    greedy budget total rest selected ->
    greedy budget total (t :: rest) selected.




(** The bytes of a serialised pool transaction: [bytes.fromhex(tx['hex'])]. *)
Definition raw_tx (t : Mining.tx) : result bytes :=
  h ← Mining.getitem t "hex"; Mining.fromhex_json h.

(** The coinbase bytes that precede the 32 commitment bytes (version,
    marker, flag, the input, the output count, the subsidy output, and the
    commitment output up to its tag), and the ones that follow them (the
    witness and the locktime). *)
Definition before_commitment (total_fees : Z) : bytes :=
  le_bytes 4 1 ++ [x00; x01] ++
  [x01] ++ zeros 32 ++ le_bytes 4 0xFFFFFFFF ++
    [x05] ++ [x04; x00; x00; x00; x00] ++ le_bytes 4 0xFFFFFFFF ++
  [x02] ++
    le_bytes 8 (5000000000 + total_fees) ++
    [x19] ++ [x76; xa9; x14] ++ zeros 20 ++ [x88; xac] ++
    le_bytes 8 0 ++ [x26] ++ [x6a; x24; xaa; x21; xa9; xed].

Definition after_commitment : bytes :=
  [x01] ++ [x20] ++ zeros 32 ++ le_bytes 4 0.

End Props.

(** ** Sample data: the week-2 program's own run, and small pools *)

Module Example.

Import Multisig.

(** [bytes.fromhex] of a literal. *)
Definition literal (s : string) : bytes :=
  match fromhex s with
  | Ok b => b
  | _ => []
  end.

Definition redeem_script : bytes :=
  literal "5221032ff8c5df0bc00fe1ac2319c3b8070d6d1e04cfbf4fedda499ae7b775185ad53b21039bbc8d24f89e5bc44c5b0d1980d6658316a6b2440023117c3c03a4975b04dd5652ae".

Definition witness_program : bytes := create_witness_program redeem_script.

Definition the_input : txin :=
  {| prev_txid := literal "0000000000000000000000000000000000000000000000000000000000000000";
     prev_index := 0;
     script_sig := Spec.prefixed witness_program;
     sequence := 0xffffffff |}.

Definition the_output : txout :=
  {| value := 100000;
     script_pubkey := literal "a914043f512301b66ffa8d73e71907e2b0b80989521587" |}.

(** A witness stack of the shape the program builds: the empty dummy
    element, two stand-ins for the signatures, the redeem script. *)
Definition the_witness : list bytes :=
  [ []; [x30; x01]; [x30; x01]; redeem_script ].

(** Records of a pool. The first three are complete; [no_hex] and
    [no_txid] carry a fee and a weight and lack one of the other fields;
    [no_weight] lacks its weight. *)
Definition tx_a : Mining.tx :=
  {[ "fee" := Mining.JInt 10; "weight" := Mining.JInt 100;
     "txid" := Mining.JStr "aa"; "hex" := Mining.JStr "0102" ]}.
Definition tx_b : Mining.tx :=
  {[ "fee" := Mining.JInt 5; "weight" := Mining.JInt 50;
     "txid" := Mining.JStr "bb"; "hex" := Mining.JStr "0304" ]}.
Definition tx_c : Mining.tx :=
  {[ "fee" := Mining.JInt 9; "weight" := Mining.JInt 80;
     "txid" := Mining.JStr "cc"; "hex" := Mining.JStr "0506" ]}.
Definition no_hex : Mining.tx :=
  {[ "fee" := Mining.JInt 1; "weight" := Mining.JInt 1;
     "txid" := Mining.JStr "dd" ]}.
Definition no_txid : Mining.tx :=
  {[ "fee" := Mining.JInt 1; "weight" := Mining.JInt 1;
     "hex" := Mining.JStr "0708" ]}.
Definition no_weight : Mining.tx :=
  {[ "fee" := Mining.JInt 1; "txid" := Mining.JStr "ee"; "hex" := Mining.JStr "090a" ]}.



End Example.

(** ** RIPEMD-160 ([hashlib.new('ripemd160', ...)]) *)

Module RIPEMD160.

Definition mask32 : Z := 0xFFFFFFFF.
Definition add32 (x y : Z) : Z := Z.land (x + y) mask32.
Definition rotl (n x : Z) : Z :=
  Z.lor (Z.land (Z.shiftl x n) mask32) (Z.shiftr x (32 - n)).
Definition not32 (x : Z) : Z := Z.lxor x mask32.

(** The five boolean functions, by round number. *)
Definition f (j : nat) (x y z : Z) : Z :=
  match j with
  | 0%nat => Z.lxor (Z.lxor x y) z
  | 1%nat => Z.lor (Z.land x y) (Z.land (not32 x) z)
  | 2%nat => Z.lxor (Z.lor x (not32 y)) z
  | 3%nat => Z.lor (Z.land x z) (Z.land y (not32 z))
  | _ => Z.lxor x (Z.lor y (not32 z))
  end.

Definition K_left : list Z := [0; 0x5A827999; 0x6ED9EBA1; 0x8F1BBCDC; 0xA953FD4E].
Definition K_right : list Z := [0x50A28BE6; 0x5C4DD124; 0x6D703EF3; 0x7A6D76E9; 0].

(** Message word order and rotation amounts of the two lines, 80 steps
    each. *)
Definition r_left : list nat :=
  [0; 1; 2; 3; 4; 5; 6; 7; 8; 9; 10; 11; 12; 13; 14; 15;
   7; 4; 13; 1; 10; 6; 15; 3; 12; 0; 9; 5; 2; 14; 11; 8;
   3; 10; 14; 4; 9; 15; 8; 1; 2; 7; 0; 6; 13; 11; 5; 12;
   1; 9; 11; 10; 0; 8; 12; 4; 13; 3; 7; 15; 14; 5; 6; 2;
   4; 0; 5; 9; 7; 12; 2; 10; 14; 1; 3; 8; 11; 6; 15; 13]%nat.

Definition r_right : list nat :=
  [5; 14; 7; 0; 9; 2; 11; 4; 13; 6; 15; 8; 1; 10; 3; 12;
   6; 11; 3; 7; 0; 13; 5; 10; 14; 15; 8; 12; 4; 9; 1; 2;
   15; 5; 1; 3; 7; 14; 6; 9; 11; 8; 12; 2; 10; 0; 4; 13;
   8; 6; 4; 1; 3; 11; 15; 0; 5; 12; 2; 13; 9; 7; 10; 14;
   12; 15; 10; 4; 1; 5; 8; 7; 6; 2; 13; 14; 0; 3; 9; 11]%nat.

Definition s_left : list Z :=
  [11; 14; 15; 12; 5; 8; 7; 9; 11; 13; 14; 15; 6; 7; 9; 8;
   7; 6; 8; 13; 11; 9; 7; 15; 7; 12; 15; 9; 11; 7; 13; 12;
   11; 13; 6; 7; 14; 9; 13; 15; 14; 8; 13; 6; 5; 12; 7; 5;
   11; 12; 14; 15; 14; 15; 9; 8; 9; 14; 5; 6; 8; 6; 5; 12;
   9; 15; 5; 11; 6; 8; 13; 12; 5; 12; 13; 14; 11; 8; 5; 6].

Definition s_right : list Z :=
  [8; 9; 9; 11; 13; 15; 15; 5; 7; 7; 8; 11; 14; 14; 12; 6;
   9; 13; 15; 7; 12; 8; 9; 11; 7; 7; 12; 7; 6; 15; 13; 11;
   9; 7; 15; 11; 8; 6; 6; 14; 12; 13; 5; 14; 13; 13; 7; 5;
   15; 5; 8; 11; 14; 14; 6; 14; 6; 9; 12; 9; 12; 5; 15; 8;
   8; 5; 12; 9; 12; 5; 14; 6; 8; 13; 6; 5; 15; 13; 11; 11].

(** The chaining value, and one line's five working words. *)
Record state : Type := mkState { h0 : Z; h1 : Z; h2 : Z; h3 : Z; h4 : Z }.

Definition initial : state :=
  mkState 0x67452301 0xEFCDAB89 0x98BADCFE 0x10325476 0xC3D2E1F0.

(** Little-endian 32-bit words of a block. *)
Fixpoint words (b : bytes) : list Z :=
  match b with
  | b0 :: b1 :: b2 :: b3 :: rest => be_value [b3; b2; b1; b0] :: words rest
  | _ => []
  end.

(** Step [j] of a line reading rounds upwards ([left = true]) or
    downwards. *)
Definition step (left : bool) (x : list Z) (s : state) (j : nat) : state :=
  let rnd := (j / 16)%nat in
  let fj := if left then f rnd else f (4 - rnd)%nat in
  let k := nth rnd (if left then K_left else K_right) 0 in
  let r := nth j (if left then r_left else r_right) 0%nat in
  let sh := nth j (if left then s_left else s_right) 0 in
  let t := add32 (rotl sh (add32 (add32 (h0 s) (fj (h1 s) (h2 s) (h3 s)))
                                 (add32 (nth r x 0) k)))
                 (h4 s) in
  mkState (h4 s) t (h1 s) (rotl 10 (h2 s)) (h3 s).

Definition compress (s : state) (block : bytes) : state :=
  let x := words block in
  let l := fold_left (step true x) (seq 0 80) s in
  let r := fold_left (step false x) (seq 0 80) s in
  mkState (add32 (add32 (h1 s) (h2 l)) (h3 r))
          (add32 (add32 (h2 s) (h3 l)) (h4 r))
          (add32 (add32 (h3 s) (h4 l)) (h0 r))
          (add32 (add32 (h4 s) (h0 l)) (h1 r))
          (add32 (add32 (h0 s) (h1 l)) (h2 r)).

(** Padding: a 1 bit, zeros up to 56 modulo 64, the bit length on 8
    little-endian bytes. *)
Definition pad (msg : bytes) : bytes :=
  let l := Z.of_nat (length msg) in
  msg ++ [x80] ++ zeros (Z.to_nat ((55 - l) mod 64)) ++ le_bytes 8 (8 * l).

Fixpoint absorb (n : nat) (s : state) (b : bytes) : state :=
  match n with
  | O => s
  | S n' => absorb n' (compress s (firstn 64 b)) (skipn 64 b)
  end.

Definition ripemd160 (msg : bytes) : bytes :=
  let p := pad msg in
  let s := absorb (length p / 64)%nat initial p in
  le_bytes 4 (h0 s) ++ le_bytes 4 (h1 s) ++ le_bytes 4 (h2 s) ++ le_bytes 4 (h3 s) ++
  le_bytes 4 (h4 s).

End RIPEMD160.

Definition ripemd160 : bytes -> bytes := RIPEMD160.ripemd160.

Arguments ripemd160 : simpl never.

(** ** Base58Check encoding ([base58.b58encode_check], package base58 2.1) *)

Module Base58Encode.

(** [alphabet[idx:idx+1]]. *)
Definition char_at (idx : Z) : string :=
  String.substring (Z.to_nat idx) 1 Base58.alphabet.

(** [b58encode_int] with [default_one=False]: the loop [while i:], each
    turn putting the next base-58 digit in front, at most [fuel] turns. *)
Fixpoint b58encode_int_loop (fuel : nat) (i : Z) (str : string) : result string :=
  if i =? 0 then Ok str
  else
    match fuel with
    | O => OutOfFuel
    | S fuel' =>
        b58encode_int_loop fuel' (i / 58) (String.append (char_at (i mod 58)) str)
    end.

(** [v.lstrip(b'\0')], with the number of bytes removed. *)
Fixpoint lstrip_zeros (v : bytes) : nat * bytes :=
  match v with
  | x00 :: v' => let '(n, r) := lstrip_zeros v' in (S n, r)
  | _ => (O, v)
  end.

(** [alphabet[0:1] * n]. *)
Fixpoint ones (n : nat) : string :=
  match n with
  | O => EmptyString
  | S n' => String.append (char_at 0) (ones n')
  end.

(** [b58encode]. Two base-58 digits hold more than one byte, which bounds
    the turns of the loop. *)
Definition b58encode (v : bytes) : result string :=
  let '(nzeros, rest) := lstrip_zeros v in
  let acc := be_value rest in
  digits ← b58encode_int_loop (2 * length rest) acc EmptyString;
  Ok (String.append (ones nzeros) digits).

(** [b58encode_check]. *)
Definition b58encode_check (v : bytes) : result string :=
  let digest := hash_twice v in
  b58encode (v ++ firstn 4 digest).

End Base58Encode.

(** ** Week 2: the P2SH address *)

Module P2SH.

(** [hashlib.new('ripemd160', hashlib.sha256(x).digest()).digest()], on an
    interpreter whose [hashlib] provides RIPEMD-160. *)
Definition hash160 (data : bytes) : bytes := ripemd160 (sha256 data).

(** [derive_p2sh_address]. *)
Definition derive_p2sh_address (witness_program : bytes) : result string :=
  Base58Encode.b58encode_check ([x05] ++ hash160 witness_program).

End P2SH.

(** ** Predicates on Base58 strings *)

Module Base58Props.

(** The digit at position [d] of the alphabet, as a character. *)
Definition digit_char (d : Z) : ascii :=
  match Base58Encode.char_at d with
  | String c _ => c
  | EmptyString => "1"%char
  end.

(** The test run on each of the 58 digits: the character at [d] stands
    at position [d] only, is not whitespace, and is ["1"] only for 0. *)
Definition digit_ok (d : Z) : bool :=
  match Base58Encode.char_at d with
  | String c EmptyString =>
      match Base58.find_char c Base58.alphabet 0 with
      | Some d' => (d' =? d) && negb (Base58.is_space c) && ((d =? 0) || negb (Ascii.eqb c "1"))
      | None => false
      end
  | _ => false
  end.

(** A string without whitespace. *)
Fixpoint spaceless (s : string) : Prop :=
  match s with
  | EmptyString => True
  | String c s' => Base58.is_space c = false /\ spaceless s'
  end.

(** A string of whitespace only. *)
Fixpoint blank (s : string) : Prop :=
  match s with
  | EmptyString => True
  | String c s' => Base58.is_space c = true /\ blank s'
  end.

(** A string that does not start with the digit of value zero. *)
Definition canonical (s : string) : Prop :=
  match s with
  | String c _ => c <> "1"%char
  | EmptyString => True
  end.

End Base58Props.

(** ** Predicates on pools *)

Module Pool.

Import Mining.

(** The fee a record carries, and the fees of a list of records. *)
Definition fee_of (t : tx) : Z :=
  match t !! "fee" with
  | Some (JInt f) => f
  | _ => 0
  end.

Definition total_fee (l : list tx) : Z :=
  fold_right (fun t acc => fee_of t + acc) 0 l.

(** A record with an integer fee below [2^1000] in absolute value and a
    positive integer weight. *)
Definition priced (t : tx) : bool :=
  match t !! "fee", t !! "weight" with
  | Some (JInt f), Some (JInt w) => (Z.abs f <? 2 ^ 1000) && (0 <? w)
  | _, _ => false
  end.

(** A complete record: a non-negative integer fee, a positive integer
    weight, and [hex] and [txid] strings that [bytes.fromhex] reads. *)
Definition complete (t : tx) : bool :=
  match t !! "fee", t !! "weight", t !! "hex", t !! "txid" with
  | Some (JInt f), Some (JInt w), Some (JStr h), Some (JStr i) =>
      (0 <=? f) && (0 <? w) && is_ok (fromhex h) && is_ok (fromhex i)
  | _, _, _, _ => false
  end.

End Pool.

(** * Properties *)

(** ** The error monad *)

Lemma bind_Ok {A B : Type} (a : A) (k : A -> result B) : (Ok a ≫= k) = k a.
Proof. reflexivity. Qed.

Lemma Ok_inj {A : Type} (a b : A) : Ok a = Ok b -> a = b.
Proof. intros H. now injection H. Qed.

Lemma bind_inv_Ok {A B : Type} (r : result A) (k : A -> result B) (b : B) :
  (r ≫= k) = Ok b -> exists a, r = Ok a /\ k a = Ok b.
Proof. destruct r as [a|e|]; simpl; intros H; [eauto | discriminate..]. Qed.

Lemma map_result_Ok {A B : Type} (f : A -> result B) (g : A -> B) (l : list A) :
  Forall (fun x => f x = Ok (g x)) l -> map_result f l = Ok (map g l).
Proof.
  induction 1 as [|x l Hx _ IH]; simpl; [reflexivity|].
  rewrite Hx, IH. reflexivity.
Qed.

Lemma map_result_inv_Ok {A B : Type} (f : A -> result B) (l : list A) (ys : list B) :
  map_result f l = Ok ys -> Forall2 (fun x y => f x = Ok y) l ys.
Proof.
  revert ys. induction l as [|x l IH]; simpl; intros ys H.
  - injection H as <-. constructor.
  - destruct (f x) as [y|e|] eqn:Hx; simpl in H; try discriminate.
    destruct (map_result f l) as [ys'|e|]; simpl in H; try discriminate.
    injection H as <-. constructor; auto.
Qed.

(** ** Bytes and digests *)

Lemma le_bytes_length (n : nat) (v : Z) : length (le_bytes n v) = n.
Proof. revert v. induction n as [|n IH]; intros v; simpl; [reflexivity|]. now rewrite IH. Qed.

Lemma be_bytes_length (n : nat) (v : Z) : length (be_bytes n v) = n.
Proof. unfold be_bytes. rewrite length_rev. apply le_bytes_length. Qed.

Lemma sha256_length (m : bytes) : length (sha256 m) = 32%nat.
Proof.
  unfold sha256, SHA256.sha256, SHA256.digest_of.
  rewrite !length_app, !be_bytes_length. reflexivity.
Qed.

Lemma hash_twice_length (m : bytes) : length (hash_twice m) = 32%nat.
Proof. apply sha256_length. Qed.

(** Test vectors: the empty message, and "abc" (FIPS 180-4, B.1). *)
Example sha256_test_vectors :
  fromhex "e3b0c44298fc1c149afbf4c8996fb92427ae41e4649b934ca495991b7852b855" =
    Ok (sha256 []) /\
  fromhex "ba7816bf8f01cfea414140de5dae2223b00361a396177a9cb410ff61f20015ad" =
    Ok (sha256 [x61; x62; x63]) /\
  length SHA256.K = 64%nat /\
  nth 0 SHA256.K 0 = 0x428a2f98 /\ nth 63 SHA256.K 0 = 0xc67178f2.
Proof. repeat split; vm_compute; reflexivity. Qed.

(** From here on the digests are only computed on closed data
    ([vm_compute]); proofs about open terms never unfold them. *)
Opaque sha256 hash_twice.

Lemma bytes_eqb_eq (a b : bytes) : bytes_eqb a b = true <-> a = b.
Proof.
  revert b. induction a as [|x a IH]; intros [|y b]; simpl; split; intros H;
    try reflexivity; try discriminate.
  - apply andb_true_iff in H as [Hxy Hab].
    apply Byte.byte_dec_bl in Hxy. apply IH in Hab. congruence.
  - injection H as -> ->. apply andb_true_iff. split.
    + now apply Byte.byte_dec_lb.
    + now apply IH.
Qed.

(** ** Week 2: [create_scriptPubKey] *)

Lemma b58decode_int_from_cases (v : string) (acc : Z) :
  (exists n, Base58.b58decode_int_from acc v = Ok n) \/
  Base58.b58decode_int_from acc v = Err (ValueError "Invalid character").
Proof.
  revert acc. induction v as [|c v IH]; intros acc.
  - left. simpl. eauto.
  - cbn [Base58.b58decode_int_from].
    destruct (Base58.find_char c Base58.alphabet 0); [apply IH | now right].
Qed.

Lemma b58decode_cases (v : string) :
  (exists raw, Base58.b58decode v = Ok raw) \/
  Base58.b58decode v = Err (ValueError "Invalid character").
Proof.
  unfold Base58.b58decode, Base58.b58decode_int.
  destruct (Base58.lstrip_ones (Base58.rstrip v)) as [nzeros rest].
  destruct (b58decode_int_from_cases rest 0) as [[n ->] | ->];
    cbn [mbind result_bind]; eauto.
Qed.

Lemma b58decode_check_Ok_iff (addr : string) (decoded : bytes) :
  Base58.b58decode_check addr = Ok decoded <-> Props.base58check addr decoded.
Proof.
  unfold Base58.b58decode_check, Props.base58check. split.
  - intros H. apply bind_inv_Ok in H as (raw & Hraw & H).
    set (n := (length raw - 4)%nat) in *.
    destruct (bytes_eqb _ _) eqn:Hck in H; [|discriminate].
    injection H as <-. apply bytes_eqb_eq in Hck.
    exists (skipn n raw). rewrite firstn_skipn. split; [exact Hraw|]. split; [|exact Hck].
    rewrite Hck, length_firstn, hash_twice_length. reflexivity.
  - intros (check & Hraw & Hlen & Hck). rewrite Hraw. cbn [mbind result_bind].
    rewrite length_app, Hlen.
    replace (length decoded + 4 - 4)%nat with (length decoded) by lia.
    rewrite firstn_app, Nat.sub_diag, firstn_all. cbn [firstn]. rewrite app_nil_r.
    rewrite skipn_app, Nat.sub_diag, skipn_all. cbn [app].
    change (skipn 0 check) with check. rewrite <- Hck. now rewrite (proj2 (bytes_eqb_eq check check) eq_refl).
Qed.

Lemma b58decode_check_cases (addr : string) :
  (exists decoded, Base58.b58decode_check addr = Ok decoded) \/
  (exists msg, Base58.b58decode_check addr = Err (ValueError msg)).
Proof.
  unfold Base58.b58decode_check.
  destruct (b58decode_cases addr) as [[raw ->] | ->]; cbn [mbind result_bind].
  - destruct (bytes_eqb _ _); eauto.
  - eauto.
Qed.

(** The address of the program's own run. *)
Example create_scriptPubKey_example :
  Multisig.create_scriptPubKey "325UUecEQuyrTd28Xs2hvAxdAjHM7XzqVF" =
    fromhex "a914043f512301b66ffa8d73e71907e2b0b80989521587" /\
  Multisig.create_scriptPubKey "325UUecEQuyrTd28Xs2hvAxdAjHM7XzqVG" =
    Err (ValueError "Invalid checksum").
Proof. split; vm_compute; reflexivity. Qed.

(** ** Week 2: encodings *)

Lemma pack_uint_Ok (n : nat) (v : Z) :
  0 <= v < 2 ^ (8 * Z.of_nat n) -> pack_uint n v = Ok (le_bytes n v).
Proof.
  intros [H0 H1]. unfold pack_uint.
  rewrite (proj2 (Z.leb_le _ _) H0), (proj2 (Z.ltb_lt _ _) H1). reflexivity.
Qed.

Lemma pack_I_Ok (v : Z) : Spec.u32 v -> pack_I v = Ok (le_bytes 4 v).
Proof. apply (pack_uint_Ok 4). Qed.

Lemma pack_Q_Ok (v : Z) : Spec.u64 v -> pack_Q v = Ok (le_bytes 8 v).
Proof. apply (pack_uint_Ok 8). Qed.

Lemma serialize_varint_Ok (v : Z) :
  Spec.u64 v -> Multisig.serialize_varint v = Ok (Spec.varint v).
Proof.
  unfold Spec.u64, Multisig.serialize_varint, Spec.varint. intros [H0 H1].
  destruct (v <? 0xfd) eqn:E1.
  - apply Z.ltb_lt in E1. unfold bytes_of_int.
    rewrite (proj2 (Z.leb_le _ _) H0), (proj2 (Z.ltb_lt v 256)) by lia. reflexivity.
  - apply Z.ltb_ge in E1. destruct (v <=? 0xffff) eqn:E2.
    + apply Z.leb_le in E2. unfold pack_H. rewrite (pack_uint_Ok 2) by (simpl; lia).
      reflexivity.
    + apply Z.leb_gt in E2. destruct (v <=? 0xffffffff) eqn:E3.
      * apply Z.leb_le in E3. unfold pack_I. rewrite (pack_uint_Ok 4) by (simpl; lia).
        reflexivity.
      * unfold pack_Q. rewrite (pack_uint_Ok 8) by (simpl; lia). reflexivity.
Qed.

Lemma with_length_Ok (b : bytes) :
  Spec.u64 (len b) -> Multisig.with_length b = Ok (Spec.prefixed b).
Proof.
  intros H. unfold Multisig.with_length. now rewrite (serialize_varint_Ok _ H).
Qed.

Lemma serialize_input_Ok (i : Multisig.txin) :
  Spec.wf_txin i -> Multisig.serialize_input i = Ok (Spec.input_bytes i).
Proof.
  intros (Hi & Hs & Hl). unfold Multisig.serialize_input.
  rewrite (pack_I_Ok _ Hi), (with_length_Ok _ Hl), (pack_I_Ok _ Hs). reflexivity.
Qed.

Lemma serialize_output_Ok (o : Multisig.txout) :
  Spec.wf_txout o -> Multisig.serialize_output o = Ok (Spec.output_bytes o).
Proof.
  intros (Hv & Hl). unfold Multisig.serialize_output.
  rewrite (pack_Q_Ok _ Hv), (with_length_Ok _ Hl). reflexivity.
Qed.

Lemma serialize_inputs_Ok (l : list Multisig.txin) :
  Forall Spec.wf_txin l ->
  Multisig.serialize_inputs l = Ok (concat (map Spec.input_bytes l)).
Proof.
  intros H. unfold Multisig.serialize_inputs.
  rewrite (map_result_Ok _ Spec.input_bytes); [reflexivity|].
  eapply Forall_impl; [exact H|]. apply serialize_input_Ok.
Qed.

Lemma serialize_outputs_Ok (l : list Multisig.txout) :
  Forall Spec.wf_txout l ->
  Multisig.serialize_outputs l = Ok (concat (map Spec.output_bytes l)).
Proof.
  intros H. unfold Multisig.serialize_outputs.
  rewrite (map_result_Ok _ Spec.output_bytes); [reflexivity|].
  eapply Forall_impl; [exact H|]. apply serialize_output_Ok.
Qed.

Lemma varint_nonempty (n : Z) : (1 <= length (Spec.varint n))%nat.
Proof.
  unfold Spec.varint.
  destruct (n <? 0xfd); [simpl; lia|].
  destruct (n <=? 0xffff); [simpl; lia|].
  destruct (n <=? 0xffffffff); simpl; lia.
Qed.

Lemma witness_bytes_nonempty (stack : list bytes) :
  (1 <= length (Spec.witness_bytes stack))%nat.
Proof.
  unfold Spec.witness_bytes. rewrite length_app.
  pose proof (varint_nonempty (len stack)). lia.
Qed.

(** A result that is not [Ok b], decided by evaluation. *)
Lemma result_neq_Ok (r : result bytes) (b : bytes) :
  match r with Ok a => negb (bytes_eqb a b) | _ => true end = true -> r <> Ok b.
Proof.
  intros H ->. rewrite (proj2 (bytes_eqb_eq b b) eq_refl) in H. discriminate.
Qed.

Lemma u32b_sound (v : Z) : Props.u32b v = true -> Spec.u32 v.
Proof. unfold Props.u32b, Spec.u32. intros H. apply andb_true_iff in H. lia. Qed.

Lemma u64b_sound (v : Z) : Props.u64b v = true -> Spec.u64 v.
Proof. unfold Props.u64b, Spec.u64. intros H. apply andb_true_iff in H. lia. Qed.

Lemma wf_txinb_sound (i : Multisig.txin) : Props.wf_txinb i = true -> Spec.wf_txin i.
Proof.
  unfold Props.wf_txinb, Spec.wf_txin. rewrite !andb_true_iff.
  intros [[H1 H2] H3]. auto using u32b_sound, u64b_sound.
Qed.

Lemma wf_txoutb_sound (o : Multisig.txout) : Props.wf_txoutb o = true -> Spec.wf_txout o.
Proof.
  unfold Props.wf_txoutb, Spec.wf_txout. rewrite !andb_true_iff.
  intros [H1 H2]. auto using u64b_sound.
Qed.

Lemma forallb_Forall {A : Type} (p : A -> bool) (P : A -> Prop) (l : list A) :
  (forall x, p x = true -> P x) -> forallb p l = true -> Forall P l.
Proof.
  intros Hp. induction l as [|x l IH]; cbn [forallb]; intros H; constructor;
    apply andb_true_iff in H as [Hx Hl]; auto.
Qed.

Lemma wf_partsb_sound tx_version tx_inputs tx_outputs tx_locktime :
  Props.wf_partsb tx_version tx_inputs tx_outputs tx_locktime = true ->
  Props.wf_parts tx_version tx_inputs tx_outputs tx_locktime.
Proof.
  unfold Props.wf_partsb, Props.wf_parts. rewrite !andb_true_iff.
  intros [[[[[H1 H2] H3] H4] H5] H6].
  split; [now apply u32b_sound|]. split; [now apply u64b_sound|].
  split; [eapply forallb_Forall; [apply wf_txinb_sound | exact H3]|].
  split; [now apply u64b_sound|].
  split; [eapply forallb_Forall; [apply wf_txoutb_sound | exact H5]|].
  now apply u32b_sound.
Qed.

Lemma wf_stackb_sound (stack : list bytes) :
  Props.wf_stackb stack = true -> Props.wf_stack stack.
Proof.
  unfold Props.wf_stackb, Props.wf_stack. rewrite andb_true_iff. intros [H1 H2].
  split; [now apply u64b_sound|]. eapply forallb_Forall; [|exact H2].
  intros x. apply u64b_sound.
Qed.

(** ** Week 2: [assemble_transaction] *)

(** The layout [assemble_transaction] produces on fields in range. *)
Lemma assemble_transaction_layout
    (tx_version : Z) (tx_inputs : list Multisig.txin) (tx_outputs : list Multisig.txout)
    (witness : list bytes) (locktime : Z) :
  Props.wf_parts tx_version tx_inputs tx_outputs locktime ->
  Props.wf_stack witness ->
  Multisig.assemble_transaction tx_version tx_inputs tx_outputs witness locktime =
    Ok (le_bytes 4 tx_version ++ [x00; x01] ++
        Spec.varint (len tx_inputs) ++ concat (map Spec.input_bytes tx_inputs) ++
        Spec.varint (len tx_outputs) ++ concat (map Spec.output_bytes tx_outputs) ++
        Spec.witness_bytes witness ++ le_bytes 4 locktime).
Proof.
  intros (Hv & Hni & Hins & Hno & Houts & Hlt) (Hnw & Hitems).
  unfold Multisig.assemble_transaction, Spec.witness_bytes.
  rewrite (pack_I_Ok _ Hv), (serialize_varint_Ok _ Hni), (serialize_inputs_Ok _ Hins),
    (serialize_varint_Ok _ Hno), (serialize_outputs_Ok _ Houts),
    (serialize_varint_Ok _ Hnw), (pack_I_Ok _ Hlt).
  rewrite (map_result_Ok Multisig.with_length Spec.prefixed).
  2:{ eapply Forall_impl; [exact Hitems|]. apply with_length_Ok. }
  cbn [mbind result_bind]. rewrite <- !app_assoc. reflexivity.
Qed.

(** C4, as the code has it. On fields in range, [assemble_transaction]
    returns version, marker [00], flag [01], VarInt(input count), the
    inputs, VarInt(output count), the outputs, then the one witness stack it
    is given (VarInt(item count) and each item as VarInt(len) and bytes),
    then the locktime: the extended form of the transaction whose witness
    list holds that single stack, whatever the number of inputs. *)
Theorem assemble_transaction_single_stack
    (tx_version : Z) (tx_inputs : list Multisig.txin) (tx_outputs : list Multisig.txout)
    (witness : list bytes) (locktime : Z) :
  Props.wf_parts tx_version tx_inputs tx_outputs locktime ->
  Props.wf_stack witness ->
  Multisig.assemble_transaction tx_version tx_inputs tx_outputs witness locktime =
    Ok (Spec.extended_serialization
          {| Spec.version := tx_version; Spec.inputs := tx_inputs;
             Spec.outputs := tx_outputs; Spec.witnesses := [witness];
             Spec.locktime := locktime |}).
Proof.
  intros Hwf Hstack. rewrite (assemble_transaction_layout _ _ _ _ _ Hwf Hstack).
  unfold Spec.extended_serialization.
  cbn [Spec.version Spec.inputs Spec.outputs Spec.witnesses Spec.locktime map concat].
  rewrite app_nil_r. reflexivity.
Qed.

Lemma assemble_transaction_single_stack_witness :
  Multisig.assemble_transaction 2 [Example.the_input] [Example.the_output]
      Example.the_witness 0 =
    Ok (Spec.extended_serialization
          {| Spec.version := 2; Spec.inputs := [Example.the_input];
             Spec.outputs := [Example.the_output];
             Spec.witnesses := [Example.the_witness]; Spec.locktime := 0 |}).
Proof.
  apply (assemble_transaction_single_stack 2 [Example.the_input] [Example.the_output]
           Example.the_witness 0).
  - apply wf_partsb_sound. vm_compute. reflexivity.
  - apply wf_stackb_sound. vm_compute. reflexivity.
Defined.

(** An empty stack serialised once is shorter than any two stacks
    serialised in turn. *)
Lemma assemble_transaction_empty_stack_not_two
    (tx_version : Z) (tx_inputs : list Multisig.txin) (tx_outputs : list Multisig.txout)
    (locktime : Z) (stacks : list (list bytes)) :
  Props.wf_parts tx_version tx_inputs tx_outputs locktime ->
  length stacks = 2%nat ->
  Multisig.assemble_transaction tx_version tx_inputs tx_outputs [] locktime <>
    Ok (Spec.extended_serialization
          {| Spec.version := tx_version; Spec.inputs := tx_inputs;
             Spec.outputs := tx_outputs; Spec.witnesses := stacks;
             Spec.locktime := locktime |}).
Proof.
  intros Hwf Hlen H.
  rewrite assemble_transaction_layout in H; [|exact Hwf|].
  2:{ split; [unfold Spec.u64, len; cbn [length]; lia | constructor]. }
  injection H as H. apply (f_equal (@length byte)) in H.
  unfold Spec.extended_serialization in H.
  cbn [Spec.version Spec.inputs Spec.outputs Spec.witnesses Spec.locktime] in H.
  destruct stacks as [|s1 [|s2 [|]]]; try discriminate Hlen.
  cbn [map concat] in H. rewrite !length_app in H.
  pose proof (witness_bytes_nonempty s1). pose proof (witness_bytes_nonempty s2).
  change (length (Spec.witness_bytes [])) with 1%nat in H.
  cbn [length] in H. lia.
Qed.

(** With two inputs the output cannot be the per-input form, whatever two
    stacks are proposed: it carries one witness-count byte where two
    fields are due. *)
Lemma assemble_transaction_two_inputs_one_count :
  ~ exists stacks : list (list bytes),
      length stacks = 2%nat /\
      Multisig.assemble_transaction 2 [Example.the_input; Example.the_input]
          [Example.the_output] [] 0 =
        Ok (Spec.extended_serialization
              {| Spec.version := 2;
                 Spec.inputs := [Example.the_input; Example.the_input];
                 Spec.outputs := [Example.the_output];
                 Spec.witnesses := stacks; Spec.locktime := 0 |}).
Proof.
  intros (stacks & Hlen & H). revert H.
  apply assemble_transaction_empty_stack_not_two; [|exact Hlen].
  apply wf_partsb_sound. vm_compute. reflexivity.
Qed.

(** ** Week 2: [calculate_sighash] *)

Lemma wf_outpointb_sound (i : Multisig.txin) :
  Props.wf_outpointb i = true -> Props.wf_outpoint i.
Proof.
  unfold Props.wf_outpointb, Props.wf_outpoint. rewrite andb_true_iff.
  intros [H1 H2]. auto using u32b_sound.
Qed.

(** The [locktime] argument plays no part in the digest. *)
Lemma calculate_sighash_ignores_locktime tx_version tx_inputs tx_outputs redeem_script
    (locktime locktime' : Z) :
  Multisig.calculate_sighash tx_version tx_inputs tx_outputs redeem_script locktime =
  Multisig.calculate_sighash tx_version tx_inputs tx_outputs redeem_script locktime'.
Proof. reflexivity. Qed.

(** C2, as the code has it. On fields in range and for locktime 0,
    [calculate_sighash] returns SHA256d of the BIP143 preimage for the
    first input with the redeem script as script code, in which the spent
    output value is the constant 100000. *)
Theorem calculate_sighash_bip143
    (tx_version : Z) (this_input : Multisig.txin) (others : list Multisig.txin)
    (tx_outputs : list Multisig.txout) (redeem_script : bytes) (locktime : Z) :
  Spec.u32 tx_version ->
  Forall Props.wf_outpoint (this_input :: others) ->
  Forall Spec.wf_txout tx_outputs ->
  Spec.u64 (len redeem_script) ->
  locktime = 0 ->
  Multisig.calculate_sighash tx_version (this_input :: others) tx_outputs
      redeem_script locktime =
    Ok (Spec.bip143_sighash tx_version this_input others tx_outputs redeem_script
          100000 locktime).
Proof.
  intros Hv Hins Houts Hrs ->.
  unfold Multisig.calculate_sighash, Multisig.sighash_preimage,
    Spec.bip143_sighash, Spec.bip143_preimage.
  rewrite (map_result_Ok Multisig.outpoint
             (fun i => Multisig.prev_txid i ++ le_bytes 4 (Multisig.prev_index i))).
  2:{ eapply Forall_impl; [exact Hins|]. intros i [Hi _].
      unfold Multisig.outpoint. now rewrite (pack_I_Ok _ Hi). }
  rewrite (map_result_Ok (fun i => pack_I (Multisig.sequence i))
             (fun i => le_bytes 4 (Multisig.sequence i))).
  2:{ eapply Forall_impl; [exact Hins|]. intros i [_ Hs]. now apply pack_I_Ok. }
  rewrite (with_length_Ok _ Hrs).
  rewrite (map_result_Ok Multisig.serialize_output Spec.output_bytes).
  2:{ eapply Forall_impl; [exact Houts|]. apply serialize_output_Ok. }
  apply Forall_cons_1 in Hins as [[Hi0 Hs0] _].
  rewrite (pack_I_Ok _ Hv). cbn [mbind result_bind index0].
  rewrite (pack_I_Ok _ Hi0), (pack_I_Ok _ Hs0).
  reflexivity.
Qed.

Lemma calculate_sighash_bip143_witness :
  Multisig.calculate_sighash 2 [Example.the_input] [Example.the_output]
      Example.redeem_script 0 =
    Ok (Spec.bip143_sighash 2 Example.the_input [] [Example.the_output]
          Example.redeem_script 100000 0).
Proof.
  apply (calculate_sighash_bip143 2 Example.the_input [] [Example.the_output]
           Example.redeem_script 0).
  - apply u32b_sound. vm_compute. reflexivity.
  - eapply forallb_Forall; [apply wf_outpointb_sound | vm_compute; reflexivity].
  - eapply forallb_Forall; [apply wf_txoutb_sound | vm_compute; reflexivity].
  - apply u64b_sound. vm_compute. reflexivity.
  - reflexivity.
Defined.

(** The digest does not follow the value of the output being spent, nor a
    locktime other than 0: signing the program's own transaction, it is
    not the BIP143 digest for a spent value of 50000, nor the one for
    locktime 1. *)
Lemma calculate_sighash_not_supplied_values :
  Multisig.calculate_sighash 2 [Example.the_input] [Example.the_output]
      Example.redeem_script 0 <>
    Ok (Spec.bip143_sighash 2 Example.the_input [] [Example.the_output]
          Example.redeem_script 50000 0) /\
  Multisig.calculate_sighash 2 [Example.the_input] [Example.the_output]
      Example.redeem_script 1 <>
    Ok (Spec.bip143_sighash 2 Example.the_input [] [Example.the_output]
          Example.redeem_script 100000 1).
Proof. split; apply result_neq_Ok; vm_compute; reflexivity. Qed.

(** ** Week 3: the merkle reduction *)

Section Merkle.

Import Mining.

(** Induction two elements at a time, as [pair_hashes] recurses. *)
Lemma list_pair_ind {A : Type} (P : list A -> Prop) :
  P [] -> (forall a, P [a]) -> (forall a b l, P l -> P (a :: b :: l)) ->
  forall l, P l.
Proof.
  intros H0 H1 H2.
  fix IH 1. intros [|a [|b l]]; [exact H0 | apply H1 | apply H2, IH].
Qed.

Lemma pair_hashes_even (l : list bytes) :
  Nat.even (length l) = true ->
  exists hs, pair_hashes l = Ok hs /\ (2 * length hs = length l)%nat.
Proof.
  induction l as [| a | a b l IH] using list_pair_ind; intros Hev.
  - exists []. split; reflexivity.
  - discriminate Hev.
  - destruct (IH Hev) as (hs & Hhs & Hlen).
    exists (hash_twice (a ++ b) :: hs). cbn [pair_hashes]. rewrite Hhs.
    split; [reflexivity|]. cbn [length]. lia.
Qed.

Lemma index_last_snoc (l : list bytes) (x : bytes) : index_last (l ++ [x]) = Ok x.
Proof. unfold index_last. rewrite rev_app_distr. reflexivity. Qed.

Lemma nonempty_snoc {A : Type} (l : list A) :
  l <> [] -> exists l' x, l = l' ++ [x].
Proof.
  intros H. destruct (exists_last H) as (l' & x & ->). eauto.
Qed.

(** On an odd level, the step pairs the level with its last element
    repeated. *)
Lemma merkle_step_odd (l : list bytes) (x : bytes) :
  Nat.odd (length (l ++ [x])) = true ->
  merkle_step (l ++ [x]) = pair_hashes (l ++ [x; x]).
Proof.
  intros Hodd. unfold merkle_step. rewrite Hodd, index_last_snoc.
  cbn [mbind result_bind]. rewrite <- app_assoc. reflexivity.
Qed.

Lemma merkle_step_even (l : list bytes) :
  Nat.odd (length l) = false -> merkle_step l = pair_hashes l.
Proof. intros Hev. unfold merkle_step. rewrite Hev. reflexivity. Qed.

(** A step on a level of two or more elements yields a shorter,
    non-empty level. *)
Lemma merkle_step_Ok (l : list bytes) :
  (1 < length l)%nat ->
  exists next, merkle_step l = Ok next /\ (1 <= length next < length l)%nat.
Proof.
  intros Hlen. destruct (Nat.odd (length l)) eqn:Hodd.
  - destruct (nonempty_snoc l) as (l' & x & ->); [intros ->; cbn in Hlen; lia|].
    rewrite (merkle_step_odd _ _ Hodd).
    rewrite length_app in Hodd, Hlen. cbn [length] in Hodd, Hlen.
    destruct (pair_hashes_even (l' ++ [x; x])) as (hs & Hhs & Hl).
    { rewrite length_app. cbn [length].
      replace (length l' + 2)%nat with (S (length l' + 1)) by lia.
      rewrite Nat.even_succ. exact Hodd. }
    exists hs. split; [exact Hhs|].
    rewrite length_app in Hl |- *. cbn [length] in Hl |- *. lia.
  - rewrite (merkle_step_even _ Hodd).
    destruct (pair_hashes_even l) as (hs & Hhs & Hl).
    { rewrite <- Nat.negb_odd, Hodd. reflexivity. }
    exists hs. split; [exact Hhs|]. lia.
Qed.

Lemma merkle_loop_short (fuel : nat) (l : list bytes) :
  (length l <= 1)%nat -> merkle_loop fuel l = Ok l.
Proof.
  intros H. destruct fuel; cbn [merkle_loop]; unfold len;
    destruct (1 <? Z.of_nat (length l)) eqn:E; try reflexivity;
    apply Z.ltb_lt in E; lia.
Qed.

Lemma merkle_loop_long (fuel : nat) (l : list bytes) :
  (1 < length l)%nat ->
  merkle_loop (S fuel) l = (next ← merkle_step l; merkle_loop fuel next).
Proof.
  intros H. cbn [merkle_loop]. unfold len.
  destruct (1 <? Z.of_nat (length l)) eqn:E; [reflexivity|].
  apply Z.ltb_ge in E. lia.
Qed.

(** The loop ends within as many turns as the list has elements, on at
    most one element, exactly one when the list was not empty. *)
Lemma merkle_loop_terminates (fuel : nat) (l : list bytes) :
  (length l <= fuel)%nat ->
  exists final, merkle_loop fuel l = Ok final /\
    (length final <= 1)%nat /\ (l <> [] -> length final = 1%nat).
Proof.
  revert l. induction fuel as [|fuel IH]; intros l Hfuel.
  - destruct l; [|cbn in Hfuel; lia]. exists []. repeat split; [cbn; lia | congruence].
  - destruct (le_lt_dec (length l) 1) as [Hshort | Hlong].
    + exists l. rewrite (merkle_loop_short _ _ Hshort). repeat split; [exact Hshort|].
      intros Hne. destruct l as [|? [|]]; [congruence | reflexivity | cbn in Hshort; lia].
    + rewrite (merkle_loop_long _ _ Hlong).
      destruct (merkle_step_Ok l Hlong) as (next & -> & Hnext).
      cbn [mbind result_bind].
      destruct (IH next) as (final & Hfinal & Hle & Hone); [lia|].
      exists final. repeat split; [exact Hfinal | exact Hle |].
      intros _. apply Hone. intros ->. cbn in Hnext. lia.
Qed.

(** More fuel than needed changes nothing. *)
Lemma merkle_loop_fuel (fuel fuel' : nat) (l final : list bytes) :
  merkle_loop fuel l = Ok final -> (fuel <= fuel')%nat ->
  merkle_loop fuel' l = Ok final.
Proof.
  revert fuel' l. induction fuel as [|fuel IH]; intros fuel' l H Hle.
  - destruct (le_lt_dec (length l) 1) as [Hshort | Hlong].
    + rewrite merkle_loop_short in H |- * by exact Hshort. exact H.
    + cbn [merkle_loop] in H. unfold len in H.
      destruct (1 <? Z.of_nat (length l)) eqn:E; [discriminate|].
      apply Z.ltb_ge in E. lia.
  - destruct (le_lt_dec (length l) 1) as [Hshort | Hlong].
    + rewrite merkle_loop_short in H |- * by exact Hshort. exact H.
    + destruct fuel' as [|fuel']; [lia|].
      rewrite merkle_loop_long in H |- * by exact Hlong.
      destruct (merkle_step l) as [next|e|]; cbn [mbind result_bind] in H |- *;
        try discriminate.
      apply IH; [exact H | lia].
Qed.

Lemma merkle_loop_enough (fuel : nat) (l : list bytes) :
  (length l <= fuel)%nat -> merkle_loop fuel l = merkle_loop (length l) l.
Proof.
  intros Hle. destruct (merkle_loop_terminates (length l) l) as (final & H & _); [lia|].
  rewrite H. eapply merkle_loop_fuel; eauto.
Qed.

(** The root of a level of two or more elements is the root of the next
    level. *)
Lemma merkle_root_step (l : list bytes) :
  (1 < length l)%nat -> merkle_root l = (next ← merkle_step l; merkle_root next).
Proof.
  intros Hlong. unfold merkle_root.
  destruct (merkle_step_Ok l Hlong) as (next & Hstep & Hnext).
  destruct (length l) as [|n] eqn:Hn; [lia|].
  rewrite merkle_loop_long by lia. rewrite Hstep.
  cbn [mbind result_bind]. rewrite (merkle_loop_enough n next) by lia. reflexivity.
Qed.

Lemma merkle_root_total (l : list bytes) : exists root, merkle_root l = Ok root.
Proof.
  unfold merkle_root.
  destruct (merkle_loop_terminates (length l) l) as (final & -> & _); [lia|].
  cbn [mbind result_bind]. eauto.
Qed.

Lemma merkle_root_two (a b : bytes) : merkle_root [a; b] = Ok (hash_twice (a ++ b)).
Proof.
  rewrite merkle_root_step by (cbn; lia).
  rewrite merkle_step_even by reflexivity. reflexivity.
Qed.

Lemma merkle_root_odd (l : list bytes) (x : bytes) :
  l <> [] -> Nat.odd (length (l ++ [x])) = true ->
  merkle_root (l ++ [x]) = merkle_root (l ++ [x; x]).
Proof.
  intros Hne Hodd.
  assert (Hlen : (1 <= length l)%nat) by (destruct l; [congruence | cbn; lia]).
  rewrite (merkle_root_step (l ++ [x])) by (rewrite length_app; cbn [length]; lia).
  rewrite (merkle_root_step (l ++ [x; x])) by (rewrite length_app; cbn [length]; lia).
  rewrite (merkle_step_odd _ _ Hodd), merkle_step_even; [reflexivity|].
  rewrite length_app in Hodd |- *. cbn [length] in Hodd |- *.
  replace (length l + 2)%nat with (S (length l + 1)) by lia.
  rewrite Nat.odd_succ, <- Nat.negb_odd, Hodd. reflexivity.
Qed.

End Merkle.

(** C8. The merkle reduction returns the all-zero 32-byte root for an empty
    list, the element itself for one element, SHA256d(a ‖ b) for two; on a
    level of odd length it repeats the last element before pairing, at
    every level; and it always returns. *)
Theorem merkle_root_spec :
  Mining.merkle_root [] = Ok (zeros 32) /\
  (forall a, Mining.merkle_root [a] = Ok a) /\
  (forall a b, Mining.merkle_root [a; b] = Ok (hash_twice (a ++ b))) /\
  (forall l x, l <> [] -> Nat.odd (length (l ++ [x])) = true ->
     Mining.merkle_step (l ++ [x]) = Mining.pair_hashes (l ++ [x; x]) /\
     Mining.merkle_root (l ++ [x]) = Mining.merkle_root (l ++ [x; x])) /\
  (forall a b c,
     Mining.merkle_root [a; b; c] =
       Ok (hash_twice (hash_twice (a ++ b) ++ hash_twice (c ++ c)))) /\
  (forall l, (1 < length l)%nat ->
     Mining.merkle_root l = (next ← Mining.merkle_step l; Mining.merkle_root next)) /\
  (forall l, exists root, Mining.merkle_root l = Ok root).
Proof.
  split; [reflexivity|]. split; [reflexivity|]. split; [apply merkle_root_two|].
  split.
  { intros l x Hne Hodd. split; [now apply merkle_step_odd | now apply merkle_root_odd]. }
  split.
  { intros a b c. change [a; b; c] with ([a; b] ++ [c]).
    rewrite (merkle_root_odd [a; b] c) by (congruence || reflexivity).
    cbn [app]. rewrite merkle_root_step by (cbn; lia).
    rewrite merkle_step_even by reflexivity. cbn [Mining.pair_hashes mbind result_bind].
    apply merkle_root_two. }
  split; [apply merkle_root_step | apply merkle_root_total].
Qed.

(** ** Week 3: the nonce search *)

Section NonceSearch.

Import Mining.

Variables block_header target_value : bytes.

(** What [search_nonce] does on a range of 32-bit nonces: it fails when no
    nonce of the range hits, and otherwise returns the first that does. *)
Lemma search_nonce_spec (remaining : nat) (nonce : Z) :
  0 <= nonce -> nonce + Z.of_nat remaining <= 2 ^ 32 ->
  (search_nonce remaining nonce block_header target_value = Err nonce_not_found /\
   forall n, nonce <= n < nonce + Z.of_nat remaining ->
     Props.hit block_header target_value n = false) \/
  (exists n, nonce <= n < nonce + Z.of_nat remaining /\
     search_nonce remaining nonce block_header target_value =
       Ok (block_header ++ le_bytes 4 n, n) /\
     Props.hit block_header target_value n = true /\
     forall m, nonce <= m < n -> Props.hit block_header target_value m = false).
Proof.
  revert nonce. induction remaining as [|remaining IH]; intros nonce H0 Hmax.
  - left. split; [reflexivity|]. intros n Hn. lia.
  - cbn [search_nonce]. rewrite pack_I_Ok by (unfold Spec.u32; lia).
    cbn [mbind result_bind].
    fold (Props.hit block_header target_value nonce).
    destruct (Props.hit block_header target_value nonce) eqn:Hhit.
    + right. exists nonce. split; [lia|]. split; [reflexivity|].
      split; [exact Hhit|]. intros m Hm. lia.
    + destruct (IH (nonce + 1)) as [[Herr Hmiss] | (n & Hn & Hok & Hn_hit & Hfirst)];
        [lia | lia | |].
      * left. split; [exact Herr|]. intros n Hn.
        destruct (Z.eq_dec n nonce) as [-> | Hne]; [exact Hhit | apply Hmiss; lia].
      * right. exists n. split; [lia|]. split; [exact Hok|].
        split; [exact Hn_hit|]. intros m Hm.
        destruct (Z.eq_dec m nonce) as [-> | Hne]; [exact Hhit | apply Hfirst; lia].
Qed.

Lemma mine_spec :
  (mine block_header target_value = Err nonce_not_found /\
   forall n, 0 <= n < 0xFFFFFFFF -> Props.hit block_header target_value n = false) \/
  (exists n, 0 <= n < 0xFFFFFFFF /\
     mine block_header target_value = Ok (block_header ++ le_bytes 4 n, n) /\
     Props.hit block_header target_value n = true /\
     forall m, 0 <= m < n -> Props.hit block_header target_value m = false).
Proof.
  unfold mine.
  assert (Hr : Z.of_nat (Z.to_nat (0xFFFFFFFF - 0)) = 0xFFFFFFFF) by (apply Z2Nat.id; lia).
  generalize dependent (Z.to_nat (0xFFFFFFFF - 0)). intros remaining Hr.
  pose proof (search_nonce_spec remaining 0) as H.
  rewrite Hr in H. apply H; lia.
Qed.

End NonceSearch.

(** Big-endian value of a byte string, one byte at a time. *)
Lemma Z_of_byte_range (b : byte) : 0 <= Z_of_byte b < 256.
Proof. unfold Z_of_byte. pose proof (Byte.to_N_bounded b). lia. Qed.

Lemma be_value_from (l : bytes) (acc : Z) :
  fold_left (fun a x => a * 256 + Z_of_byte x) l acc =
  acc * 256 ^ Z.of_nat (length l) + be_value l.
Proof.
  unfold be_value. revert acc. induction l as [|x l IH]; intros acc.
  - cbn [fold_left length]. change (256 ^ Z.of_nat 0) with 1. lia.
  - cbn [fold_left length]. rewrite IH, (IH (0 * 256 + Z_of_byte x)).
    rewrite Nat2Z.inj_succ, Z.pow_succ_r by lia. ring.
Qed.

Lemma be_value_cons (x : byte) (l : bytes) :
  be_value (x :: l) = Z_of_byte x * 256 ^ Z.of_nat (length l) + be_value l.
Proof.
  unfold be_value at 1. cbn [fold_left]. rewrite be_value_from. reflexivity.
Qed.

Lemma be_value_range (l : bytes) : 0 <= be_value l < 256 ^ Z.of_nat (length l).
Proof.
  induction l as [|x l IH].
  - cbn. lia.
  - rewrite be_value_cons. cbn [length]. rewrite Nat2Z.inj_succ, Z.pow_succ_r by lia.
    pose proof (Z_of_byte_range x). nia.
Qed.

(** On byte strings of one length, [<] is the comparison of the numbers
    they spell, most significant byte first. *)
Lemma bytes_ltb_numeric (a b : bytes) :
  length a = length b -> bytes_ltb a b = (be_value a <? be_value b).
Proof.
  revert b. induction a as [|x a IH]; intros [|y b] Hlen; try discriminate Hlen.
  - reflexivity.
  - injection Hlen as Hlen. cbn [bytes_ltb]. rewrite !be_value_cons, <- Hlen.
    pose proof (be_value_range a) as Ha. pose proof (be_value_range b) as Hb.
    rewrite <- Hlen in Hb. set (p := 256 ^ Z.of_nat (length a)) in *.
    destruct (Z_of_byte x <? Z_of_byte y) eqn:E1.
    + apply Z.ltb_lt in E1. symmetry. apply Z.ltb_lt. nia.
    + apply Z.ltb_ge in E1. destruct (Z_of_byte y <? Z_of_byte x) eqn:E2.
      * apply Z.ltb_lt in E2. symmetry. apply Z.ltb_ge. nia.
      * apply Z.ltb_ge in E2. assert (Z_of_byte x = Z_of_byte y) as -> by lia.
        rewrite (IH b Hlen).
        destruct (be_value a <? be_value b) eqn:E3; symmetry.
        -- apply Z.ltb_lt in E3. apply Z.ltb_lt. lia.
        -- apply Z.ltb_ge in E3. apply Z.ltb_ge. lia.
Qed.

(** C3, on the code. The search tries the nonces 0, 1, ... in increasing
    order, compares each header hash (reversed to display order) with the
    target as numbers, strictly, returns the first nonce that is below, and
    raises when none is; but the range tried is [range(0, 0xFFFFFFFF)]: it
    stops at 0xFFFFFFFE, so a header whose only winning nonce is 0xFFFFFFFF
    is reported as having none. *)
Theorem mine_stops_before_last_nonce (block_header target_value : bytes) :
  ((Mining.mine block_header target_value = Err Mining.nonce_not_found /\
    forall n, 0 <= n < 0xFFFFFFFF -> Props.hit block_header target_value n = false) \/
   (exists n, 0 <= n < 0xFFFFFFFF /\
      Mining.mine block_header target_value = Ok (block_header ++ le_bytes 4 n, n) /\
      Props.hit block_header target_value n = true /\
      forall m, 0 <= m < n -> Props.hit block_header target_value m = false)) /\
  (length target_value = 32%nat ->
   forall n, Props.hit block_header target_value n =
     (be_value (rev (hash_twice (block_header ++ le_bytes 4 n))) <? be_value target_value)) /\
  (Props.hit block_header target_value 0xFFFFFFFF = true ->
   (forall n, 0 <= n < 0xFFFFFFFF -> Props.hit block_header target_value n = false) ->
   Mining.mine block_header target_value = Err Mining.nonce_not_found).
Proof.
  split; [apply mine_spec|]. split.
  - intros Hlen n. unfold Props.hit. apply bytes_ltb_numeric.
    rewrite length_rev, hash_twice_length, Hlen. reflexivity.
  - intros _ Hmiss.
    destruct (mine_spec block_header target_value) as [[H _] | (n & Hn & _ & Hhit & _)];
      [exact H|].
    rewrite (Hmiss n Hn) in Hhit. discriminate.
Qed.

(** ** Week 3: the two coinbase passes *)

Section Coinbase.

Import Mining.

Lemma fromhex_byte (x : byte) (s : string) :
  fromhex (String (hex_digit (Z_of_byte x / 16))
             (String (hex_digit (Z_of_byte x mod 16)) s)) =
  (bs ← fromhex s; Ok (x :: bs)).
Proof. destruct x; reflexivity. Qed.

(** [bytes.fromhex(b.hex()) == b]. *)
Lemma fromhex_hex (b : bytes) : fromhex (hex b) = Ok b.
Proof.
  induction b as [|x b IH]; [reflexivity|].
  cbn [hex]. rewrite fromhex_byte, IH. reflexivity.
Qed.

Lemma tx_version_eq : tx_version = Ok (le_bytes 4 1).
Proof. reflexivity. Qed.

Lemma script_sig_eq : script_sig = Ok [x04; x00; x00; x00; x00].
Proof. reflexivity. Qed.

Lemma fromhex_p2pkh :
  fromhex "76a914000000000000000000000000000000000000000088ac" =
  Ok ([x76; xa9; x14] ++ zeros 20 ++ [x88; xac]).
Proof. reflexivity. Qed.

Lemma fromhex_tag : fromhex "6a24aa21a9ed" = Ok [x6a; x24; xaa; x21; xa9; xed].
Proof. reflexivity. Qed.

Lemma commitment_script_len (commitment : bytes) :
  length commitment = 32%nat ->
  len ([x6a; x24; xaa; x21; xa9; xed] ++ commitment) = 38.
Proof. intros H. unfold len. rewrite length_app, H. reflexivity. Qed.

(** The second pass writes the prefix, the commitment, the suffix. *)
Lemma coinbase_tx_final_Ok (total_fees : Z) (commitment : bytes) :
  Spec.u64 (5000000000 + total_fees) -> length commitment = 32%nat ->
  coinbase_tx_final total_fees commitment =
    Ok (Props.before_commitment total_fees ++ commitment ++ Props.after_commitment).
Proof.
  intros Hfees Hlen. unfold coinbase_tx_final.
  rewrite tx_version_eq, script_sig_eq, fromhex_p2pkh, fromhex_tag.
  cbn [mbind result_bind].
  rewrite (pack_Q_Ok _ Hfees), (commitment_script_len _ Hlen).
  cbn [mbind result_bind].
  unfold Props.before_commitment, Props.after_commitment, segwit_marker, segwit_flag,
    witness_reserved_value.
  rewrite <- !app_assoc. reflexivity.
Qed.

(** The first pass writes the same prefix and suffix around 32 zero bytes. *)
Lemma coinbase_tx_Ok (total_fees : Z) :
  Spec.u64 (5000000000 + total_fees) ->
  coinbase_tx total_fees =
    Ok (Props.before_commitment total_fees ++ zeros 32 ++ Props.after_commitment).
Proof.
  intros Hfees. unfold coinbase_tx.
  rewrite tx_version_eq, script_sig_eq, fromhex_p2pkh, fromhex_tag.
  cbn [mbind result_bind].
  rewrite (pack_Q_Ok _ Hfees), (commitment_script_len (zeros 32) eq_refl).
  cbn [mbind result_bind].
  unfold Props.before_commitment, Props.after_commitment, segwit_marker, segwit_flag,
    witness_reserved_value.
  rewrite <- !app_assoc. reflexivity.
Qed.

(** Prefix, commitment and suffix make up the extended form of the
    coinbase transaction. *)
Lemma coinbase_extended (total_fees : Z) (commitment : bytes) :
  length commitment = 32%nat ->
  Spec.extended_serialization (Spec.coinbase total_fees commitment) =
    Props.before_commitment total_fees ++ commitment ++ Props.after_commitment.
Proof.
  intros Hlen.
  unfold Spec.extended_serialization, Spec.coinbase, Spec.input_bytes, Spec.output_bytes,
    Spec.witness_bytes, Spec.prefixed.
  cbn [Spec.version Spec.inputs Spec.outputs Spec.witnesses Spec.locktime
       Multisig.prev_txid Multisig.prev_index Multisig.script_sig Multisig.sequence
       Multisig.value Multisig.script_pubkey map concat].
  rewrite (commitment_script_len _ Hlen).
  unfold Props.before_commitment, Props.after_commitment.
  rewrite <- !app_assoc. reflexivity.
Qed.

End Coinbase.

Section WitnessCommitment.

Import Mining.

Lemma map_result_ext {A B : Type} (f g : A -> result B) (l : list A) :
  (forall x, f x = g x) -> map_result f l = map_result g l.
Proof.
  intros Hfg. induction l as [|x l IH]; [reflexivity|].
  cbn [map_result]. rewrite Hfg, IH. reflexivity.
Qed.

Lemma map_result_then {A B C : Type} (f : A -> result B) (g : B -> C)
    (l : list A) (ys : list B) :
  map_result f l = Ok ys ->
  map_result (fun x => y ← f x; Ok (g y)) l = Ok (map g ys).
Proof.
  revert ys. induction l as [|x l IH]; cbn [map_result]; intros ys H.
  - injection H as <-. reflexivity.
  - destruct (f x) as [y|e|]; cbn [mbind result_bind] in H |- *; try discriminate.
    destruct (map_result f l) as [ys'|e|]; cbn [mbind result_bind] in H; try discriminate.
    injection H as <-. rewrite (IH ys' eq_refl). reflexivity.
Qed.

Lemma map_result_map {A B C : Type} (f : B -> result C) (g : A -> B) (l : list A) :
  map_result f (map g l) = map_result (fun x => f (g x)) l.
Proof.
  induction l as [|x l IH]; [reflexivity|]. cbn [map map_result]. now rewrite IH.
Qed.

Lemma wtxid_of_raw (t : tx) :
  wtxid_of t = (raw ← Props.raw_tx t; Ok (hex (rev (hash_twice raw)))).
Proof.
  unfold wtxid_of, Props.raw_tx. destruct (getitem t "hex"); reflexivity.
Qed.

(** The witness ids listed after the coinbase's are the double hashes of
    the selected transactions' bytes, reversed and in hexadecimal. *)
Lemma tx_wtxid_list_Ok (first : bytes) (selected_txs : list tx) (raws : list bytes) :
  map_result Props.raw_tx selected_txs = Ok raws ->
  tx_wtxid_list first selected_txs =
    Ok (hex (rev (hash_twice first)) ::
        map (fun raw => hex (rev (hash_twice raw))) raws).
Proof.
  intros H. unfold tx_wtxid_list.
  rewrite (map_result_ext _ _ _ wtxid_of_raw), (map_result_then _ _ _ _ H).
  reflexivity.
Qed.

(** Read back for the commitment, they are the double hashes themselves,
    behind a first leaf of 32 zero bytes. *)
Lemma witness_hash_list_Ok (first_id : string) (raws : list bytes) :
  witness_hash_list (first_id :: map (fun raw => hex (rev (hash_twice raw))) raws) =
    Ok (zeros 32 :: map hash_twice raws).
Proof.
  unfold witness_hash_list. rewrite map_result_map.
  rewrite (map_result_Ok _ hash_twice); [reflexivity|].
  apply Forall_forall. intros raw _. rewrite fromhex_hex.
  cbn [mbind result_bind]. now rewrite rev_involutive.
Qed.

End WitnessCommitment.

(** C6. From fees in range and selected transactions whose [hex] fields
    decode, both passes return; the witness commitment is SHA256d of the
    witness merkle root (leaves: 32 zero bytes, then the selected
    transactions' witness ids) followed by the reserved value; and the two
    coinbase transactions are one prefix and one suffix around,
    respectively, 32 zero bytes and the commitment: the extended forms of
    the same transaction but for the commitment in output 1. *)
Theorem coinbase_passes_differ_in_commitment
    (total_fees : Z) (selected_txs : list Mining.tx) (raws : list bytes) :
  Spec.u64 (5000000000 + total_fees) ->
  map_result Props.raw_tx selected_txs = Ok raws ->
  exists first wtxids witness_root commitment final,
    Mining.coinbase_tx total_fees = Ok first /\
    Mining.tx_wtxid_list first selected_txs = Ok wtxids /\
    Mining.merkle_root (zeros 32 :: map hash_twice raws) = Ok witness_root /\
    Mining.witness_commitment_value wtxids = Ok commitment /\
    commitment = hash_twice (witness_root ++ Mining.witness_reserved_value) /\
    Mining.coinbase_tx_final total_fees commitment = Ok final /\
    first = Props.before_commitment total_fees ++ zeros 32 ++ Props.after_commitment /\
    final = Props.before_commitment total_fees ++ commitment ++ Props.after_commitment /\
    first = Spec.extended_serialization (Spec.coinbase total_fees (zeros 32)) /\
    final = Spec.extended_serialization (Spec.coinbase total_fees commitment).
Proof.
  intros Hfees Hraws.
  destruct (merkle_root_total (zeros 32 :: map hash_twice raws)) as [witness_root Hroot].
  set (commitment := hash_twice (witness_root ++ Mining.witness_reserved_value)).
  assert (Hlen : length commitment = 32%nat) by apply hash_twice_length.
  exists (Props.before_commitment total_fees ++ zeros 32 ++ Props.after_commitment),
    (hex (rev (hash_twice
       (Props.before_commitment total_fees ++ zeros 32 ++ Props.after_commitment))) ::
     map (fun raw => hex (rev (hash_twice raw))) raws),
    witness_root, commitment,
    (Props.before_commitment total_fees ++ commitment ++ Props.after_commitment).
  split; [now apply coinbase_tx_Ok|].
  split; [now apply tx_wtxid_list_Ok|].
  split; [exact Hroot|].
  split.
  { unfold Mining.witness_commitment_value. rewrite witness_hash_list_Ok.
    cbn [mbind result_bind]. rewrite Hroot. reflexivity. }
  split; [reflexivity|].
  split; [now apply coinbase_tx_final_Ok|].
  split; [reflexivity|]. split; [reflexivity|].
  split; symmetry; now apply coinbase_extended.
Qed.

Lemma coinbase_passes_differ_in_commitment_witness :
  exists first wtxids witness_root commitment final,
    Mining.coinbase_tx 24 = Ok first /\
    Mining.tx_wtxid_list first [Example.tx_c; Example.tx_a; Example.tx_b] = Ok wtxids /\
    Mining.merkle_root
      (zeros 32 :: map hash_twice [[x05; x06]; [x01; x02]; [x03; x04]]) = Ok witness_root /\
    Mining.witness_commitment_value wtxids = Ok commitment /\
    commitment = hash_twice (witness_root ++ Mining.witness_reserved_value) /\
    Mining.coinbase_tx_final 24 commitment = Ok final /\
    first = Props.before_commitment 24 ++ zeros 32 ++ Props.after_commitment /\
    final = Props.before_commitment 24 ++ commitment ++ Props.after_commitment /\
    first = Spec.extended_serialization (Spec.coinbase 24 (zeros 32)) /\
    final = Spec.extended_serialization (Spec.coinbase 24 commitment).
Proof.
  apply (coinbase_passes_differ_in_commitment 24
           [Example.tx_c; Example.tx_a; Example.tx_b]
           [[x05; x06]; [x01; x02]; [x03; x04]]).
  - apply u64b_sound. vm_compute. reflexivity.
  - vm_compute. reflexivity.
Defined.

(** ** Week 3: the whole program *)

Section Program.

Import Mining.

Lemma pack_uint_inv (n : nat) (v : Z) (b : bytes) :
  pack_uint n v = Ok b -> 0 <= v < 2 ^ (8 * Z.of_nat n).
Proof.
  unfold pack_uint. destruct (0 <=? v) eqn:E1; [|discriminate].
  destruct (v <? 2 ^ (8 * Z.of_nat n)) eqn:E2; [|discriminate].
  intros _. apply Z.leb_le in E1. apply Z.ltb_lt in E2. lia.
Qed.

Lemma coinbase_tx_inv (total_fees : Z) (first : bytes) :
  coinbase_tx total_fees = Ok first -> Spec.u64 (5000000000 + total_fees).
Proof.
  unfold coinbase_tx.
  rewrite tx_version_eq, script_sig_eq, fromhex_p2pkh, fromhex_tag.
  cbn [mbind result_bind].
  destruct (pack_Q (5000000000 + total_fees)) as [b|e|] eqn:E; try discriminate.
  intros _. apply (pack_uint_inv 8) in E. exact E.
Qed.

Lemma witness_commitment_value_length (wtxids : list string) (commitment : bytes) :
  witness_commitment_value wtxids = Ok commitment -> length commitment = 32%nat.
Proof.
  unfold witness_commitment_value. intros H.
  apply bind_inv_Ok in H as (hl & _ & H). apply bind_inv_Ok in H as (root & _ & H).
  injection H as <-. apply hash_twice_length.
Qed.

(** The stages of a run that reaches the nonce search. *)
Lemma prepare_block_inv (tx_list : list tx) (now : Z) (c : candidate) :
  prepare_block tx_list now = Ok c ->
  (exists total_weight, select_txs tx_list = Ok (c_selected_txs c, total_weight)) /\
  sum_fees (c_selected_txs c) 0 = Ok (c_total_fees c) /\
  coinbase_tx (c_total_fees c) = Ok (c_coinbase_tx c) /\
  tx_wtxid_list (c_coinbase_tx c) (c_selected_txs c) = Ok (c_tx_wtxid_list c) /\
  witness_commitment_value (c_tx_wtxid_list c) = Ok (c_witness_commitment_value c) /\
  coinbase_tx_final (c_total_fees c) (c_witness_commitment_value c) =
    Ok (c_coinbase_tx_final c) /\
  tx_id_list (coinbase_wtxid (c_coinbase_tx_final c)) (c_selected_txs c) =
    Ok (c_tx_id_list c) /\
  (exists items, hash_items (c_tx_id_list c) = Ok items /\
     merkle_root items = Ok (c_merkle_root_hash c)) /\
  block_header (c_merkle_root_hash c) now = Ok (c_block_header c).
Proof.
  unfold prepare_block. intros H.
  apply bind_inv_Ok in H as ([sel tw] & Hsel & H).
  apply bind_inv_Ok in H as (fees & Hfees & H).
  apply bind_inv_Ok in H as (cb & Hcb & H).
  apply bind_inv_Ok in H as (wtxids & Hw & H).
  apply bind_inv_Ok in H as (commitment & Hcommit & H).
  apply bind_inv_Ok in H as (cb_final & Hfinal & H).
  apply bind_inv_Ok in H as (ids & Hids & H).
  apply bind_inv_Ok in H as (items & Hitems & H).
  apply bind_inv_Ok in H as (root & Hroot & H).
  apply bind_inv_Ok in H as (header & Hheader & H).
  injection H as <-. cbn [c_selected_txs c_total_fees c_coinbase_tx c_tx_wtxid_list
    c_witness_commitment_value c_coinbase_tx_final c_tx_id_list c_merkle_root_hash
    c_block_header].
  repeat split; eauto.
Qed.

(** The first transaction id of a run is the witness id of the final
    coinbase transaction, and the first merkle leaf is its hash. *)
Lemma first_id_is_witness_id (tx_list : list tx) (now : Z) (c : candidate) :
  prepare_block tx_list now = Ok c ->
  let cb := Spec.coinbase (c_total_fees c) (c_witness_commitment_value c) in
  c_coinbase_tx_final c = Spec.extended_serialization cb /\
  (exists ids, c_tx_id_list c = JStr (Spec.witness_id cb) :: ids) /\
  (exists items,
     hash_items (c_tx_id_list c) = Ok (hash_twice (Spec.extended_serialization cb) :: items)).
Proof.
  intros H.
  destruct (prepare_block_inv _ _ _ H)
    as (_ & _ & Hcb & _ & Hcommit & Hfinal & Hids & (items & Hitems & _) & _).
  apply coinbase_tx_inv in Hcb. apply witness_commitment_value_length in Hcommit.
  rewrite (coinbase_tx_final_Ok _ _ Hcb Hcommit) in Hfinal. apply Ok_inj in Hfinal.
  cbv zeta. unfold Spec.witness_id. rewrite (coinbase_extended _ _ Hcommit), Hfinal.
  unfold tx_id_list in Hids. apply bind_inv_Ok in Hids as (ids & _ & Hids).
  apply Ok_inj in Hids. unfold coinbase_wtxid in Hids.
  split; [reflexivity|]. split; [exists ids; now rewrite <- Hids|].
  rewrite <- Hids in Hitems |- *. cbn [hash_items map_result fromhex_json] in Hitems |- *.
  rewrite fromhex_hex in Hitems |- *. cbn [mbind result_bind] in Hitems |- *.
  rewrite rev_involutive in Hitems |- *.
  destruct (map_result _ ids) as [rest|e|]; cbn [mbind result_bind] in Hitems |- *;
    try discriminate.
  exists rest. reflexivity.
Qed.

End Program.

(** C1, on the code. The id at the head of the transaction id list, and
    the first merkle leaf, come from hashing the final coinbase
    transaction as written, that is in its extended form with marker, flag
    and witness: it is the coinbase's witness id. On the empty pool this
    id differs from the legacy id, the hash of the form without them. *)
Theorem first_id_is_coinbase_witness_id :
  (forall tx_list now c,
     Mining.prepare_block tx_list now = Ok c ->
     let cb := Spec.coinbase (Mining.c_total_fees c) (Mining.c_witness_commitment_value c) in
     Mining.c_coinbase_tx_final c = Spec.extended_serialization cb /\
     (exists ids, Mining.c_tx_id_list c = Mining.JStr (Spec.witness_id cb) :: ids) /\
     (exists items,
        Mining.hash_items (Mining.c_tx_id_list c) =
          Ok (hash_twice (Spec.extended_serialization cb) :: items))) /\
  (exists c,
     Mining.prepare_block [] 1700000000 = Ok c /\
     let cb := Spec.coinbase (Mining.c_total_fees c) (Mining.c_witness_commitment_value c) in
     Mining.c_tx_id_list c = [Mining.JStr (Spec.witness_id cb)] /\
     Spec.witness_id cb =
       "50db8852e0a0faf4f05661a517beb7728e651e8de4c6c06763b575cffa042dd8" /\
     Spec.legacy_id cb =
       "b12bf5f67ebc51a183faed8fe18a8df7b78f4a6883e7da3ed554e6cceb5c886d" /\
     Spec.witness_id cb <> Spec.legacy_id cb).
Proof.
  split; [exact first_id_is_witness_id|].
  eexists. split; [vm_compute; reflexivity|].
  cbv zeta. do 3 (split; [vm_compute; reflexivity|]).
  apply String.eqb_neq. vm_compute. reflexivity.
Qed.

(** ** Week 3: the selection *)

Section Selection.

Import Mining.

(** *** The order on keys *)



(** *** The sort *)

Lemma insert_desc_perm (x : PyFloat.float * tx) (l : list (PyFloat.float * tx)) :
  Permutation (insert_desc x l) (x :: l).
Proof.
  induction l as [|y l IH]; cbn [insert_desc]; [reflexivity|].
  destruct (PyFloat.ltb (fst x) (fst y)); [|reflexivity].
  rewrite IH. apply perm_swap.
Qed.

Lemma sort_desc_perm (l : list (PyFloat.float * tx)) : Permutation (sort_desc l) l.
Proof.
  induction l as [|x l IH]; [reflexivity|].
  unfold sort_desc in *. cbn [foldr]. rewrite insert_desc_perm. now constructor.
Qed.





(** *** The keys *)

Lemma density_Ok (t : tx) (k : PyFloat.float) :
  density t = Ok k <->
  exists fee weight,
    t !! "fee" = Some (JInt fee) /\ t !! "weight" = Some (JInt weight) /\
    PyFloat.truediv fee weight = Ok k.
Proof.
  unfold density, getitem, div_json. split.
  - destruct (t !! "fee") as [[fee|?]|], (t !! "weight") as [[weight|?]|];
      cbn [mbind result_bind]; try discriminate.
    intros H. eauto.
  - intros (fee & weight & -> & -> & H). exact H.
Qed.

Lemma keyed_Ok (txs : list tx) :
  Forall (fun t => is_ok (density t) = true) txs ->
  exists ks, keyed txs = Ok ks /\ map snd ks = txs /\
    Forall (fun kt => density (snd kt) = Ok (fst kt)) ks.
Proof.
  unfold keyed. induction 1 as [|t txs Ht _ (ks & Hks & Hmap & Hall)].
  - exists []. repeat split; constructor.
  - destruct (density t) as [k|e|] eqn:Hk; try discriminate Ht.
    exists ((k, t) :: ks). cbn [map_result]. rewrite Hk, Hks.
    split; [reflexivity|]. split; [cbn [map snd]; now rewrite Hmap|].
    constructor; [exact Hk | exact Hall].
Qed.

(** *** The greedy loop *)

Lemma select_loop_skip (t : tx) (w : Z) (rest selected : list tx) (total : Z) :
  t !! "weight" = Some (JInt w) -> max_block_size - 4000 < total + w ->
  select_loop (t :: rest) selected total = select_loop rest selected total.
Proof.
  intros Hw Hover. cbn [select_loop]. unfold getitem. rewrite Hw.
  cbn [mbind result_bind add_json].
  destruct (total + w <=? max_block_size - 4000) eqn:E; [|reflexivity].
  apply Z.leb_le in E. lia.
Qed.

Lemma select_loop_take (t : tx) (w : Z) (rest selected : list tx) (total : Z) :
  t !! "weight" = Some (JInt w) -> total + w <= max_block_size - 4000 ->
  select_loop (t :: rest) selected total =
    select_loop rest (selected ++ [t]) (total + w).
Proof.
  intros Hw Hfits. cbn [select_loop]. unfold getitem. rewrite Hw.
  cbn [mbind result_bind add_json].
  destruct (total + w <=? max_block_size - 4000) eqn:E; [reflexivity|].
  apply Z.leb_gt in E. lia.
Qed.

Lemma select_loop_greedy (txs : list tx) :
  Forall (fun t => exists w, t !! "weight" = Some (JInt w)) txs ->
  forall acc total,
  exists selected,
    select_loop txs acc total = Ok (acc ++ selected, total + Props.total_weight selected) /\
    Props.greedy Props.weight_budget total txs selected.
Proof.
  induction 1 as [|t txs [w Hw] _ IH]; intros acc total.
  - exists []. cbn [select_loop Props.total_weight fold_right].
    rewrite app_nil_r, Z.add_0_r. split; [reflexivity | constructor].
  - assert (Hwt : Props.weight_of t = w) by (unfold Props.weight_of; now rewrite Hw).
    destruct (Z_le_gt_dec (total + w) (max_block_size - 4000)) as [Hfits | Hover].
    + rewrite (select_loop_take _ _ _ _ _ Hw Hfits).
      destruct (IH (acc ++ [t]) (total + w)) as (selected & Hsel & Hgreedy).
      exists (t :: selected). rewrite Hsel, <- app_assoc.
      cbn [app Props.total_weight fold_right]. rewrite Hwt.
      split; [f_equal; f_equal; unfold Props.total_weight; lia|].
      apply Props.greedy_take; rewrite Hwt; [exact Hfits | exact Hgreedy].
    + rewrite (select_loop_skip _ _ _ _ _ Hw) by lia.
      destruct (IH acc total) as (selected & Hsel & Hgreedy).
      exists selected. split; [exact Hsel|].
      apply Props.greedy_skip; [rewrite Hwt; unfold Props.weight_budget; lia | exact Hgreedy].
Qed.

Lemma greedy_within_budget (budget total : Z) (txs selected : list tx) :
  Props.greedy budget total txs selected -> total <= budget ->
  total + Props.total_weight selected <= budget.
Proof.
  induction 1 as [total | total t rest selected Hfits _ IH | total t rest selected _ _ IH];
    intros Hle.
  - cbn. lia.
  - cbn [Props.total_weight fold_right]. specialize (IH Hfits).
    unfold Props.total_weight in IH. lia.
  - now apply IH.
Qed.

End Selection.

Section Candidates.

Import Mining.




End Candidates.




(** The run on that pool: [tx_c] has the highest density, [tx_a] and
    [tx_b] tie and keep their input order, [no_weight] is left out. *)
Example select_txs_example :
  Mining.select_txs [Example.tx_a; Example.no_weight; Example.tx_b; Example.tx_c] =
    Ok ([Example.tx_c; Example.tx_a; Example.tx_b], 230).
Proof. vm_compute. reflexivity. Qed.


(** ** When a fee density exists *)

Section Density.

Lemma round_half_even_le (n d : Z) : PyFloat.round_half_even n d <= n / d + 1.
Proof.
  unfold PyFloat.round_half_even.
  destruct (2 * (n mod d) <? d); [lia|].
  destruct (d <? 2 * (n mod d)); [lia|].
  destruct (Z.even (n / d)); lia.
Qed.

(** Below [2^1000] the rounded quotient stays in the float range. *)
Lemma nearest_binary64_bound (n d : Z) :
  0 < n < 2 ^ 1000 -> 0 < d ->
  Qle_bool (inject_Z (2 ^ 1024)) (PyFloat.nearest_binary64 n d) = false.
Proof.
  intros [Hn0 Hn] Hd. unfold PyFloat.nearest_binary64.
  set (e0 := Z.log2 n - Z.log2 d).
  set (above := if 0 <=? e0 then d * 2 ^ e0 <=? n else d <=? n * 2 ^ (- e0)).
  set (e := if above then e0 else e0 - 1).
  set (ulp := Z.max (e - 52) (-1074)).
  assert (He0 : e0 <= 999).
  { pose proof (Z.log2_nonneg d). pose proof (proj1 (Z.log2_lt_pow2 n 1000 Hn0) Hn).
    unfold e0. lia. }
  assert (Hulp : -1074 <= ulp <= 947).
  { unfold ulp, e. destruct above; lia. }
  clearbody ulp. clear e above e0 He0.
  destruct (Qle_bool _ _) eqn:E; [|reflexivity]. exfalso.
  apply Qle_bool_iff in E. revert E.
  destruct (0 <=? ulp) eqn:Hsign.
  - apply Z.leb_le in Hsign. unfold Qle, inject_Z. cbn [Qnum Qden].
    rewrite !Z.mul_1_r.
    set (D := d * 2 ^ ulp).
    assert (Hp : 0 < 2 ^ ulp) by (apply Z.pow_pos_nonneg; lia).
    assert (HD : 0 < D) by (unfold D; nia).
    pose proof (round_half_even_le n D) as Hr.
    pose proof (Z.mul_div_le n D HD) as Hq.
    assert (Hq0 : 0 <= n / D) by (apply Z.div_pos; lia).
    assert (Hfloor : n / D * 2 ^ ulp <= n).
    { transitivity (n / D * D); [|lia].
      apply Z.mul_le_mono_nonneg_l; [exact Hq0 | unfold D; nia]. }
    assert (Hpow : 2 ^ ulp <= 2 ^ 947) by (apply Z.pow_le_mono_r; lia).
    assert (H1000 : 2 ^ 1000 + 2 ^ 947 < 2 ^ 1024) by (vm_compute; reflexivity).
    intros E. nia.
  - apply Z.leb_gt in Hsign. unfold Qle, inject_Z. cbn [Qnum Qden].
    assert (Hp : 0 < 2 ^ (- ulp)) by (apply Z.pow_pos_nonneg; lia).
    rewrite Z2Pos.id by exact Hp. rewrite Z.mul_1_r.
    set (P := 2 ^ (- ulp)) in *.
    pose proof (round_half_even_le (n * P) d) as Hr.
    assert (Hq : n * P / d <= n * P).
    { apply Z.div_le_upper_bound; [lia | nia]. }
    assert (H1000 : 2 ^ 1000 + 1 <= 2 ^ 1024) by (vm_compute; discriminate).
    intros E. nia.
Qed.

Lemma truediv_Ok (a b : Z) :
  b <> 0 -> Z.abs a < 2 ^ 1000 -> exists q, PyFloat.truediv a b = Ok q.
Proof.
  intros Hb Ha. unfold PyFloat.truediv.
  rewrite (proj2 (Z.eqb_neq b 0) Hb).
  destruct (a =? 0) eqn:E; [eauto|]. apply Z.eqb_neq in E.
  rewrite nearest_binary64_bound by lia. eauto.
Qed.

(** A record with an integer fee below [2^1000] in absolute value and a
    non-zero integer weight has a fee density. *)
Lemma density_defined (t : Mining.tx) (fee weight : Z) :
  t !! "fee" = Some (Mining.JInt fee) -> t !! "weight" = Some (Mining.JInt weight) ->
  weight <> 0 -> Z.abs fee < 2 ^ 1000 ->
  is_ok (Mining.density t) = true.
Proof.
  intros Hf Hw Hnz Hfee. destruct (truediv_Ok fee weight Hnz Hfee) as [q Hq].
  rewrite (proj2 (density_Ok t q)); [reflexivity|]. eauto.
Qed.

(** The quotients of the sample pool have the values Python computes
    (0.1 is the float 3602879701896397 / 2^55, and 9 / 80 is
    8106479329266893 / 2^56), equal for [10 / 100] and [5 / 50]; the two
    errors; and two fees that differ and round to one float. *)
Example truediv_examples :
  (exists q, PyFloat.truediv 10 100 = Ok q /\
     Qred q = 3602879701896397 # 36028797018963968) /\
  PyFloat.truediv 5 50 = PyFloat.truediv 10 100 /\
  (exists q, PyFloat.truediv 9 80 = Ok q /\
     Qred q = 8106479329266893 # 72057594037927936) /\
  PyFloat.truediv 1 0 = Err ZeroDivisionError /\
  PyFloat.truediv (2 ^ 1024) 1 = Err OverflowError /\
  PyFloat.truediv (2 ^ 53 + 1) 1 = PyFloat.truediv (2 ^ 53) 1.
Proof.
  split; [eexists; split; vm_compute; reflexivity|].
  split; [vm_compute; reflexivity|].
  split; [eexists; split; vm_compute; reflexivity|].
  repeat split; vm_compute; reflexivity.
Qed.

End Density.

(** ** Week 3: incomplete records *)

(** A record without fee or weight is left out of the run. *)
Lemma missing_fee_or_weight_skipped (t : Mining.tx) (tx_list : list Mining.tx) (now : Z) :
  t !! "fee" = None \/ t !! "weight" = None ->
  Mining.valid_txs (t :: tx_list) = Mining.valid_txs tx_list /\
  Mining.mine_block (t :: tx_list) now = Mining.mine_block tx_list now.
Proof.
  intros H.
  assert (Hv : Mining.valid_txs (t :: tx_list) = Mining.valid_txs tx_list).
  { unfold Mining.valid_txs. rewrite filter_cons.
    destruct (decide _) as [Hyes|]; [|reflexivity].
    exfalso. cbn [forallb] in Hyes. unfold Mining.contains in Hyes.
    destruct H as [H | H]; rewrite H in Hyes; [discriminate|].
    destruct (t !! "fee"); discriminate. }
  split; [exact Hv|].
  unfold Mining.mine_block, Mining.prepare_block, Mining.select_txs. now rewrite Hv.
Qed.

(** A pool of one record that has a fee and a weight within the budget,
    and no [hex] field: the record is selected, and reading its [hex]
    raises. *)
Lemma lone_record_without_hex (t : Mining.tx) (fee weight : Z) (now : Z) :
  t !! "fee" = Some (Mining.JInt fee) -> t !! "weight" = Some (Mining.JInt weight) ->
  t !! "hex" = None ->
  weight <> 0 -> weight <= Mining.max_block_size - 4000 ->
  Z.abs fee < 2 ^ 1000 -> Spec.u64 (5000000000 + fee) ->
  Mining.select_txs [t] = Ok ([t], weight) /\
  Mining.prepare_block [t] now = Err (KeyError "hex") /\
  Mining.mine_block [t] now = Err (KeyError "hex").
Proof.
  intros Hfee Hweight Hhex Hnz Hfits Hsmall Hreward.
  destruct (truediv_Ok fee weight Hnz Hsmall) as [q Hq].
  assert (Hsel : Mining.select_txs [t] = Ok ([t], weight)).
  { unfold Mining.select_txs, Mining.valid_txs. rewrite filter_cons.
    destruct (decide _) as [_ | Hno].
    2:{ exfalso. apply Hno. cbn [forallb]. unfold Mining.contains.
        now rewrite Hfee, Hweight. }
    rewrite filter_nil.
    unfold Mining.sort_by_density, Mining.keyed. cbn [map_result].
    rewrite (proj2 (density_Ok t q)) by eauto.
    cbn [mbind result_bind Mining.sort_desc foldr Mining.insert_desc map snd].
    rewrite (select_loop_take t weight) by (try exact Hweight; lia).
    reflexivity. }
  split; [exact Hsel|].
  assert (Hprep : Mining.prepare_block [t] now = Err (KeyError "hex")).
  { unfold Mining.prepare_block. rewrite Hsel. cbn [mbind result_bind Mining.sum_fees].
    unfold Mining.getitem at 1. rewrite Hfee.
    cbn [mbind result_bind Mining.add_json Mining.sum_fees]. rewrite Z.add_0_l.
    rewrite (coinbase_tx_Ok _ Hreward). cbn [mbind result_bind].
    unfold Mining.tx_wtxid_list. cbn [map_result]. unfold Mining.wtxid_of, Mining.getitem.
    rewrite Hhex. reflexivity. }
  split; [exact Hprep|]. unfold Mining.mine_block. now rewrite Hprep.
Qed.

(** C7, on the code. Only a missing [fee] or [weight] makes the program
    skip a record; a record that has both and lacks [hex], or [txid], stops
    the run with a [KeyError] once it has been selected. *)
Theorem record_without_hex_or_txid_is_fatal (now : Z) :
  (forall t fee weight,
     t !! "fee" = Some (Mining.JInt fee) -> t !! "weight" = Some (Mining.JInt weight) ->
     t !! "hex" = None ->
     weight <> 0 -> weight <= Mining.max_block_size - 4000 ->
     Z.abs fee < 2 ^ 1000 -> Spec.u64 (5000000000 + fee) ->
     Mining.mine_block [t] now = Err (KeyError "hex")) /\
  Mining.prepare_block [Example.no_hex] now = Err (KeyError "hex") /\
  Mining.mine_block [Example.no_hex] now = Err (KeyError "hex") /\
  Mining.mine_block [Example.tx_a; Example.no_hex; Example.tx_b] now = Err (KeyError "hex") /\
  Mining.prepare_block [Example.no_txid] now = Err (KeyError "txid") /\
  Mining.mine_block [Example.no_txid] now = Err (KeyError "txid") /\
  (forall t tx_list,
     t !! "fee" = None \/ t !! "weight" = None ->
     Mining.mine_block (t :: tx_list) now = Mining.mine_block tx_list now).
Proof.
  split.
  { intros t fee weight Hf Hw Hh Hnz Hfits Hsmall Hreward.
    now apply (lone_record_without_hex t fee weight now). }
  do 5 (split; [vm_compute; reflexivity|]).
  intros t tx_list H. now apply missing_fee_or_weight_skipped.
Qed.

(** ** Further properties of the code *)

(** [serialize_varint] case by case: 1, 3, 5 or 9 bytes within the
    unsigned 64-bit range, an exception outside. *)
Theorem serialize_varint_cases (v : Z) :
  (v < 0 -> exists msg, Multisig.serialize_varint v = Err (ValueError msg)) /\
  (0 <= v < 0xfd -> Multisig.serialize_varint v = Ok [byte_of_Z v]) /\
  (0xfd <= v <= 0xffff -> Multisig.serialize_varint v = Ok (xfd :: le_bytes 2 v)) /\
  (0xffff < v <= 0xffffffff -> Multisig.serialize_varint v = Ok (xfe :: le_bytes 4 v)) /\
  (0xffffffff < v < 2 ^ 64 -> Multisig.serialize_varint v = Ok (xff :: le_bytes 8 v)) /\
  (2 ^ 64 <= v -> Multisig.serialize_varint v = Err StructError).
Proof.
  split; [|split; [|split; [|split; [|split]]]]; intros H.
  - unfold Multisig.serialize_varint.
    rewrite (proj2 (Z.ltb_lt v 0xfd)) by lia. unfold bytes_of_int.
    rewrite (proj2 (Z.leb_gt 0 v)) by lia. cbn [andb]. eauto.
  - rewrite (serialize_varint_Ok v) by (unfold Spec.u64; lia).
    unfold Spec.varint. now rewrite (proj2 (Z.ltb_lt v 0xfd)) by lia.
  - rewrite (serialize_varint_Ok v) by (unfold Spec.u64; lia).
    unfold Spec.varint. rewrite (proj2 (Z.ltb_ge v 0xfd)) by lia.
    now rewrite (proj2 (Z.leb_le v 0xffff)) by lia.
  - rewrite (serialize_varint_Ok v) by (unfold Spec.u64; lia).
    unfold Spec.varint. rewrite (proj2 (Z.ltb_ge v 0xfd)) by lia.
    rewrite (proj2 (Z.leb_gt v 0xffff)) by lia.
    now rewrite (proj2 (Z.leb_le v 0xffffffff)) by lia.
  - rewrite (serialize_varint_Ok v) by (unfold Spec.u64; lia).
    unfold Spec.varint. rewrite (proj2 (Z.ltb_ge v 0xfd)) by lia.
    rewrite (proj2 (Z.leb_gt v 0xffff)) by lia.
    now rewrite (proj2 (Z.leb_gt v 0xffffffff)) by lia.
  - unfold Multisig.serialize_varint.
    rewrite (proj2 (Z.ltb_ge v 0xfd)) by lia.
    rewrite (proj2 (Z.leb_gt v 0xffff)) by lia.
    rewrite (proj2 (Z.leb_gt v 0xffffffff)) by lia.
    unfold pack_Q, pack_uint. rewrite (proj2 (Z.leb_le 0 v)) by lia.
    rewrite (proj2 (Z.ltb_ge v (2 ^ (8 * Z.of_nat 8)))) by (simpl; lia). reflexivity.
Qed.

(** The witness program is [00 20] and the SHA-256 of the redeem script,
    34 bytes; the scriptSig is the single push of it, 35 bytes. *)
Theorem witness_program_and_scriptSig (redeem_script : bytes) :
  Multisig.create_witness_program redeem_script = [x00; x20] ++ sha256 redeem_script /\
  length (Multisig.create_witness_program redeem_script) = 34%nat /\
  Multisig.create_scriptSig (Multisig.create_witness_program redeem_script) =
    Ok (x22 :: Multisig.create_witness_program redeem_script).
Proof.
  assert (Hlen : length (Multisig.create_witness_program redeem_script) = 34%nat).
  { unfold Multisig.create_witness_program. rewrite length_app, sha256_length. reflexivity. }
  split; [reflexivity|]. split; [exact Hlen|].
  unfold Multisig.create_scriptSig, Multisig.with_length, len. rewrite Hlen. reflexivity.
Qed.

Section Header.

Import Mining.

Lemma pair_hashes_lengths (l hs : list bytes) :
  pair_hashes l = Ok hs -> Forall (fun h => length h = 32%nat) hs.
Proof.
  revert hs. induction l as [| a | a b l IH] using list_pair_ind; intros hs H.
  - apply Ok_inj in H as <-. constructor.
  - discriminate H.
  - cbn [pair_hashes] in H. apply bind_inv_Ok in H as (hs' & Hhs' & H).
    apply Ok_inj in H as <-. constructor; [apply hash_twice_length | now apply IH].
Qed.

Lemma merkle_step_lengths (l next : list bytes) :
  merkle_step l = Ok next -> Forall (fun h => length h = 32%nat) next.
Proof.
  unfold merkle_step. intros H. apply bind_inv_Ok in H as (padded & _ & H).
  now apply pair_hashes_lengths in H.
Qed.

Lemma merkle_loop_lengths (fuel : nat) (l final : list bytes) :
  merkle_loop fuel l = Ok final ->
  Forall (fun h => length h = 32%nat) l -> Forall (fun h => length h = 32%nat) final.
Proof.
  revert l. induction fuel as [|fuel IH]; intros l H Hl.
  - cbn [merkle_loop] in H. destruct (1 <? len l); [discriminate|].
    now apply Ok_inj in H as <-.
  - cbn [merkle_loop] in H. destruct (1 <? len l).
    + apply bind_inv_Ok in H as (next & Hnext & H).
      apply (IH next H). now apply merkle_step_lengths in Hnext.
    + now apply Ok_inj in H as <-.
Qed.

(** The root of a list whose first leaf has 32 bytes has 32 bytes,
    whatever the other leaves. *)
Lemma merkle_root_length (first : bytes) (rest : list bytes) (root : bytes) :
  length first = 32%nat -> merkle_root (first :: rest) = Ok root -> length root = 32%nat.
Proof.
  intros Hfirst H. destruct rest as [|second rest].
  - apply Ok_inj in H as <-. exact Hfirst.
  - rewrite merkle_root_step in H by (cbn [length]; lia).
    apply bind_inv_Ok in H as (next & Hnext & H).
    apply merkle_step_lengths in Hnext.
    unfold merkle_root in H. apply bind_inv_Ok in H as (final & Hfinal & H).
    apply Ok_inj in H as <-. apply merkle_loop_lengths in Hfinal; [|exact Hnext].
    destruct final as [|h final]; [reflexivity|]. now apply Forall_cons_1 in Hfinal as [? _].
Qed.

Lemma block_header_length (merkle_root_hash : bytes) (now : Z) (header : bytes) :
  block_header merkle_root_hash now = Ok header ->
  length header = (length merkle_root_hash + 44)%nat.
Proof.
  unfold block_header. intros H.
  apply bind_inv_Ok in H as (v & Hv & H). apply bind_inv_Ok in H as (ts & Hts & H).
  apply bind_inv_Ok in H as (bits & Hbits & H). apply Ok_inj in H as <-.
  assert (Hpack : forall x b, pack_I x = Ok b -> length b = 4%nat).
  { intros x b Hx. pose proof (pack_uint_inv 4 x b Hx) as Hr.
    unfold pack_I in Hx. rewrite (pack_uint_Ok 4 x Hr) in Hx.
    apply Ok_inj in Hx as <-. apply le_bytes_length. }
  rewrite !length_app, (Hpack _ _ Hv), (Hpack _ _ Hts), (Hpack _ _ Hbits).
  unfold zeros. rewrite repeat_length. lia.
Qed.

End Header.

(** In a run that reaches the nonce search the merkle root has 32 bytes
    and the header 76; a mined header is those 76 bytes followed by the
    winning nonce on 4 bytes, little-endian: 80 bytes. *)
Theorem mined_header_layout (tx_list : list Mining.tx) (now : Z) (c : Mining.candidate) :
  Mining.prepare_block tx_list now = Ok c ->
  length (Mining.c_merkle_root_hash c) = 32%nat /\
  length (Mining.c_block_header c) = 76%nat /\
  (forall target_value mined nonce,
     Mining.mine (Mining.c_block_header c) target_value = Ok (mined, nonce) ->
     mined = Mining.c_block_header c ++ le_bytes 4 nonce /\ length mined = 80%nat).
Proof.
  intros H.
  destruct (first_id_is_witness_id _ _ _ H) as (_ & _ & (rest & Hitems)).
  destruct (prepare_block_inv _ _ _ H)
    as (_ & _ & _ & _ & _ & _ & _ & (items & Hitems' & Hroot) & Hheader).
  rewrite Hitems in Hitems'. apply Ok_inj in Hitems' as <-.
  apply merkle_root_length in Hroot; [|apply hash_twice_length].
  apply block_header_length in Hheader. rewrite Hroot in Hheader.
  split; [exact Hroot|]. split; [exact Hheader|].
  intros target_value mined nonce Hmine.
  destruct (mine_spec (Mining.c_block_header c) target_value)
    as [[Herr _] | (n & _ & Hok & _)]; [congruence|].
  rewrite Hok in Hmine. apply Ok_inj in Hmine.
  assert (mined = Mining.c_block_header c ++ le_bytes 4 n /\ nonce = n) as [-> ->].
  { split; congruence. }
  split; [reflexivity|]. rewrite length_app, Hheader, le_bytes_length. reflexivity.
Qed.

Lemma mined_header_layout_witness :
  exists c,
    Mining.prepare_block [] 1700000000 = Ok c /\
    length (Mining.c_merkle_root_hash c) = 32%nat /\
    length (Mining.c_block_header c) = 76%nat /\
    (forall target_value mined nonce,
       Mining.mine (Mining.c_block_header c) target_value = Ok (mined, nonce) ->
       mined = Mining.c_block_header c ++ le_bytes 4 nonce /\ length mined = 80%nat).
Proof.
  eexists. split; [vm_compute; reflexivity|].
  apply (mined_header_layout [] 1700000000). vm_compute. reflexivity.
Defined.

(** ** Base58Check: encoding, then decoding *)

Section Base58RoundTrip.

Import Base58Props.

Lemma digits_ok : forallb digit_ok (map Z.of_nat (seq 0 58)) = true.
Proof. vm_compute. reflexivity. Qed.

Lemma digit_facts (d : Z) :
  0 <= d < 58 ->
  Base58Encode.char_at d = String (digit_char d) EmptyString /\
  Base58.find_char (digit_char d) Base58.alphabet 0 = Some d /\
  Base58.is_space (digit_char d) = false /\
  (d <> 0 -> digit_char d <> "1"%char).
Proof.
  intros Hd. pose proof digits_ok as H. rewrite forallb_forall in H.
  specialize (H d). assert (Hin : In d (map Z.of_nat (seq 0 58))).
  { apply in_map_iff. exists (Z.to_nat d). split; [lia|]. apply in_seq. lia. }
  apply H in Hin. clear H. unfold digit_ok in Hin. unfold digit_char.
  destruct (Base58Encode.char_at d) as [|c [|]]; try discriminate.
  destruct (Base58.find_char c Base58.alphabet 0) as [d'|]; [|discriminate].
  apply andb_true_iff in Hin as [Hin H1]. apply andb_true_iff in Hin as [Heq Hsp].
  apply Z.eqb_eq in Heq. subst d'. apply negb_true_iff in Hsp.
  split; [reflexivity|]. split; [reflexivity|]. split; [exact Hsp|].
  intros Hne Hc. subst c. apply orb_true_iff in H1 as [H1 | H1].
  - apply Z.eqb_eq in H1. contradiction.
  - discriminate H1.
Qed.

Lemma append_cons (c : ascii) (s1 s2 : string) :
  String.append (String c s1) s2 = String c (String.append s1 s2).
Proof. reflexivity. Qed.

Lemma append_nil (s : string) : String.append EmptyString s = s.
Proof. reflexivity. Qed.

Lemma spaceless_append (s1 s2 : string) :
  spaceless s1 -> spaceless s2 -> spaceless (String.append s1 s2).
Proof.
  induction s1 as [|c s1 IH]; [auto|]. rewrite append_cons. cbn [spaceless].
  intros [Hc H1] H2. split; [exact Hc | now apply IH].
Qed.

Lemma rstrip_spaceless (s : string) : spaceless s -> Base58.rstrip s = s.
Proof.
  induction s as [|c s IH]; [reflexivity|]. cbn [spaceless Base58.rstrip].
  intros [Hc Hs]. rewrite (IH Hs), Hc. destruct s; reflexivity.
Qed.

Lemma decode_append (s1 s2 : string) (a : Z) :
  Base58.b58decode_int_from a (String.append s1 s2) =
  (a' ← Base58.b58decode_int_from a s1; Base58.b58decode_int_from a' s2).
Proof.
  revert a. induction s1 as [|c s1 IH]; intros a; [reflexivity|].
  change (String.append (String c s1) s2) with (String c (String.append s1 s2)).
  cbn [Base58.b58decode_int_from].
  destruct (Base58.find_char c Base58.alphabet 0); [apply IH | reflexivity].
Qed.

Lemma append_assoc (s1 s2 s3 : string) :
  String.append (String.append s1 s2) s3 = String.append s1 (String.append s2 s3).
Proof.
  induction s1 as [|c s1 IH]; [reflexivity|]. rewrite !append_cons. congruence.
Qed.

Lemma length_append (s1 s2 : string) :
  String.length (String.append s1 s2) = (String.length s1 + String.length s2)%nat.
Proof.
  induction s1 as [|c s1 IH]; [reflexivity|]. rewrite append_cons.
  cbn [String.length]. rewrite IH. reflexivity.
Qed.

(** What the digit loop returns on a number below [58 ^ fuel]: the digits
    of the number in front of the string it was given. The digits read
    back as the number, there are as many as the size of the number
    demands, and the first one is its leading base-58 digit. *)
Lemma b58encode_int_loop_spec (fuel : nat) (i : Z) (str : string) :
  0 <= i < 58 ^ Z.of_nat fuel ->
  exists digits,
    Base58Encode.b58encode_int_loop fuel i str = Ok (String.append digits str) /\
    (forall a, Base58.b58decode_int_from a digits =
               Ok (a * 58 ^ Z.of_nat (String.length digits) + i)) /\
    spaceless digits /\
    (i = 0 -> digits = EmptyString) /\
    (0 < i ->
     58 ^ (Z.of_nat (String.length digits) - 1) <= i < 58 ^ Z.of_nat (String.length digits) /\
     exists rest,
       digits = String (digit_char (i / 58 ^ (Z.of_nat (String.length digits) - 1))) rest).
Proof.
  revert i str. induction fuel as [|fuel IH]; intros i str Hi.
  - assert (i = 0) as -> by (change (58 ^ Z.of_nat 0) with 1 in Hi; lia).
    exists EmptyString. cbn. split; [reflexivity|]. split; [intros a; f_equal; lia|].
    split; [exact I|]. split; [reflexivity | lia].
  - cbn [Base58Encode.b58encode_int_loop]. destruct (i =? 0) eqn:E.
    + apply Z.eqb_eq in E. subst i. exists EmptyString.
      rewrite append_nil. cbn [String.length].
      split; [reflexivity|]. split; [intros a; cbn; f_equal; lia|].
      split; [exact I|]. split; [reflexivity | lia].
    + apply Z.eqb_neq in E.
      rewrite Nat2Z.inj_succ, Z.pow_succ_r in Hi by lia.
      assert (Hd : 0 <= i mod 58 < 58) by (apply Z.mod_pos_bound; lia).
      assert (Hq : 0 <= i / 58 < 58 ^ Z.of_nat fuel).
      { split; [apply Z.div_pos; lia | apply Z.div_lt_upper_bound; lia]. }
      destruct (digit_facts _ Hd) as (Hchar & Hfind & Hspace & Hone).
      destruct (IH (i / 58) (String.append (Base58Encode.char_at (i mod 58)) str) Hq)
        as (pre & Hloop & Hdec & Hsp & Hzero & Hpos).
      set (c := digit_char (i mod 58)) in *.
      exists (String.append pre (String c EmptyString)).
      assert (Hlen : String.length (String.append pre (String c EmptyString)) =
                     S (String.length pre)).
      { rewrite length_append. cbn [String.length]. lia. }
      rewrite Hlen, Nat2Z.inj_succ.
      replace (Z.succ (Z.of_nat (String.length pre)) - 1)
        with (Z.of_nat (String.length pre)) by lia.
      split.
      { rewrite Hloop, Hchar, append_assoc. reflexivity. }
      split.
      { intros a. rewrite decode_append, Hdec. cbn [mbind result_bind].
        cbn [Base58.b58decode_int_from]. rewrite Hfind.
        cbn [Base58.b58decode_int_from]. f_equal.
        rewrite Z.pow_succ_r by lia. pose proof (Z.div_mod i 58). lia. }
      split.
      { apply spaceless_append; [exact Hsp|]. cbn [spaceless]. auto. }
      split; [lia|]. intros _.
      destruct (Z.eq_dec (i / 58) 0) as [Hq0 | Hq0].
      * rewrite (Hzero Hq0), append_nil. cbn [String.length].
        change (58 ^ Z.of_nat 0) with 1. rewrite Z.pow_succ_r by lia.
        assert (Hi58 : i = i mod 58) by (pose proof (Z.div_mod i 58); lia).
        split; [lia|]. exists EmptyString. rewrite Z.div_1_r. unfold c.
        now rewrite <- Hi58.
      * destruct Hpos as ((Hlo & Hhi) & rest & Hpre); [lia|].
        set (n := Z.of_nat (String.length pre)) in *.
        assert (Hn : 1 <= n).
        { unfold n. rewrite Hpre. cbn [String.length]. lia. }
        assert (Hpow : 58 ^ n = 58 * 58 ^ (n - 1)).
        { rewrite <- Z.pow_succ_r by lia. f_equal. lia. }
        rewrite Z.pow_succ_r by lia.
        pose proof (Z.div_mod i 58) as Hdm.
        split; [lia|].
        exists (String.append rest (String c EmptyString)).
        rewrite Hpre at 1. rewrite append_cons. f_equal. f_equal.
        rewrite Hpow, <- Z.div_div by (try lia; apply Z.pow_pos_nonneg; lia).
        reflexivity.
Qed.

End Base58RoundTrip.

Section Base58Bytes.

Import Base58Props.

Lemma byte_of_Z_of_byte (x : byte) : byte_of_Z (Z_of_byte x) = x.
Proof. destruct x; reflexivity. Qed.

Lemma byte_of_Z_low (a : Z) (x : byte) : byte_of_Z (a * 256 + Z_of_byte x) = x.
Proof.
  rewrite <- (byte_of_Z_of_byte x) at 2. unfold byte_of_Z.
  rewrite Z.add_comm, Z.mod_add by lia. reflexivity.
Qed.

Lemma be_value_snoc (l : bytes) (x : byte) :
  be_value (l ++ [x]) = be_value l * 256 + Z_of_byte x.
Proof. unfold be_value. rewrite fold_left_app. reflexivity. Qed.

(** Writing a big-endian number back on as many bytes gives the bytes. *)
Lemma le_bytes_be_value (l : bytes) : le_bytes (length l) (be_value l) = rev l.
Proof.
  induction l as [|x l IH] using rev_ind; [reflexivity|].
  rewrite length_app, Nat.add_comm, rev_app_distr, be_value_snoc.
  cbn [length Nat.add le_bytes rev app]. rewrite byte_of_Z_low. f_equal.
  rewrite Z.shiftr_div_pow2 by lia. change (2 ^ 8) with 256.
  pose proof (Z_of_byte_range x).
  replace ((be_value l * 256 + Z_of_byte x) / 256) with (be_value l); [exact IH|].
  apply Z.div_unique with (r := Z_of_byte x); lia.
Qed.

Lemma be_bytes_be_value (l : bytes) : be_bytes (length l) (be_value l) = l.
Proof. unfold be_bytes. rewrite le_bytes_be_value. apply rev_involutive. Qed.

Lemma Z_of_byte_zero (x : byte) : Z_of_byte x = 0 -> x = x00.
Proof.
  intros H. rewrite <- (byte_of_Z_of_byte x), H. reflexivity.
Qed.

(** The shortest big-endian form of the value of bytes that do not start
    with a zero byte is those bytes. *)
Lemma minimal_be_bytes_be_value (l : bytes) :
  hd x01 l <> x00 -> Base58.minimal_be_bytes (be_value l) = l.
Proof.
  destruct l as [|x l]; [reflexivity|]. cbn [hd]. intros Hx.
  unfold Base58.minimal_be_bytes.
  pose proof (be_value_range (x :: l)) as Hr. pose proof (be_value_range l) as Hl.
  pose proof (Z_of_byte_range x) as Hb.
  assert (Hx0 : 1 <= Z_of_byte x).
  { destruct (Z.eq_dec (Z_of_byte x) 0) as [E|]; [|lia]. apply Z_of_byte_zero in E. contradiction. }
  rewrite be_value_cons in *. cbn [length] in Hr. rewrite Nat2Z.inj_succ in Hr.
  set (n := Z.of_nat (length l)) in *.
  assert (Hn : 0 <= n) by (unfold n; lia).
  assert (Hp : 0 < 256 ^ n) by (apply Z.pow_pos_nonneg; lia).
  set (v := Z_of_byte x * 256 ^ n + be_value l) in *.
  assert (Hlo : 256 ^ n <= v) by (unfold v; nia).
  destruct (v <=? 0) eqn:E; [apply Z.leb_le in E; lia|].
  assert (H256 : forall k, 0 <= k -> 256 ^ k = 2 ^ (8 * k)).
  { intros k Hk. rewrite Z.pow_mul_r by lia. reflexivity. }
  assert (Hlog : 8 * n <= Z.log2 v < 8 * (n + 1)).
  { split.
    - apply Z.log2_le_pow2; [lia|]. rewrite <- H256 by lia. exact Hlo.
    - apply Z.log2_lt_pow2; [lia|]. rewrite <- H256 by lia.
      replace (n + 1) with (Z.succ n) by lia. apply Hr. }
  assert (Hcount : (Z.log2 v + 8) / 8 = n + 1).
  { symmetry. apply Z.div_unique with (r := Z.log2 v + 8 - 8 * (n + 1)); lia. }
  rewrite Hcount. unfold n. replace (Z.to_nat (Z.of_nat (length l) + 1)) with (length (x :: l)).
  2:{ cbn [length]. lia. }
  unfold v, n. rewrite <- be_value_cons. apply be_bytes_be_value.
Qed.

Lemma lstrip_zeros_spec (v : bytes) :
  let '(n, rest) := Base58Encode.lstrip_zeros v in
  v = zeros n ++ rest /\ hd x01 rest <> x00.
Proof.
  induction v as [|x v IH]; [split; [reflexivity | discriminate]|].
  destruct x; try (split; [reflexivity | discriminate]).
  cbn [Base58Encode.lstrip_zeros]. destruct (Base58Encode.lstrip_zeros v) as [n rest].
  destruct IH as [-> Hhd]. split; [reflexivity | exact Hhd].
Qed.

Lemma ones_cons (n : nat) : Base58Encode.ones (S n) = String "1" (Base58Encode.ones n).
Proof. reflexivity. Qed.

Lemma lstrip_ones_other (s : string) :
  match s with String c _ => c <> "1"%char | EmptyString => True end ->
  Base58.lstrip_ones s = (O, s).
Proof.
  destruct s as [|c s]; [reflexivity|]. intros Hc.
  destruct c as [[] [] [] [] [] [] [] []]; try reflexivity. contradiction.
Qed.

Lemma lstrip_ones_ones (n : nat) (s : string) :
  match s with String c _ => c <> "1"%char | EmptyString => True end ->
  Base58.lstrip_ones (String.append (Base58Encode.ones n) s) = (n, s).
Proof.
  intros Hs. induction n as [|n IH].
  - rewrite append_nil. now apply lstrip_ones_other.
  - rewrite ones_cons, append_cons. cbn [Base58.lstrip_ones]. now rewrite IH.
Qed.

Lemma spaceless_ones (n : nat) : spaceless (Base58Encode.ones n).
Proof.
  induction n as [|n IH]; [exact I|]. rewrite ones_cons. split; [reflexivity | exact IH].
Qed.

(** The digit loop never runs out of turns in [b58encode]. *)
Lemma b58encode_fuel (rest : bytes) :
  0 <= be_value rest < 58 ^ Z.of_nat (2 * length rest).
Proof.
  pose proof (be_value_range rest) as [H0 H1]. split; [exact H0|].
  eapply Z.lt_le_trans; [exact H1|].
  rewrite Nat2Z.inj_mul, Z.pow_mul_r by lia. change (58 ^ Z.of_nat 2) with 3364.
  apply Z.pow_le_mono_l. lia.
Qed.

(** [b58decode(b58encode(v)) == v], and [b58encode] always returns. *)
Lemma b58decode_b58encode (v : bytes) :
  exists s, Base58Encode.b58encode v = Ok s /\ Base58.b58decode s = Ok v.
Proof.
  unfold Base58Encode.b58encode. pose proof (lstrip_zeros_spec v) as Hz.
  destruct (Base58Encode.lstrip_zeros v) as [nzeros rest]. destruct Hz as [-> Hhd].
  destruct (b58encode_int_loop_spec _ _ EmptyString (b58encode_fuel rest))
    as (digits & Hloop & Hdec & Hsp & Hzero & Hpos).
  rewrite Hloop. cbn [mbind result_bind].
  assert (Hnil : forall s, String.append s EmptyString = s).
  { induction s as [|c s IH]; [reflexivity|]. rewrite append_cons. now rewrite IH. }
  rewrite Hnil. eexists. split; [reflexivity|].
  unfold Base58.b58decode.
  rewrite rstrip_spaceless by (apply spaceless_append; [apply spaceless_ones | exact Hsp]).
  rewrite lstrip_ones_ones.
  2:{ destruct (Z.eq_dec (be_value rest) 0) as [E | E].
      - now rewrite (Hzero E).
      - pose proof (be_value_range rest) as Hr.
        destruct Hpos as ((Hlo & Hhi) & tail & Hd); [lia|]. rewrite Hd.
        set (k := Z.of_nat (String.length digits) - 1) in *.
        assert (Hk : 0 < 58 ^ k).
        { apply Z.pow_pos_nonneg; [lia|]. unfold k. rewrite Hd. cbn [String.length]. lia. }
        assert (Hpow : 58 ^ Z.of_nat (String.length digits) = 58 * 58 ^ k).
        { unfold k. rewrite <- Z.pow_succ_r.
          - f_equal. lia.
          - rewrite Hd. cbn [String.length]. lia. }
        apply digit_facts.
        + split; [apply Z.div_pos; lia|]. apply Z.div_lt_upper_bound; lia.
        + intros E0. apply Z.div_small_iff in E0; lia. }
  unfold Base58.b58decode_int. rewrite Hdec. cbn [mbind result_bind].
  rewrite Z.mul_0_l, Z.add_0_l, (minimal_be_bytes_be_value _ Hhd). reflexivity.
Qed.

(** [b58decode_check(b58encode_check(v)) == v]. *)
Lemma b58decode_check_b58encode_check (v : bytes) :
  exists s, Base58Encode.b58encode_check v = Ok s /\ Base58.b58decode_check s = Ok v.
Proof.
  unfold Base58Encode.b58encode_check.
  destruct (b58decode_b58encode (v ++ firstn 4 (hash_twice v))) as (s & Henc & Hdec).
  exists s. split; [exact Henc|].
  apply b58decode_check_Ok_iff. exists (firstn 4 (hash_twice v)).
  split; [exact Hdec|]. split; [|reflexivity].
  rewrite length_firstn, hash_twice_length. reflexivity.
Qed.

End Base58Bytes.

(** ** Week 2: the P2SH address *)

Section P2SHAddress.

Import Base58Props.

Lemma ripemd160_length (m : bytes) : length (ripemd160 m) = 20%nat.
Proof.
  unfold ripemd160, RIPEMD160.ripemd160. cbv zeta.
  rewrite !length_app, !le_bytes_length. reflexivity.
Qed.

Lemma hash160_length (data : bytes) : length (P2SH.hash160 data) = 20%nat.
Proof. apply ripemd160_length. Qed.

(** Test vectors of RIPEMD-160, and the address the program prints for
    its own redeem script. *)
Example ripemd160_test_vectors :
  Ok (ripemd160 []) = fromhex "9c1185a5c5e9fc54612808977ee8f548b2258d31" /\
  Ok (ripemd160 [x61; x62; x63]) = fromhex "8eb208f7e05d987a9b044a8e98c6b087f15a0bfc" /\
  P2SH.derive_p2sh_address Example.witness_program =
    Ok "325UUecEQuyrTd28Xs2hvAxdAjHM7XzqVF".
Proof. repeat split; vm_compute; reflexivity. Qed.

(** A version byte that is not zero, then 24 bytes, encode to 34 digits
    when the version is 5, the first of them ["3"]. *)
Lemma b58encode_version_5 (rest : bytes) :
  length rest = 24%nat ->
  exists tail,
    Base58Encode.b58encode (x05 :: rest) = Ok (String "3" tail) /\
    String.length tail = 33%nat.
Proof.
  intros Hlen. unfold Base58Encode.b58encode.
  change (Base58Encode.lstrip_zeros (x05 :: rest)) with (O, x05 :: rest).
  cbv iota beta.
  destruct (b58encode_int_loop_spec _ _ EmptyString (b58encode_fuel (x05 :: rest)))
    as (digits & Hloop & _ & _ & _ & Hpos).
  rewrite Hloop. cbn [mbind result_bind].
  change (Base58Encode.ones 0) with EmptyString. rewrite append_nil.
  pose proof (be_value_range rest) as Hr. rewrite Hlen in Hr.
  rewrite be_value_cons, Hlen in Hpos.
  change (Z_of_byte x05) with 5 in Hpos. change (Z.of_nat 24) with 24 in Hpos, Hr.
  set (i := 5 * 256 ^ 24 + be_value rest) in *.
  assert (H1 : 2 * 58 ^ 33 <= 5 * 256 ^ 24) by (vm_compute; discriminate).
  assert (H2 : 6 * 256 ^ 24 <= 3 * 58 ^ 33) by (vm_compute; discriminate).
  assert (H3 : 58 ^ 34 = 58 * 58 ^ 33) by reflexivity.
  assert (H4 : 0 < 58 ^ 33) by reflexivity.
  assert (H5 : 0 < 256 ^ 24) by reflexivity.
  destruct Hpos as ((Hlo & Hhi) & tail & Hd); [unfold i; lia|].
  set (L := Z.of_nat (String.length digits)) in *.
  assert (HL : L = 34).
  { destruct (Z_lt_le_dec L 34) as [Hs | Hs].
    - assert (58 ^ L <= 58 ^ 33) by (apply Z.pow_le_mono_r; unfold L; lia).
      unfold i in Hhi. lia.
    - destruct (Z.eq_dec L 34) as [E | E]; [exact E|].
      assert (58 ^ 34 <= 58 ^ (L - 1)) by (apply Z.pow_le_mono_r; lia).
      unfold i in Hlo. lia. }
  rewrite HL in Hd. change (34 - 1) with 33 in Hd.
  assert (Hq : i / 58 ^ 33 = 2).
  { symmetry. apply Z.div_unique with (r := i - 2 * 58 ^ 33); unfold i; lia. }
  rewrite Hq in Hd. change (digit_char 2) with "3"%char in Hd.
  assert (Hnil : forall s, String.append s EmptyString = s).
  { induction s as [|c s IH]; [reflexivity|]. rewrite append_cons. now rewrite IH. }
  rewrite Hnil. exists tail. split; [now rewrite Hd|].
  unfold L in HL. rewrite Hd in HL. cbn [String.length] in HL. lia.
Qed.

End P2SHAddress.

(** [derive_p2sh_address] returns for every witness program, and the
    address decodes back: [create_scriptPubKey] on it gives [a9 14], the
    hash160 of the witness program, [87], a script of 23 bytes. *)
Theorem derived_address_gives_p2sh_script (witness_program : bytes) :
  exists addr,
    P2SH.derive_p2sh_address witness_program = Ok addr /\
    Base58.b58decode_check addr = Ok ([x05] ++ P2SH.hash160 witness_program) /\
    Multisig.create_scriptPubKey addr =
      Ok ([xa9; x14] ++ P2SH.hash160 witness_program ++ [x87]) /\
    length ([xa9; x14] ++ P2SH.hash160 witness_program ++ [x87]) = 23%nat.
Proof.
  unfold P2SH.derive_p2sh_address.
  destruct (b58decode_check_b58encode_check ([x05] ++ P2SH.hash160 witness_program))
    as (addr & Henc & Hdec).
  exists addr. split; [exact Henc|]. split; [exact Hdec|]. split.
  - unfold Multisig.create_scriptPubKey. rewrite Hdec. reflexivity.
  - cbn [app length]. rewrite length_app, hash160_length. reflexivity.
Qed.

(** Every address [derive_p2sh_address] returns has 34 characters and
    starts with ["3"]. *)
Theorem derived_address_shape (witness_program : bytes) :
  exists tail,
    P2SH.derive_p2sh_address witness_program = Ok (String "3" tail) /\
    String.length tail = 33%nat.
Proof.
  unfold P2SH.derive_p2sh_address, Base58Encode.b58encode_check.
  rewrite <- app_assoc. cbn [app]. apply b58encode_version_5.
  rewrite length_app, hash160_length, length_firstn, hash_twice_length. reflexivity.
Qed.

(** [create_scriptPubKey] checks the checksum only: whatever the version
    byte and the length of the payload of a Base58Check string, the result
    is [a9 14], the payload without its first byte, [87]. *)
Theorem create_scriptPubKey_any_payload (payload : bytes) :
  exists addr,
    Base58Encode.b58encode_check payload = Ok addr /\
    Multisig.create_scriptPubKey addr = Ok ([xa9; x14] ++ skipn 1 payload ++ [x87]).
Proof.
  destruct (b58decode_check_b58encode_check payload) as (addr & Henc & Hdec).
  exists addr. split; [exact Henc|].
  unfold Multisig.create_scriptPubKey. rewrite Hdec. reflexivity.
Qed.

(** ** Week 2: the serialization can be read back in one way only *)

Section Unambiguous.

Import Multisig.

Lemma Z_of_byte_of_Z (v : Z) : Z_of_byte (byte_of_Z v) = v mod 256.
Proof.
  unfold Z_of_byte, byte_of_Z.
  pose proof (Z.mod_pos_bound v 256 eq_refl) as Hm.
  destruct (Byte.of_N (Z.to_N (v mod 256))) as [b|] eqn:E.
  - apply Byte.to_of_N in E. rewrite E. apply Z2N.id. lia.
  - apply Byte.of_N_None_iff in E. lia.
Qed.

(** The bytes [le_bytes] writes spell the value modulo [256^n]. *)
Lemma le_bytes_value (n : nat) (v : Z) :
  be_value (rev (le_bytes n v)) = v mod 256 ^ Z.of_nat n.
Proof.
  revert v. induction n as [|n IH]; intros v.
  - cbn. now rewrite Z.mod_1_r.
  - cbn [le_bytes rev]. rewrite be_value_snoc, IH, Z_of_byte_of_Z.
    rewrite Z.shiftr_div_pow2 by lia. change (2 ^ 8) with 256.
    rewrite Nat2Z.inj_succ, Z.pow_succ_r by lia.
    rewrite Z.rem_mul_r by (try apply Z.pow_pos_nonneg; lia). lia.
Qed.

Lemma le_bytes_inj (n : nat) (a b : Z) :
  0 <= a < 2 ^ (8 * Z.of_nat n) -> 0 <= b < 2 ^ (8 * Z.of_nat n) ->
  le_bytes n a = le_bytes n b -> a = b.
Proof.
  rewrite Z.pow_mul_r by lia. change (2 ^ 8) with 256. intros Ha Hb H.
  apply (f_equal (fun l => be_value (rev l))) in H. rewrite !le_bytes_value in H.
  now rewrite !Z.mod_small in H.
Qed.

(** What the functions return when they return. *)
Lemma pack_uint_Ok_inv (n : nat) (v : Z) (x : bytes) :
  pack_uint n v = Ok x -> 0 <= v < 2 ^ (8 * Z.of_nat n) /\ x = le_bytes n v.
Proof.
  intros H. pose proof (pack_uint_inv n v x H) as Hr.
  rewrite (pack_uint_Ok n v Hr) in H. apply Ok_inj in H. now split.
Qed.

Lemma serialize_varint_inv (v : Z) (x : bytes) :
  serialize_varint v = Ok x -> Spec.u64 v /\ x = Spec.varint v.
Proof.
  intros H.
  assert (Hr : Spec.u64 v).
  { unfold Spec.u64. unfold serialize_varint in H.
    destruct (v <? 0xfd) eqn:E1.
    - apply Z.ltb_lt in E1. unfold bytes_of_int in H.
      destruct (0 <=? v) eqn:E0; [apply Z.leb_le in E0; lia | discriminate H].
    - apply Z.ltb_ge in E1.
      destruct (v <=? 0xffff) eqn:E2; [apply Z.leb_le in E2; lia|].
      destruct (v <=? 0xffffffff) eqn:E3; [apply Z.leb_le in E3; lia|].
      apply bind_inv_Ok in H as (b & Hb & _).
      apply (pack_uint_inv 8) in Hb. exact Hb. }
  rewrite (serialize_varint_Ok v Hr) in H. apply Ok_inj in H. now split.
Qed.

Lemma with_length_inv (b x : bytes) :
  with_length b = Ok x -> Spec.u64 (len b) /\ x = Spec.prefixed b.
Proof.
  unfold with_length. intros H. apply bind_inv_Ok in H as (n & Hn & H).
  apply serialize_varint_inv in Hn as [Hr ->]. apply Ok_inj in H. now split.
Qed.

Lemma serialize_output_inv (o : txout) (x : bytes) :
  serialize_output o = Ok x -> Spec.wf_txout o /\ x = Spec.output_bytes o.
Proof.
  unfold serialize_output. intros H.
  apply bind_inv_Ok in H as (v & Hv & H). apply bind_inv_Ok in H as (s & Hs & H).
  apply (pack_uint_Ok_inv 8) in Hv as [Hv ->]. apply with_length_inv in Hs as [Hs ->].
  apply Ok_inj in H. split; [|now symmetry]. split; [exact Hv | exact Hs].
Qed.

Lemma serialize_input_inv (i : txin) (x : bytes) :
  serialize_input i = Ok x -> Spec.wf_txin i /\ x = Spec.input_bytes i.
Proof.
  unfold serialize_input. intros H.
  apply bind_inv_Ok in H as (idx & Hidx & H). apply bind_inv_Ok in H as (s & Hs & H).
  apply bind_inv_Ok in H as (sq & Hsq & H).
  apply (pack_uint_Ok_inv 4) in Hidx as [Hidx ->]. apply with_length_inv in Hs as [Hs ->].
  apply (pack_uint_Ok_inv 4) in Hsq as [Hsq ->].
  apply Ok_inj in H. split; [|now symmetry].
  split; [exact Hidx | split; [exact Hsq | exact Hs]].
Qed.

(** The first byte of a VarInt tells its width, and the bytes that follow
    tell the value. *)
Lemma varint_shape (v : Z) :
  Spec.u64 v ->
  exists t w,
    Spec.varint v = byte_of_Z t :: le_bytes w v /\
    ((t = v /\ w = 0%nat /\ 0 <= v < 253) \/
     (t = 253 /\ w = 2%nat /\ 253 <= v < 2 ^ (8 * Z.of_nat 2)) \/
     (t = 254 /\ w = 4%nat /\ 2 ^ (8 * Z.of_nat 2) <= v < 2 ^ (8 * Z.of_nat 4)) \/
     (t = 255 /\ w = 8%nat /\ 2 ^ (8 * Z.of_nat 4) <= v < 2 ^ (8 * Z.of_nat 8))).
Proof.
  unfold Spec.u64, Spec.varint. intros [H0 H1].
  change (2 ^ (8 * Z.of_nat 2)) with 65536.
  change (2 ^ (8 * Z.of_nat 4)) with 4294967296.
  change (2 ^ (8 * Z.of_nat 8)) with (2 ^ 64).
  destruct (v <? 0xfd) eqn:E1.
  { apply Z.ltb_lt in E1. exists v, 0%nat. split; [reflexivity|]. left. lia. }
  apply Z.ltb_ge in E1. destruct (v <=? 0xffff) eqn:E2.
  { apply Z.leb_le in E2. exists 253, 2%nat. split; [reflexivity|]. right. left. lia. }
  apply Z.leb_gt in E2. destruct (v <=? 0xffffffff) eqn:E3.
  { apply Z.leb_le in E3. exists 254, 4%nat. split; [reflexivity|]. right. right. left. lia. }
  apply Z.leb_gt in E3. exists 255, 8%nat. split; [reflexivity|]. right. right. right. lia.
Qed.

Lemma varint_prefix_free (a b : Z) (r r' : bytes) :
  Spec.u64 a -> Spec.u64 b ->
  Spec.varint a ++ r = Spec.varint b ++ r' -> a = b /\ r = r'.
Proof.
  intros Ha Hb H.
  destruct (varint_shape a Ha) as (ta & wa & Ea & Ca).
  destruct (varint_shape b Hb) as (tb & wb & Eb & Cb).
  rewrite Ea, Eb in H. cbn [app] in H.
  assert (Hhead : byte_of_Z ta = byte_of_Z tb) by congruence.
  assert (Htail : le_bytes wa a ++ r = le_bytes wb b ++ r') by congruence.
  clear H Ea Eb.
  apply (f_equal Z_of_byte) in Hhead. rewrite !Z_of_byte_of_Z in Hhead.
  assert (Hta : 0 <= ta < 256) by lia. assert (Htb : 0 <= tb < 256) by lia.
  rewrite !Z.mod_small in Hhead by assumption.
  assert (Hw : wa = wb) by lia. subst wb.
  apply app_inj_1 in Htail as [Hle ->]; [|now rewrite !le_bytes_length].
  split; [|reflexivity].
  destruct Ca as [C | [C | [C | C]]], Cb as [C' | [C' | [C' | C']]]; try lia;
    destruct C as (_ & -> & C), C' as (_ & _ & C');
    apply (le_bytes_inj _ a b) in Hle; (exact Hle || lia).
Qed.

Lemma prefixed_prefix_free (s s' r r' : bytes) :
  Spec.u64 (len s) -> Spec.u64 (len s') ->
  Spec.prefixed s ++ r = Spec.prefixed s' ++ r' -> s = s' /\ r = r'.
Proof.
  unfold Spec.prefixed. intros Hs Hs' H. rewrite <- !app_assoc in H.
  apply varint_prefix_free in H as [Hlen H]; [|assumption..].
  apply app_inj_1 in H; [exact H|]. unfold len in Hlen. lia.
Qed.

Lemma output_prefix_free (o o' : txout) (x y r r' : bytes) :
  serialize_output o = Ok x -> serialize_output o' = Ok y ->
  x ++ r = y ++ r' -> o = o' /\ r = r'.
Proof.
  intros Ho Ho' H.
  apply serialize_output_inv in Ho as [[Hv Hs] ->].
  apply serialize_output_inv in Ho' as [[Hv' Hs'] ->].
  unfold Spec.output_bytes in H. rewrite <- !app_assoc in H.
  apply app_inj_1 in H as [Hval H]; [|now rewrite !le_bytes_length].
  apply (le_bytes_inj 8) in Hval; [|assumption..].
  apply prefixed_prefix_free in H as [Hscript ->]; [|assumption..].
  split; [|reflexivity]. destruct o, o'. cbn in Hval, Hscript. now subst.
Qed.

Lemma input_prefix_free (i i' : txin) (x y r r' : bytes) :
  length (prev_txid i) = 32%nat -> length (prev_txid i') = 32%nat ->
  serialize_input i = Ok x -> serialize_input i' = Ok y ->
  x ++ r = y ++ r' -> i = i' /\ r = r'.
Proof.
  intros Hl Hl' Hi Hi' H.
  apply serialize_input_inv in Hi as [(Hidx & Hsq & Hs) ->].
  apply serialize_input_inv in Hi' as [(Hidx' & Hsq' & Hs') ->].
  unfold Spec.input_bytes in H. rewrite <- !app_assoc in H.
  apply app_inj_1 in H as [Htxid H]; [|congruence].
  apply app_inj_1 in H as [Hindex H]; [|now rewrite !le_bytes_length].
  apply (le_bytes_inj 4) in Hindex; [|assumption..].
  apply prefixed_prefix_free in H as [Hscript H]; [|assumption..].
  apply app_inj_1 in H as [Hseq ->]; [|now rewrite !le_bytes_length].
  apply (le_bytes_inj 4) in Hseq; [|assumption..].
  split; [|reflexivity]. destruct i, i'. cbn in Htxid, Hindex, Hscript, Hseq. now subst.
Qed.

Lemma item_prefix_free (s s' x y r r' : bytes) :
  with_length s = Ok x -> with_length s' = Ok y ->
  x ++ r = y ++ r' -> s = s' /\ r = r'.
Proof.
  intros Hs Hs' H. apply with_length_inv in Hs as [Hs ->].
  apply with_length_inv in Hs' as [Hs' ->]. now apply prefixed_prefix_free in H.
Qed.

(** Elements written one after the other by an encoder no output of which
    is the start of another: as many elements read back in one way. *)
Lemma concat_prefix_free {A : Type} (enc : A -> result bytes) (P : A -> Prop) :
  (forall a b x y r r', P a -> P b -> enc a = Ok x -> enc b = Ok y ->
     x ++ r = y ++ r' -> a = b /\ r = r') ->
  forall l1 l2 xs ys r r',
    Forall P l1 -> Forall P l2 -> length l1 = length l2 ->
    map_result enc l1 = Ok xs -> map_result enc l2 = Ok ys ->
    concat xs ++ r = concat ys ++ r' -> l1 = l2 /\ r = r'.
Proof.
  intros Hfree l1. induction l1 as [|a l1 IH]; intros [|b l2] xs ys r r' H1 H2 Hlen Hx Hy H;
    try discriminate Hlen.
  - apply Ok_inj in Hx as <-. apply Ok_inj in Hy as <-. now split.
  - cbn [map_result] in Hx, Hy.
    apply bind_inv_Ok in Hx as (x & Hx & Hxs). apply bind_inv_Ok in Hxs as (xs' & Hxs & Hx').
    apply bind_inv_Ok in Hy as (y & Hy & Hys). apply bind_inv_Ok in Hys as (ys' & Hys & Hy').
    apply Ok_inj in Hx' as <-. apply Ok_inj in Hy' as <-.
    cbn [concat] in H. rewrite <- !app_assoc in H.
    apply Forall_cons_1 in H1 as [Pa H1]. apply Forall_cons_1 in H2 as [Pb H2].
    destruct (Hfree _ _ _ _ _ _ Pa Pb Hx Hy H) as [-> H'].
    injection Hlen as Hlen.
    destruct (IH _ _ _ _ _ H1 H2 Hlen Hxs Hys H') as [-> ->]. now split.
Qed.

(** Without a count, when no element is written as nothing. *)
Lemma concat_injective {A : Type} (enc : A -> result bytes) (P : A -> Prop) :
  (forall a b x y r r', P a -> P b -> enc a = Ok x -> enc b = Ok y ->
     x ++ r = y ++ r' -> a = b /\ r = r') ->
  (forall a, enc a <> Ok []) ->
  forall l1 l2 xs ys,
    Forall P l1 -> Forall P l2 ->
    map_result enc l1 = Ok xs -> map_result enc l2 = Ok ys ->
    concat xs = concat ys -> l1 = l2.
Proof.
  intros Hfree Hne l1.
  assert (Hcons : forall a l zs, map_result enc (a :: l) = Ok zs -> concat zs <> []).
  { intros a l zs Hz Hnil. cbn [map_result] in Hz.
    apply bind_inv_Ok in Hz as (z & Hz & Hzs). apply bind_inv_Ok in Hzs as (zs' & _ & Hz').
    apply Ok_inj in Hz' as <-. cbn [concat] in Hnil.
    apply app_eq_nil in Hnil as [-> _]. now apply (Hne a). }
  induction l1 as [|a l1 IH]; intros [|b l2] xs ys H1 H2 Hx Hy H.
  - reflexivity.
  - apply Ok_inj in Hx as <-. cbn [concat] in H. symmetry in H.
    now apply Hcons in Hy.
  - apply Ok_inj in Hy as <-. cbn [concat] in H. now apply Hcons in Hx.
  - cbn [map_result] in Hx, Hy.
    apply bind_inv_Ok in Hx as (x & Hx & Hxs). apply bind_inv_Ok in Hxs as (xs' & Hxs & Hx').
    apply bind_inv_Ok in Hy as (y & Hy & Hys). apply bind_inv_Ok in Hys as (ys' & Hys & Hy').
    apply Ok_inj in Hx' as <-. apply Ok_inj in Hy' as <-.
    cbn [concat] in H.
    apply Forall_cons_1 in H1 as [Pa H1]. apply Forall_cons_1 in H2 as [Pb H2].
    destruct (Hfree _ _ _ _ _ _ Pa Pb Hx Hy H) as [-> H'].
    now rewrite (IH _ _ _ H1 H2 Hxs Hys H').
Qed.

Lemma serialize_output_nonempty (o : txout) : serialize_output o <> Ok [].
Proof.
  intros H. apply serialize_output_inv in H as [_ H]. discriminate H.
Qed.

Lemma serialize_input_nonempty (i : txin) : serialize_input i <> Ok [].
Proof.
  intros H. apply serialize_input_inv in H as [_ H].
  apply (f_equal (@length byte)) in H. unfold Spec.input_bytes in H.
  rewrite !length_app, !le_bytes_length in H. cbn [length] in H. lia.
Qed.

End Unambiguous.

(** No VarInt is the start of another: from bytes that begin with a
    VarInt, the value and the bytes after it are determined. *)
Theorem serialize_varint_prefix_free (a b : Z) (x y r r' : bytes) :
  Multisig.serialize_varint a = Ok x -> Multisig.serialize_varint b = Ok y ->
  x ++ r = y ++ r' -> a = b /\ x = y /\ r = r'.
Proof.
  intros Ha Hb H.
  apply serialize_varint_inv in Ha as [Ha ->]. apply serialize_varint_inv in Hb as [Hb ->].
  apply varint_prefix_free in H as [-> ->]; [|assumption..]. now repeat split.
Qed.

Lemma serialize_varint_prefix_free_witness :
  515 = 3 + 512 /\ [xfd; x03; x02] = xfd :: le_bytes 2 515 /\ [x07; x08] = [x07] ++ [x08].
Proof.
  apply (serialize_varint_prefix_free 515 (3 + 512) [xfd; x03; x02] (xfd :: le_bytes 2 515)
           [x07; x08] ([x07] ++ [x08])); reflexivity.
Defined.

(** Two lists of outputs that [serialize_outputs] writes as the same
    bytes are the same list. *)
Theorem serialize_outputs_injective (l1 l2 : list Multisig.txout) (b : bytes) :
  Multisig.serialize_outputs l1 = Ok b -> Multisig.serialize_outputs l2 = Ok b -> l1 = l2.
Proof.
  unfold Multisig.serialize_outputs. intros H1 H2.
  apply bind_inv_Ok in H1 as (xs & Hxs & H1). apply bind_inv_Ok in H2 as (ys & Hys & H2).
  apply Ok_inj in H1. apply Ok_inj in H2.
  apply (concat_injective Multisig.serialize_output (fun _ => True)) with (xs := xs) (ys := ys).
  - intros o o' x y r r' _ _. apply output_prefix_free.
  - apply serialize_output_nonempty.
  - now apply Forall_forall.
  - now apply Forall_forall.
  - exact Hxs.
  - exact Hys.
  - congruence.
Qed.

Lemma serialize_outputs_injective_witness :
  [Example.the_output; Example.the_output] =
  [Example.the_output] ++ [Multisig.mkTxout (99999 + 1) (Multisig.script_pubkey Example.the_output)].
Proof.
  apply (serialize_outputs_injective _ _
           (Spec.output_bytes Example.the_output ++ Spec.output_bytes Example.the_output));
    vm_compute; reflexivity.
Defined.

(** Two lists of inputs with 32-byte transaction ids that
    [serialize_inputs] writes as the same bytes are the same list. *)
Theorem serialize_inputs_injective (l1 l2 : list Multisig.txin) (b : bytes) :
  Forall (fun i => length (Multisig.prev_txid i) = 32%nat) l1 ->
  Forall (fun i => length (Multisig.prev_txid i) = 32%nat) l2 ->
  Multisig.serialize_inputs l1 = Ok b -> Multisig.serialize_inputs l2 = Ok b -> l1 = l2.
Proof.
  unfold Multisig.serialize_inputs. intros Hl1 Hl2 H1 H2.
  apply bind_inv_Ok in H1 as (xs & Hxs & H1). apply bind_inv_Ok in H2 as (ys & Hys & H2).
  apply Ok_inj in H1. apply Ok_inj in H2.
  apply (concat_injective Multisig.serialize_input
           (fun i => length (Multisig.prev_txid i) = 32%nat)) with (xs := xs) (ys := ys);
    try assumption.
  - intros i i' x y r r'. apply input_prefix_free.
  - apply serialize_input_nonempty.
  - congruence.
Qed.

Lemma serialize_inputs_injective_witness :
  [Example.the_input] =
  [Multisig.mkTxin (zeros 32) 0 (Multisig.script_sig Example.the_input) (2 ^ 32 - 1)].
Proof.
  apply (serialize_inputs_injective _ _ (Spec.input_bytes Example.the_input)).
  - repeat constructor.
  - repeat constructor.
  - vm_compute. reflexivity.
  - vm_compute. reflexivity.
Defined.

(** The length of the transaction id is not checked, and it matters: an
    id of no byte before a one-byte script, and an id of one byte before
    index [0x01000000] and an empty script, are written as the same ten
    bytes. *)
Example serialize_inputs_reads_two_ways :
  Multisig.serialize_inputs [Multisig.mkTxin [] 0 [x00] 0] =
  Multisig.serialize_inputs [Multisig.mkTxin [x00] 0x01000000 [] 0] /\
  Multisig.serialize_inputs [Multisig.mkTxin [] 0 [x00] 0] =
    Ok [x00; x00; x00; x00; x01; x00; x00; x00; x00; x00].
Proof. split; reflexivity. Qed.

Section WholeTransaction.

Import Multisig.

(** The parts [assemble_transaction] writes when it returns. *)
Lemma assemble_transaction_inv (tx_version : Z) (tx_inputs : list txin)
    (tx_outputs : list txout) (witness : list bytes) (locktime : Z) (b : bytes) :
  assemble_transaction tx_version tx_inputs tx_outputs witness locktime = Ok b ->
  exists ins outs items,
    Spec.u32 tx_version /\ Spec.u64 (len tx_inputs) /\
    map_result serialize_input tx_inputs = Ok ins /\
    Spec.u64 (len tx_outputs) /\ map_result serialize_output tx_outputs = Ok outs /\
    Spec.u64 (len witness) /\ map_result with_length witness = Ok items /\
    Spec.u32 locktime /\
    b = le_bytes 4 tx_version ++ [x00; x01] ++ Spec.varint (len tx_inputs) ++
        concat ins ++ Spec.varint (len tx_outputs) ++ concat outs ++
        Spec.varint (len witness) ++ concat items ++ le_bytes 4 locktime.
Proof.
  unfold assemble_transaction, serialize_inputs, serialize_outputs. intros H.
  apply bind_inv_Ok in H as (ver & Hver & H). apply bind_inv_Ok in H as (nin & Hnin & H).
  apply bind_inv_Ok in H as (ins' & Hins & H).
  apply bind_inv_Ok in Hins as (ins & Hins & Hins'). apply Ok_inj in Hins' as <-.
  apply bind_inv_Ok in H as (nout & Hnout & H).
  apply bind_inv_Ok in H as (outs' & Houts & H).
  apply bind_inv_Ok in Houts as (outs & Houts & Houts'). apply Ok_inj in Houts' as <-.
  apply bind_inv_Ok in H as (nwit & Hnwit & H).
  apply bind_inv_Ok in H as (items & Hitems & H).
  apply bind_inv_Ok in H as (lt & Hlt & H). apply Ok_inj in H as <-.
  apply (pack_uint_Ok_inv 4) in Hver as [Hver ->].
  apply (pack_uint_Ok_inv 4) in Hlt as [Hlt ->].
  apply serialize_varint_inv in Hnin as [Hnin ->].
  apply serialize_varint_inv in Hnout as [Hnout ->].
  apply serialize_varint_inv in Hnwit as [Hnwit ->].
  exists ins, outs, items.
  split; [exact Hver|]. split; [exact Hnin|]. split; [exact Hins|].
  split; [exact Hnout|]. split; [exact Houts|]. split; [exact Hnwit|].
  split; [exact Hitems|]. split; [exact Hlt|]. reflexivity.
Qed.

(** The bytes [assemble_transaction] returns determine what it was given:
    two calls on inputs with 32-byte transaction ids that return the same
    bytes had the same version, inputs, outputs, witness stack and
    locktime. *)
Theorem assemble_transaction_injective
    (v v' : Z) (ins ins' : list txin) (outs outs' : list txout)
    (wit wit' : list bytes) (lt lt' : Z) (b : bytes) :
  Forall (fun i => length (prev_txid i) = 32%nat) ins ->
  Forall (fun i => length (prev_txid i) = 32%nat) ins' ->
  assemble_transaction v ins outs wit lt = Ok b ->
  assemble_transaction v' ins' outs' wit' lt' = Ok b ->
  v = v' /\ ins = ins' /\ outs = outs' /\ wit = wit' /\ lt = lt'.
Proof.
  intros Hl Hl' H H'.
  apply assemble_transaction_inv in H
    as (xi & xo & xw & Hv & Hni & Hxi & Hno & Hxo & Hnw & Hxw & Hlt & ->).
  apply assemble_transaction_inv in H'
    as (yi & yo & yw & Hv' & Hni' & Hyi & Hno' & Hyo & Hnw' & Hyw & Hlt' & H).
  apply app_inj_1 in H as [Hver H]; [|now rewrite !le_bytes_length].
  apply (le_bytes_inj 4) in Hver; [|assumption..].
  cbn [app] in H. assert (H0 :
    Spec.varint (len ins) ++ concat xi ++ Spec.varint (len outs) ++ concat xo ++
      Spec.varint (len wit) ++ concat xw ++ le_bytes 4 lt =
    Spec.varint (len ins') ++ concat yi ++ Spec.varint (len outs') ++ concat yo ++
      Spec.varint (len wit') ++ concat yw ++ le_bytes 4 lt') by congruence.
  clear H. apply varint_prefix_free in H0 as [Hcount H]; [|assumption..].
  apply (concat_prefix_free serialize_input (fun i => length (prev_txid i) = 32%nat))
    with (l1 := ins) (l2 := ins') in H as [Hins H];
    [|intros i i' x y r r'; apply input_prefix_free | assumption | assumption
     | unfold len in Hcount; lia | assumption | assumption].
  apply varint_prefix_free in H as [Hcount_o H]; [|assumption..].
  apply (concat_prefix_free serialize_output (fun _ => True))
    with (l1 := outs) (l2 := outs') in H as [Houts H];
    [|intros o o' x y r r' _ _; apply output_prefix_free | now apply Forall_forall
     | now apply Forall_forall | unfold len in Hcount_o; lia | assumption | assumption].
  apply varint_prefix_free in H as [Hcount_w H]; [|assumption..].
  apply (concat_prefix_free with_length (fun _ => True))
    with (l1 := wit) (l2 := wit') in H as [Hwit H];
    [|intros s s' x y r r' _ _; apply item_prefix_free | now apply Forall_forall
     | now apply Forall_forall | unfold len in Hcount_w; lia | assumption | assumption].
  apply (le_bytes_inj 4) in H; [|assumption..].
  now repeat split.
Qed.

End WholeTransaction.

Lemma assemble_transaction_injective_witness :
  exists b,
    Multisig.assemble_transaction 2 [Example.the_input] [Example.the_output]
      Example.the_witness 0 = Ok b /\
    2 = 1 + 1 /\ [Example.the_input] = [] ++ [Example.the_input] /\
    [Example.the_output] = [] ++ [Example.the_output] /\
    Example.the_witness = [] ++ Example.the_witness /\ 0 = 0 * 1.
Proof.
  eexists. split; [vm_compute; reflexivity|].
  eapply (assemble_transaction_injective 2 (1 + 1) [Example.the_input] ([] ++ [Example.the_input])
            [Example.the_output] ([] ++ [Example.the_output])
            Example.the_witness ([] ++ Example.the_witness) 0 (0 * 1)).
  - repeat constructor.
  - repeat constructor.
  - vm_compute. reflexivity.
  - vm_compute. reflexivity.
Defined.

(** ** Week 3: pools *)

Section Pools.

Import Mining.

Lemma total_weight_perm (l l' : list tx) :
  Permutation l l' -> Props.total_weight l = Props.total_weight l'.
Proof. unfold Props.total_weight. induction 1; cbn [fold_right]; lia. Qed.

Lemma total_fee_perm (l l' : list tx) :
  Permutation l l' -> Pool.total_fee l = Pool.total_fee l'.
Proof. unfold Pool.total_fee. induction 1; cbn [fold_right]; lia. Qed.

Lemma priced_inv (t : tx) :
  Pool.priced t = true ->
  exists f w, t !! "fee" = Some (JInt f) /\ t !! "weight" = Some (JInt w) /\
    Z.abs f < 2 ^ 1000 /\ 0 < w.
Proof.
  unfold Pool.priced.
  destruct (t !! "fee") as [[f|]|]; try discriminate.
  destruct (t !! "weight") as [[w|]|]; try discriminate.
  intros H. apply andb_true_iff in H as [H1 H2].
  apply Z.ltb_lt in H1. apply Z.ltb_lt in H2. exists f, w. auto.
Qed.

Lemma priced_density (t : tx) : Pool.priced t = true -> is_ok (density t) = true.
Proof.
  intros H. apply priced_inv in H as (f & w & Hf & Hw & Hsmall & Hpos).
  apply (density_defined t f w Hf Hw); [lia | exact Hsmall].
Qed.

(** The scanning order of a pool whose records all have a density. *)
Lemma sort_by_density_Ok (txs : list tx) :
  Forall (fun t => is_ok (density t) = true) txs ->
  exists sorted, sort_by_density txs = Ok sorted /\ Permutation sorted txs.
Proof.
  intros H. destruct (keyed_Ok _ H) as (ks & Hks & Hmap & _).
  exists (map snd (sort_desc ks)). unfold sort_by_density. rewrite Hks.
  split; [reflexivity|]. rewrite <- Hmap. apply Permutation_map, sort_desc_perm.
Qed.

(** When all of the candidates fit together, the loop takes them all. *)
Lemma select_loop_all (txs : list tx) :
  Forall (fun t => exists w, t !! "weight" = Some (JInt w) /\ 0 <= w) txs ->
  forall acc total,
    total + Props.total_weight txs <= max_block_size - 4000 ->
    select_loop txs acc total = Ok (acc ++ txs, total + Props.total_weight txs).
Proof.
  induction 1 as [|t txs (w & Hw & Hpos) Hall IH]; intros acc total Hfit.
  - cbn [select_loop Props.total_weight fold_right]. now rewrite app_nil_r, Z.add_0_r.
  - assert (Hwt : Props.weight_of t = w) by (unfold Props.weight_of; now rewrite Hw).
    assert (Hrest : 0 <= Props.total_weight txs).
    { clear -Hall. induction Hall as [|t' txs' (w' & Hw' & Hpos') _ IH'].
      - cbn. lia.
      - cbn [Props.total_weight fold_right]. unfold Props.weight_of at 1. rewrite Hw'.
        unfold Props.total_weight in IH'. lia. }
    cbn [Props.total_weight fold_right] in Hfit |- *. rewrite Hwt in Hfit |- *.
    fold (Props.total_weight txs) in Hfit |- *.
    rewrite (select_loop_take t w) by (try exact Hw; lia).
    rewrite IH by lia. rewrite <- app_assoc. cbn [app]. f_equal. f_equal. lia.
Qed.

(** The first record, in pool order, whose key cannot be computed decides
    the exception. *)
Lemma keyed_first_error (pre post : list tx) (t : tx) (e : error) :
  Forall (fun t => is_ok (density t) = true) pre -> density t = Err e ->
  keyed (pre ++ t :: post) = Err e.
Proof.
  unfold keyed. induction 1 as [|t' pre Ht' _ IH]; intros He.
  - cbn [app map_result]. rewrite He. reflexivity.
  - cbn [app map_result]. destruct (density t') as [k|e'|]; try discriminate Ht'.
    cbn [mbind result_bind]. rewrite (IH He). reflexivity.
Qed.

Lemma valid_txs_app (l1 l2 : list tx) : valid_txs (l1 ++ l2) = valid_txs l1 ++ valid_txs l2.
Proof. unfold valid_txs. apply filter_app. Qed.

Lemma valid_txs_cons_priced (t : tx) (l : list tx) (fee weight : json) :
  t !! "fee" = Some fee -> t !! "weight" = Some weight ->
  valid_txs (t :: l) = t :: valid_txs l.
Proof.
  intros Hf Hw. unfold valid_txs. rewrite filter_cons.
  destruct (decide _) as [_ | Hno]; [reflexivity|].
  exfalso. apply Hno. cbn [forallb]. unfold contains. now rewrite Hf, Hw.
Qed.

End Pools.

(** When the records that carry a fee and a weight have integer fees and
    positive integer weights that fit together in the budget of
    4000000 - 4000, every one of them is selected, in the order of the
    sort. *)
Theorem selection_takes_all_that_fit (tx_list : list Mining.tx) :
  forallb Pool.priced (Mining.valid_txs tx_list) = true ->
  Props.total_weight (Mining.valid_txs tx_list) <= Mining.max_block_size - 4000 ->
  exists selected,
    Mining.select_txs tx_list =
      Ok (selected, Props.total_weight (Mining.valid_txs tx_list)) /\
    Mining.sort_by_density (Mining.valid_txs tx_list) = Ok selected /\
    Permutation selected (Mining.valid_txs tx_list).
Proof.
  intros Hp Hfit.
  assert (Hpriced : Forall (fun t => Pool.priced t = true) (Mining.valid_txs tx_list)).
  { eapply forallb_Forall; [|exact Hp]. auto. }
  destruct (sort_by_density_Ok (Mining.valid_txs tx_list)) as (sorted & Hsort & Hperm).
  { eapply Forall_impl; [exact Hpriced|]. apply priced_density. }
  exists sorted. split; [|split; [exact Hsort | exact Hperm]].
  unfold Mining.select_txs. rewrite Hsort. cbn [mbind result_bind].
  rewrite <- (total_weight_perm _ _ Hperm) in Hfit |- *.
  rewrite select_loop_all; [reflexivity | | lia].
  apply (Permutation_Forall (Permutation_sym Hperm)) in Hpriced.
  eapply Forall_impl; [exact Hpriced|]. intros t Ht. cbv beta in Ht.
  apply priced_inv in Ht as (f & w & _ & Hw & _ & Hpos). exists w. split; [exact Hw | lia].
Qed.

Lemma selection_takes_all_that_fit_witness :
  exists selected,
    Mining.select_txs [Example.tx_a; Example.no_weight; Example.tx_b; Example.tx_c] =
      Ok (selected, Props.total_weight
            (Mining.valid_txs [Example.tx_a; Example.no_weight; Example.tx_b; Example.tx_c])) /\
    Mining.sort_by_density
      (Mining.valid_txs [Example.tx_a; Example.no_weight; Example.tx_b; Example.tx_c]) =
      Ok selected /\
    Permutation selected
      (Mining.valid_txs [Example.tx_a; Example.no_weight; Example.tx_b; Example.tx_c]).
Proof.
  apply (selection_takes_all_that_fit
           [Example.tx_a; Example.no_weight; Example.tx_b; Example.tx_c]).
  - vm_compute. reflexivity.
  - vm_compute. discriminate.
Defined.

(** A record with an integer fee and weight 0 stops the run with
    [ZeroDivisionError] when the sort computes its key, provided the
    records before it in the pool that carry a fee and a weight have a
    density; whatever comes after it. *)
Theorem zero_weight_stops_the_run
    (pre post : list Mining.tx) (t : Mining.tx) (fee now : Z) :
  Forall (fun t' => is_ok (Mining.density t') = true) (Mining.valid_txs pre) ->
  t !! "fee" = Some (Mining.JInt fee) -> t !! "weight" = Some (Mining.JInt 0) ->
  Mining.select_txs (pre ++ t :: post) = Err ZeroDivisionError /\
  Mining.prepare_block (pre ++ t :: post) now = Err ZeroDivisionError /\
  Mining.mine_block (pre ++ t :: post) now = Err ZeroDivisionError.
Proof.
  intros Hpre Hf Hw.
  assert (Hd : Mining.density t = Err ZeroDivisionError).
  { unfold Mining.density, Mining.getitem. rewrite Hf, Hw. reflexivity. }
  assert (Hsel : Mining.select_txs (pre ++ t :: post) = Err ZeroDivisionError).
  { unfold Mining.select_txs, Mining.sort_by_density.
    rewrite valid_txs_app, (valid_txs_cons_priced t post _ _ Hf Hw).
    rewrite (keyed_first_error _ _ _ _ Hpre Hd). reflexivity. }
  split; [exact Hsel|].
  assert (Hprep : Mining.prepare_block (pre ++ t :: post) now = Err ZeroDivisionError).
  { unfold Mining.prepare_block. rewrite Hsel. reflexivity. }
  split; [exact Hprep|]. unfold Mining.mine_block. rewrite Hprep. reflexivity.
Qed.

Lemma zero_weight_stops_the_run_witness :
  Mining.select_txs
    ([Example.tx_a; Example.no_weight] ++
     <["weight" := Mining.JInt 0]> Example.tx_b :: [Example.tx_c]) = Err ZeroDivisionError /\
  Mining.prepare_block
    ([Example.tx_a; Example.no_weight] ++
     <["weight" := Mining.JInt 0]> Example.tx_b :: [Example.tx_c]) 1700000000 =
    Err ZeroDivisionError /\
  Mining.mine_block
    ([Example.tx_a; Example.no_weight] ++
     <["weight" := Mining.JInt 0]> Example.tx_b :: [Example.tx_c]) 1700000000 =
    Err ZeroDivisionError.
Proof.
  apply (zero_weight_stops_the_run [Example.tx_a; Example.no_weight] [Example.tx_c]
           (<["weight" := Mining.JInt 0]> Example.tx_b) 5 1700000000).
  - eapply (forallb_Forall (fun t => is_ok (Mining.density t))); [intros t Ht; exact Ht|].
    vm_compute. reflexivity.
  - vm_compute. reflexivity.
  - vm_compute. reflexivity.
Defined.

Section Runs.

Import Mining.

Lemma pack_I_Err (v : Z) : ~ 0 <= v < 2 ^ 32 -> pack_I v = Err StructError.
Proof.
  intros H. unfold pack_I, pack_uint. change (2 ^ (8 * Z.of_nat 4)) with (2 ^ 32).
  destruct (0 <=? v) eqn:E0; [|reflexivity].
  destruct (v <? 2 ^ 32) eqn:E1; [|reflexivity].
  apply Z.leb_le in E0. apply Z.ltb_lt in E1. exfalso. apply H. lia.
Qed.

Lemma block_header_Ok (merkle_root_hash : bytes) (now : Z) :
  0 <= now < 2 ^ 32 ->
  block_header merkle_root_hash now =
    Ok (le_bytes 4 0x20000000 ++ zeros 32 ++ merkle_root_hash ++ le_bytes 4 now ++
        le_bytes 4 0x1f00ffff).
Proof.
  intros H. unfold block_header.
  rewrite (pack_I_Ok 0x20000000) by (unfold Spec.u32; lia). cbn [mbind result_bind].
  rewrite (pack_I_Ok now) by exact H. cbn [mbind result_bind].
  rewrite (pack_I_Ok 0x1f00ffff) by (unfold Spec.u32; lia). reflexivity.
Qed.

Lemma block_header_Err (merkle_root_hash : bytes) (now : Z) :
  ~ 0 <= now < 2 ^ 32 -> block_header merkle_root_hash now = Err StructError.
Proof.
  intros H. unfold block_header.
  rewrite (pack_I_Ok 0x20000000) by (unfold Spec.u32; lia). cbn [mbind result_bind].
  rewrite (pack_I_Err now H). reflexivity.
Qed.

Lemma merkle_root_one (a : bytes) : merkle_root [a] = Ok a.
Proof. reflexivity. Qed.

(** What remains of a run once the nonce search starts. *)
Lemma mine_block_cases (tx_list : list tx) (now : Z) (c : candidate) :
  prepare_block tx_list now = Ok c ->
  mine_block tx_list now = Err nonce_not_found \/
  exists nonce, 0 <= nonce < 0xFFFFFFFF /\
    mine_block tx_list now =
      Ok (c_block_header c ++ le_bytes 4 nonce, c_coinbase_tx_final c, c_tx_id_list c).
Proof.
  intros H. unfold mine_block. rewrite H, bind_Ok.
  destruct target_threshold as [target_value|e|] eqn:Ht;
    [|vm_compute in Ht; discriminate Ht..].
  rewrite bind_Ok.
  destruct (mine_spec (c_block_header c) target_value) as [[-> _] | (n & Hn & -> & _)].
  - left. reflexivity.
  - right. exists n. split; [exact Hn|]. rewrite bind_Ok. reflexivity.
Qed.

End Runs.

(** The clock must fit 32 bits. A run that reaches the nonce search had a
    time stamp in [0, 2^32); on the same pool with a time stamp outside of
    that range, packing the header raises [struct.error]. *)
Theorem timestamp_must_fit_32_bits (tx_list : list Mining.tx) (now : Z) (c : Mining.candidate) :
  Mining.prepare_block tx_list now = Ok c ->
  0 <= now < 2 ^ 32 /\
  forall later, ~ 0 <= later < 2 ^ 32 ->
    Mining.prepare_block tx_list later = Err StructError /\
    Mining.mine_block tx_list later = Err StructError.
Proof.
  intros H.
  destruct (prepare_block_inv _ _ _ H)
    as ((tw & Hsel) & Hfees & Hcb & Hw & Hcommit & Hfinal & Hids & (items & Hitems & Hroot)
        & Hheader).
  split.
  - destruct (Z_le_dec 0 now) as [H0|H0]; [destruct (Z_lt_dec now (2 ^ 32)) as [H1|H1]|];
      [lia | |]; rewrite block_header_Err in Hheader by lia; discriminate Hheader.
  - intros later Hlater.
    assert (Hprep : Mining.prepare_block tx_list later = Err StructError).
    { unfold Mining.prepare_block. rewrite Hsel. cbn [mbind result_bind].
      rewrite Hfees. cbn [mbind result_bind]. rewrite Hcb. cbn [mbind result_bind].
      rewrite Hw. cbn [mbind result_bind]. rewrite Hcommit. cbn [mbind result_bind].
      rewrite Hfinal. cbn [mbind result_bind]. rewrite Hids. cbn [mbind result_bind].
      rewrite Hitems. cbn [mbind result_bind]. rewrite Hroot. cbn [mbind result_bind].
      rewrite (block_header_Err _ _ Hlater). reflexivity. }
    split; [exact Hprep|]. unfold Mining.mine_block. rewrite Hprep. reflexivity.
Qed.

Lemma timestamp_must_fit_32_bits_witness :
  exists c,
    Mining.prepare_block [Example.tx_a] 1700000000 = Ok c /\
    0 <= 1700000000 < 2 ^ 32 /\
    forall later, ~ 0 <= later < 2 ^ 32 ->
      Mining.prepare_block [Example.tx_a] later = Err StructError /\
      Mining.mine_block [Example.tx_a] later = Err StructError.
Proof.
  eexists. split; [vm_compute; reflexivity|].
  eapply (timestamp_must_fit_32_bits [Example.tx_a] 1700000000). vm_compute. reflexivity.
Defined.

(** A pool in which no record carries both a fee and a weight gives the
    block of the coinbase transaction alone: no fee, the commitment to a
    witness root of 32 zero bytes, one transaction id, and for merkle root
    the double hash of the coinbase transaction as written. *)
Theorem block_without_candidates (tx_list : list Mining.tx) (now : Z) :
  Mining.valid_txs tx_list = [] -> 0 <= now < 2 ^ 32 ->
  let commitment := hash_twice (zeros 32 ++ zeros 32) in
  let cb := Spec.extended_serialization (Spec.coinbase 0 commitment) in
  exists c,
    Mining.prepare_block tx_list now = Ok c /\
    Mining.c_selected_txs c = [] /\
    Mining.c_total_fees c = 0 /\
    Mining.c_witness_commitment_value c = commitment /\
    Mining.c_coinbase_tx_final c = cb /\
    Mining.c_tx_id_list c = [Mining.JStr (hex (rev (hash_twice cb)))] /\
    Mining.c_merkle_root_hash c = hash_twice cb /\
    Mining.c_block_header c =
      le_bytes 4 0x20000000 ++ zeros 32 ++ hash_twice cb ++ le_bytes 4 now ++
      le_bytes 4 0x1f00ffff.
Proof.
  intros Hvalid Hnow commitment cb.
  assert (Hlen : length commitment = 32%nat) by apply hash_twice_length.
  assert (Hcb : Mining.coinbase_tx_final 0 commitment = Ok cb).
  { rewrite coinbase_tx_final_Ok by (try exact Hlen; unfold Spec.u64; lia).
    unfold cb. now rewrite (coinbase_extended 0 commitment Hlen). }
  eexists. split.
  - unfold Mining.prepare_block, Mining.select_txs. rewrite Hvalid.
    unfold Mining.sort_by_density, Mining.keyed.
    cbn [map_result mbind result_bind Mining.sort_desc foldr map Mining.select_loop
         Mining.sum_fees].
    rewrite (coinbase_tx_Ok 0) by (unfold Spec.u64; lia). cbn [mbind result_bind].
    unfold Mining.tx_wtxid_list. cbn [map_result mbind result_bind].
    unfold Mining.witness_commitment_value, Mining.witness_hash_list.
    cbn [map_result mbind result_bind]. rewrite merkle_root_one. cbn [mbind result_bind].
    change Mining.witness_reserved_value with (zeros 32).
    fold commitment. rewrite Hcb. cbn [mbind result_bind].
    unfold Mining.tx_id_list, Mining.coinbase_wtxid. cbn [map_result mbind result_bind].
    unfold Mining.hash_items. cbn [map_result Mining.fromhex_json].
    rewrite fromhex_hex. cbn [mbind result_bind]. rewrite rev_involutive, merkle_root_one.
    cbn [mbind result_bind]. rewrite (block_header_Ok _ _ Hnow). cbn [mbind result_bind].
    reflexivity.
  - cbn [Mining.c_selected_txs Mining.c_total_fees Mining.c_witness_commitment_value
         Mining.c_coinbase_tx_final Mining.c_tx_id_list Mining.c_merkle_root_hash
         Mining.c_block_header].
    split; [reflexivity|]. split; [reflexivity|]. split; [reflexivity|].
    split; [reflexivity|]. split; [reflexivity|]. split; reflexivity.
Qed.

Lemma block_without_candidates_witness :
  exists c,
    Mining.prepare_block [Example.no_weight] 1700000000 = Ok c /\
    Mining.c_selected_txs c = [] /\
    Mining.c_total_fees c = 0 /\
    Mining.c_witness_commitment_value c = hash_twice (zeros 32 ++ zeros 32) /\
    Mining.c_coinbase_tx_final c =
      Spec.extended_serialization (Spec.coinbase 0 (hash_twice (zeros 32 ++ zeros 32))) /\
    Mining.c_tx_id_list c =
      [Mining.JStr (hex (rev (hash_twice
         (Spec.extended_serialization
            (Spec.coinbase 0 (hash_twice (zeros 32 ++ zeros 32)))))))] /\
    Mining.c_merkle_root_hash c =
      hash_twice (Spec.extended_serialization
                    (Spec.coinbase 0 (hash_twice (zeros 32 ++ zeros 32)))) /\
    Mining.c_block_header c =
      le_bytes 4 0x20000000 ++ zeros 32 ++
      hash_twice (Spec.extended_serialization
                    (Spec.coinbase 0 (hash_twice (zeros 32 ++ zeros 32)))) ++
      le_bytes 4 1700000000 ++ le_bytes 4 0x1f00ffff.
Proof.
  apply (block_without_candidates [Example.no_weight] 1700000000).
  - vm_compute. reflexivity.
  - lia.
Defined.

Section CompletePools.

Import Mining.

Lemma complete_inv (t : tx) :
  Pool.complete t = true ->
  exists f w h i raw idb,
    t !! "fee" = Some (JInt f) /\ t !! "weight" = Some (JInt w) /\
    t !! "hex" = Some (JStr h) /\ t !! "txid" = Some (JStr i) /\
    0 <= f /\ 0 < w /\ fromhex h = Ok raw /\ fromhex i = Ok idb.
Proof.
  unfold Pool.complete.
  destruct (t !! "fee") as [[f|?]|]; try discriminate.
  destruct (t !! "weight") as [[w|?]|]; try discriminate.
  destruct (t !! "hex") as [[?|h]|]; try discriminate.
  destruct (t !! "txid") as [[?|i]|]; try discriminate.
  intros H. apply andb_true_iff in H as [H Hi]. apply andb_true_iff in H as [H Hh].
  apply andb_true_iff in H as [Hf Hw]. apply Z.leb_le in Hf. apply Z.ltb_lt in Hw.
  destruct (fromhex h) as [raw|?|] eqn:Eh; try discriminate Hh.
  destruct (fromhex i) as [idb|?|] eqn:Ei; try discriminate Hi.
  exists f, w, h, i, raw, idb. auto 10.
Qed.

Lemma complete_fee (t : tx) : Pool.complete t = true -> 0 <= Pool.fee_of t.
Proof.
  intros H. apply complete_inv in H as (f & w & h & i & raw & idb & Hf & _ & _ & _ & H0 & _).
  unfold Pool.fee_of. now rewrite Hf.
Qed.

Lemma total_fee_nonneg (l : list tx) :
  Forall (fun t => Pool.complete t = true) l -> 0 <= Pool.total_fee l.
Proof.
  unfold Pool.total_fee. induction 1 as [|t l Ht _ IH]; cbn [fold_right]; [lia|].
  apply complete_fee in Ht. lia.
Qed.

(** Complete records whose fees add up to less than [2^64] have a
    density. *)
Lemma complete_density (l : list tx) :
  Forall (fun t => Pool.complete t = true) l -> Pool.total_fee l < 2 ^ 64 ->
  Forall (fun t => is_ok (density t) = true) l.
Proof.
  induction 1 as [|t l Ht Hl IH]; intros Hsum; [constructor|].
  pose proof (total_fee_nonneg l Hl) as Hrest. pose proof (complete_fee t Ht) as Hfee.
  unfold Pool.total_fee in Hsum, Hrest. cbn [fold_right] in Hsum.
  constructor; [|apply IH; unfold Pool.total_fee; lia].
  apply complete_inv in Ht as (f & w & h & i & raw & idb & Hf & Hw & _ & _ & H0 & Hpos & _).
  assert (Hfo : Pool.fee_of t = f) by (unfold Pool.fee_of; now rewrite Hf).
  rewrite Hfo in Hsum, Hfee.
  assert (H64 : 2 ^ 64 < 2 ^ 1000) by (vm_compute; reflexivity).
  apply (density_defined t f w Hf Hw); lia.
Qed.

Lemma greedy_Forall (P : tx -> Prop) (budget total : Z) (txs selected : list tx) :
  Props.greedy budget total txs selected -> Forall P txs -> Forall P selected.
Proof.
  induction 1 as [total | total t rest selected _ _ IH | total t rest selected _ _ IH];
    intros H.
  - constructor.
  - apply Forall_cons_1 in H as [Ht H]. constructor; [exact Ht | now apply IH].
  - apply Forall_cons_1 in H as [_ H]. now apply IH.
Qed.

Lemma greedy_total_fee (budget total : Z) (txs selected : list tx) :
  Props.greedy budget total txs selected ->
  Forall (fun t => Pool.complete t = true) txs ->
  Pool.total_fee selected <= Pool.total_fee txs.
Proof.
  unfold Pool.total_fee.
  induction 1 as [total | total t rest selected _ _ IH | total t rest selected _ _ IH];
    intros H; cbn [fold_right].
  - lia.
  - apply Forall_cons_1 in H as [_ H]. specialize (IH H). lia.
  - apply Forall_cons_1 in H as [Ht H]. specialize (IH H). apply complete_fee in Ht. lia.
Qed.

Lemma sum_fees_Ok (l : list tx) (acc : Z) :
  Forall (fun t => exists f, t !! "fee" = Some (JInt f)) l ->
  sum_fees l acc = Ok (acc + Pool.total_fee l).
Proof.
  intros H. revert acc. unfold Pool.total_fee.
  induction H as [|t l [f Hf] _ IH]; intros acc; cbn [sum_fees fold_right].
  - now rewrite Z.add_0_r.
  - assert (Hfo : Pool.fee_of t = f) by (unfold Pool.fee_of; now rewrite Hf).
    unfold getitem. rewrite Hf, Hfo. cbn [mbind result_bind add_json].
    rewrite IH. f_equal. lia.
Qed.

Lemma map_result_total {A B : Type} (f : A -> result B) (l : list A) :
  Forall (fun x => exists y, f x = Ok y) l -> exists ys, map_result f l = Ok ys.
Proof.
  induction 1 as [|x l [y Hy] _ [ys Hys]].
  - exists []. reflexivity.
  - exists (y :: ys). cbn [map_result]. rewrite Hy, Hys. reflexivity.
Qed.

Lemma complete_pool_prepares (tx_list : list tx) (now : Z) :
  forallb Pool.complete (valid_txs tx_list) = true ->
  5000000000 + Pool.total_fee (valid_txs tx_list) < 2 ^ 64 ->
  0 <= now < 2 ^ 32 ->
  exists c,
    prepare_block tx_list now = Ok c /\
    Forall (fun t => Pool.complete t = true) (c_selected_txs c) /\
    c_total_fees c = Pool.total_fee (c_selected_txs c) /\
    Props.total_weight (c_selected_txs c) <= 4000000 - 4000.
Proof.
  intros Hc Hfees Hnow.
  assert (Hall : Forall (fun t => Pool.complete t = true) (valid_txs tx_list)).
  { eapply forallb_Forall; [|exact Hc]. auto. }
  pose proof (total_fee_nonneg _ Hall) as Hnonneg.
  assert (Hdens : Forall (fun t => is_ok (density t) = true) (valid_txs tx_list)).
  { apply complete_density; [exact Hall | lia]. }
  destruct (sort_by_density_Ok _ Hdens) as (sorted & Hsort & Hperm).
  assert (Hsorted : Forall (fun t => Pool.complete t = true) sorted).
  { now apply (Permutation_Forall (Permutation_sym Hperm)). }
  assert (Hweights : Forall (fun t => exists w, t !! "weight" = Some (JInt w)) sorted).
  { eapply Forall_impl; [exact Hsorted|]. intros t Ht. cbv beta in Ht.
    apply complete_inv in Ht as (f & w & h & i & raw & idb & _ & Hw & _). eauto. }
  destruct (select_loop_greedy _ Hweights [] 0) as (selected & Hsel & Hgreedy).
  cbn [app] in Hsel. rewrite Z.add_0_l in Hsel.
  pose proof (greedy_Forall _ _ _ _ _ Hgreedy Hsorted) as Hselected.
  pose proof (greedy_total_fee _ _ _ _ Hgreedy Hsorted) as Hless.
  rewrite (total_fee_perm _ _ Hperm) in Hless.
  pose proof (total_fee_nonneg _ Hselected) as Hsel0.
  assert (Hsum : sum_fees selected 0 = Ok (Pool.total_fee selected)).
  { rewrite sum_fees_Ok; [now rewrite Z.add_0_l|].
    eapply Forall_impl; [exact Hselected|]. intros t Ht. cbv beta in Ht.
    apply complete_inv in Ht as (f & w & h & i & raw & idb & Hf & _). eauto. }
  assert (Hreward : Spec.u64 (5000000000 + Pool.total_fee selected))
    by (unfold Spec.u64; lia).
  destruct (map_result_total Props.raw_tx selected) as [raws Hraws].
  { eapply Forall_impl; [exact Hselected|]. intros t Ht. cbv beta in Ht.
    apply complete_inv in Ht as (f & w & h & i & raw & idb & _ & _ & Hh & _ & _ & _ & Hraw & _).
    exists raw. unfold Props.raw_tx, getitem. rewrite Hh. exact Hraw. }
  destruct (merkle_root_total (zeros 32 :: map hash_twice raws)) as [witness_root Hwroot].
  set (first := Props.before_commitment (Pool.total_fee selected) ++ zeros 32 ++
                Props.after_commitment).
  set (commitment := hash_twice (witness_root ++ witness_reserved_value)).
  set (final := Props.before_commitment (Pool.total_fee selected) ++ commitment ++
                Props.after_commitment).
  assert (Hcommit : witness_commitment_value
            (hex (rev (hash_twice first)) ::
             map (fun raw => hex (rev (hash_twice raw))) raws) = Ok commitment).
  { unfold witness_commitment_value. rewrite witness_hash_list_Ok.
    cbn [mbind result_bind]. rewrite Hwroot. reflexivity. }
  set (txid_of := fun t : tx => match t !! "txid" with Some v => v | None => JInt 0 end).
  assert (Hids : map_result (fun t => getitem t "txid") selected = Ok (map txid_of selected)).
  { apply map_result_Ok. eapply Forall_impl; [exact Hselected|].
    intros t Ht. cbv beta in Ht.
    apply complete_inv in Ht as (f & w & h & i & raw & idb & _ & _ & _ & Hi & _).
    unfold getitem, txid_of. now rewrite Hi. }
  destruct (map_result_total (fun txid => b ← fromhex_json txid; Ok (rev b))
              (map txid_of selected)) as [leaves Hleaves].
  { apply Forall_map. eapply Forall_impl; [exact Hselected|].
    intros t Ht. cbv beta in Ht.
    apply complete_inv in Ht as (f & w & h & i & raw & idb & _ & _ & _ & Hi & _ & _ & _ & Hidb).
    exists (rev idb). unfold txid_of. rewrite Hi. cbn [fromhex_json]. now rewrite Hidb. }
  destruct (merkle_root_total (hash_twice final :: leaves)) as [root Hroot].
  exists (mkCandidate selected (Pool.total_fee selected) first
            (hex (rev (hash_twice first)) :: map (fun raw => hex (rev (hash_twice raw))) raws)
            commitment final (JStr (coinbase_wtxid final) :: map txid_of selected) root
            (le_bytes 4 0x20000000 ++ zeros 32 ++ root ++ le_bytes 4 now ++
             le_bytes 4 0x1f00ffff)).
  cbn [c_selected_txs c_total_fees].
  split; [|split; [exact Hselected | split; [reflexivity|]]].
  - unfold prepare_block, select_txs. rewrite Hsort, bind_Ok, Hsel, bind_Ok.
    cbv beta iota. rewrite Hsum, bind_Ok, (coinbase_tx_Ok _ Hreward), bind_Ok.
    fold first. rewrite (tx_wtxid_list_Ok first selected raws Hraws), bind_Ok.
    rewrite Hcommit, bind_Ok.
    assert (Hclen : length commitment = 32%nat) by apply hash_twice_length.
    rewrite (coinbase_tx_final_Ok _ _ Hreward Hclen), bind_Ok. fold final.
    unfold tx_id_list. rewrite Hids, !bind_Ok.
    unfold hash_items. cbn [map_result fromhex_json].
    change (fromhex (coinbase_wtxid final)) with (fromhex (hex (rev (hash_twice final)))).
    rewrite fromhex_hex, !bind_Ok, rev_involutive, Hleaves, !bind_Ok, Hroot, bind_Ok.
    rewrite (block_header_Ok _ _ Hnow). reflexivity.
  - apply (greedy_within_budget _ 0 _ _ Hgreedy).
    unfold Props.weight_budget, max_block_size. lia.
Qed.

End CompletePools.

(** A pool of complete records always reaches the nonce search. When
    every record that carries a fee and a weight has a non-negative integer
    fee, a positive integer weight and [hex] and [txid] strings that
    [bytes.fromhex] reads, the subsidy and the fees fit 64 bits, and the
    time stamp fits 32 bits, then no step before the search raises: the
    fees of the block are those of the selected records, their weight is
    within 4000000 - 4000, and the run either writes the mined header, the
    final coinbase transaction and the ids, or ends with "Valid nonce not
    found". *)
Theorem complete_pool_reaches_the_search (tx_list : list Mining.tx) (now : Z) :
  forallb Pool.complete (Mining.valid_txs tx_list) = true ->
  5000000000 + Pool.total_fee (Mining.valid_txs tx_list) < 2 ^ 64 ->
  0 <= now < 2 ^ 32 ->
  exists c,
    Mining.prepare_block tx_list now = Ok c /\
    Mining.c_total_fees c = Pool.total_fee (Mining.c_selected_txs c) /\
    Props.total_weight (Mining.c_selected_txs c) <= 4000000 - 4000 /\
    (Mining.mine_block tx_list now = Err Mining.nonce_not_found \/
     exists nonce, 0 <= nonce < 0xFFFFFFFF /\
       Mining.mine_block tx_list now =
         Ok (Mining.c_block_header c ++ le_bytes 4 nonce, Mining.c_coinbase_tx_final c,
             Mining.c_tx_id_list c)).
Proof.
  intros Hc Hfees Hnow.
  destruct (complete_pool_prepares tx_list now Hc Hfees Hnow) as (c & Hprep & _ & Hf & Hw).
  exists c. split; [exact Hprep|]. split; [exact Hf|]. split; [exact Hw|].
  now apply mine_block_cases.
Qed.

Lemma complete_pool_reaches_the_search_witness :
  exists c,
    Mining.prepare_block [Example.tx_a; Example.no_weight; Example.tx_b; Example.tx_c]
      1700000000 = Ok c /\
    Mining.c_total_fees c = Pool.total_fee (Mining.c_selected_txs c) /\
    Props.total_weight (Mining.c_selected_txs c) <= 4000000 - 4000 /\
    (Mining.mine_block [Example.tx_a; Example.no_weight; Example.tx_b; Example.tx_c]
       1700000000 = Err Mining.nonce_not_found \/
     exists nonce, 0 <= nonce < 0xFFFFFFFF /\
       Mining.mine_block [Example.tx_a; Example.no_weight; Example.tx_b; Example.tx_c]
         1700000000 =
         Ok (Mining.c_block_header c ++ le_bytes 4 nonce, Mining.c_coinbase_tx_final c,
             Mining.c_tx_id_list c)).
Proof.
  apply (complete_pool_reaches_the_search
           [Example.tx_a; Example.no_weight; Example.tx_b; Example.tx_c] 1700000000).
  - vm_compute. reflexivity.
  - vm_compute. reflexivity.
  - lia.
Defined.

(** ** Week 2: what the digest reads *)

Section Sighash.

Import Multisig.

Lemma map_result_agree {A B : Type} (f : A -> result B) (l l' : list A) :
  Forall2 (fun a a' => f a = f a') l l' -> map_result f l = map_result f l'.
Proof.
  induction 1 as [|a a' l l' Ha _ IH]; [reflexivity|].
  cbn [map_result]. now rewrite Ha, IH.
Qed.

Lemma bind_ext {A B : Type} (r : result A) (k k' : A -> result B) :
  (forall a, k a = k' a) -> (r ≫= k) = (r ≫= k').
Proof. intros H. destruct r as [a|e|]; [apply H | reflexivity..]. Qed.

End Sighash.

(** Without an input there is nothing to sign: on fields in range and an
    empty list of inputs, [calculate_sighash] raises [IndexError]. *)
Theorem calculate_sighash_needs_an_input
    (tx_version : Z) (tx_outputs : list Multisig.txout) (redeem_script : bytes)
    (locktime : Z) :
  Spec.u32 tx_version -> Forall Spec.wf_txout tx_outputs -> Spec.u64 (len redeem_script) ->
  Multisig.calculate_sighash tx_version [] tx_outputs redeem_script locktime =
    Err IndexError.
Proof.
  intros Hv Houts Hrs. unfold Multisig.calculate_sighash, Multisig.sighash_preimage.
  cbn [map_result]. rewrite !bind_Ok, (with_length_Ok _ Hrs), bind_Ok.
  rewrite (map_result_Ok Multisig.serialize_output Spec.output_bytes).
  2:{ eapply Forall_impl; [exact Houts|]. apply serialize_output_Ok. }
  rewrite bind_Ok, (pack_I_Ok _ Hv), bind_Ok. reflexivity.
Qed.

Lemma calculate_sighash_needs_an_input_witness :
  Multisig.calculate_sighash 2 [] [Example.the_output] Example.redeem_script 0 =
    Err IndexError.
Proof.
  apply (calculate_sighash_needs_an_input 2 [Example.the_output] Example.redeem_script 0).
  - apply u32b_sound. vm_compute. reflexivity.
  - eapply forallb_Forall; [apply wf_txoutb_sound | vm_compute; reflexivity].
  - apply u64b_sound. vm_compute. reflexivity.
Defined.

(** The digest does not read the [script_sig] of the inputs: two lists of
    inputs with the same transaction ids, indexes and sequence numbers,
    one by one, give the same result. *)
Theorem calculate_sighash_ignores_script_sig
    (tx_version : Z) (tx_inputs tx_inputs' : list Multisig.txin)
    (tx_outputs : list Multisig.txout) (redeem_script : bytes) (locktime : Z) :
  Forall2 (fun i i' => Multisig.prev_txid i = Multisig.prev_txid i' /\
                       Multisig.prev_index i = Multisig.prev_index i' /\
                       Multisig.sequence i = Multisig.sequence i') tx_inputs tx_inputs' ->
  Multisig.calculate_sighash tx_version tx_inputs tx_outputs redeem_script locktime =
  Multisig.calculate_sighash tx_version tx_inputs' tx_outputs redeem_script locktime.
Proof.
  intros H. unfold Multisig.calculate_sighash, Multisig.sighash_preimage.
  rewrite (map_result_agree Multisig.outpoint tx_inputs tx_inputs').
  2:{ eapply Forall2_impl; [exact H|]. intros i i' (Ht & Hi & _).
      unfold Multisig.outpoint. now rewrite Ht, Hi. }
  rewrite (map_result_agree (fun i => pack_I (Multisig.sequence i)) tx_inputs tx_inputs').
  2:{ eapply Forall2_impl; [exact H|]. intros i i' (_ & _ & Hs). cbv beta. now rewrite Hs. }
  destruct H as [|i i' l l' (Ht & Hi & Hs) _]; [reflexivity|].
  cbn [index0]. destruct i, i'.
  cbn [Multisig.prev_txid Multisig.prev_index Multisig.sequence] in Ht, Hi, Hs. subst.
  repeat first [rewrite !bind_Ok | apply bind_ext; intros ?]. reflexivity.
Qed.

Lemma calculate_sighash_ignores_script_sig_witness :
  Multisig.calculate_sighash 2 [Example.the_input] [Example.the_output]
    Example.redeem_script 0 =
  Multisig.calculate_sighash 2 [Multisig.mkTxin (zeros 32) 0 [] 0xffffffff]
    [Example.the_output] Example.redeem_script 0.
Proof.
  apply (calculate_sighash_ignores_script_sig 2 [Example.the_input]
           [Multisig.mkTxin (zeros 32) 0 [] 0xffffffff]).
  repeat constructor.
Defined.

(** ** Base58Check: decoding, then encoding *)

Section Base58Canonical.

Import Base58Props.

Lemma find_char_inv (c : ascii) (d : Z) :
  Base58.find_char c Base58.alphabet 0 = Some d -> 0 <= d < 58 /\ c = digit_char d.
Proof.
  unfold Base58.alphabet. cbn [Base58.find_char].
  repeat match goal with
         | |- context [Ascii.eqb c ?k] =>
             destruct (Ascii.eqb_spec c k) as [-> | _];
             [intros H; injection H as <-; split; [lia | reflexivity]|]
         end.
  discriminate.
Qed.

Lemma decode_bounds (s : string) (a r : Z) :
  Base58.b58decode_int_from a s = Ok r ->
  exists v, r = a * 58 ^ Z.of_nat (String.length s) + v /\
            0 <= v < 58 ^ Z.of_nat (String.length s).
Proof.
  revert a. induction s as [|c s IH]; intros a H.
  - apply Ok_inj in H as <-. exists 0. cbn [String.length].
    change (58 ^ Z.of_nat 0) with 1. lia.
  - cbn [Base58.b58decode_int_from] in H.
    destruct (Base58.find_char c Base58.alphabet 0) as [d|] eqn:Hd; [|discriminate H].
    apply find_char_inv in Hd as [Hd _]. apply IH in H as (v & -> & Hv).
    exists (d * 58 ^ Z.of_nat (String.length s) + v). cbn [String.length].
    rewrite Nat2Z.inj_succ, Z.pow_succ_r by lia. split; [ring | nia].
Qed.

(** Digits of one length that spell one number are the same digits. *)
Lemma decode_inj (s s' : string) (a a' r : Z) :
  String.length s = String.length s' -> 0 <= a -> 0 <= a' ->
  Base58.b58decode_int_from a s = Ok r -> Base58.b58decode_int_from a' s' = Ok r ->
  a = a' /\ s = s'.
Proof.
  revert s' a a'. induction s as [|c s IH]; intros [|c' s'] a a' Hlen Ha Ha' H H';
    try discriminate Hlen.
  - apply Ok_inj in H. apply Ok_inj in H'. split; [congruence | reflexivity].
  - cbn [Base58.b58decode_int_from] in H, H'.
    destruct (Base58.find_char c Base58.alphabet 0) as [d|] eqn:Hd; [|discriminate H].
    destruct (Base58.find_char c' Base58.alphabet 0) as [d'|] eqn:Hd'; [|discriminate H'].
    apply find_char_inv in Hd as [Hd ->]. apply find_char_inv in Hd' as [Hd' ->].
    injection Hlen as Hlen.
    destruct (IH s' (a * 58 + d) (a' * 58 + d') Hlen ltac:(lia) ltac:(lia) H H') as [E ->].
    assert (a = a') by lia. assert (d = d') by lia. subst. now split.
Qed.

Lemma decode_canonical_lower (c : ascii) (s : string) (r : Z) :
  c <> "1"%char -> Base58.b58decode_int_from 0 (String c s) = Ok r ->
  58 ^ Z.of_nat (String.length s) <= r.
Proof.
  intros Hc H. cbn [Base58.b58decode_int_from] in H.
  destruct (Base58.find_char c Base58.alphabet 0) as [d|] eqn:Hd; [|discriminate H].
  apply find_char_inv in Hd as [Hd ->].
  assert (d <> 0) by (intros ->; now apply Hc).
  apply decode_bounds in H as (v & -> & Hv). nia.
Qed.

(** A number has one string of digits that does not start with the zero
    digit. *)
Lemma canonical_unique (s s' : string) (a : Z) :
  canonical s -> canonical s' ->
  Base58.b58decode_int_from 0 s = Ok a -> Base58.b58decode_int_from 0 s' = Ok a -> s = s'.
Proof.
  intros Hs Hs' H H'.
  assert (Hlen : String.length s = String.length s').
  { destruct (decode_bounds _ _ _ H) as (v & Hv & Hvr).
    destruct (decode_bounds _ _ _ H') as (v' & Hv' & Hvr').
    destruct s as [|c s], s' as [|c' s']; cbn [canonical] in Hs, Hs'.
    - reflexivity.
    - pose proof (decode_canonical_lower _ _ _ Hs' H') as Hlow.
      cbn [String.length] in Hv, Hvr.
      change (58 ^ Z.of_nat 0) with 1 in Hv, Hvr.
      assert (0 < 58 ^ Z.of_nat (String.length s')) by (apply Z.pow_pos_nonneg; lia). lia.
    - pose proof (decode_canonical_lower _ _ _ Hs H) as Hlow.
      cbn [String.length] in Hv', Hvr'.
      change (58 ^ Z.of_nat 0) with 1 in Hv', Hvr'.
      assert (0 < 58 ^ Z.of_nat (String.length s)) by (apply Z.pow_pos_nonneg; lia). lia.
    - pose proof (decode_canonical_lower _ _ _ Hs H) as Hlow.
      pose proof (decode_canonical_lower _ _ _ Hs' H') as Hlow'.
      cbn [String.length] in *. f_equal.
      rewrite Nat2Z.inj_succ in Hv, Hvr, Hv', Hvr'.
      destruct (Nat.lt_trichotomy (String.length s) (String.length s')) as [Hlt | [E | Hlt]];
        [exfalso | exact E | exfalso].
      + assert (58 ^ Z.succ (Z.of_nat (String.length s)) <= 58 ^ Z.of_nat (String.length s'))
          by (apply Z.pow_le_mono_r; lia). lia.
      + assert (58 ^ Z.succ (Z.of_nat (String.length s')) <= 58 ^ Z.of_nat (String.length s))
          by (apply Z.pow_le_mono_r; lia). lia. }
  now destruct (decode_inj s s' 0 0 a Hlen ltac:(lia) ltac:(lia) H H').
Qed.

Lemma lstrip_ones_spec (s : string) :
  let '(n, rest) := Base58.lstrip_ones s in
  s = String.append (Base58Encode.ones n) rest /\ canonical rest.
Proof.
  induction s as [|c s IH]; [split; [reflexivity | exact I]|].
  destruct (Ascii.eqb_spec c "1") as [-> | Hne].
  - cbn [Base58.lstrip_ones]. destruct (Base58.lstrip_ones s) as [n rest].
    destruct IH as [IH Hc]. split; [|exact Hc].
    rewrite ones_cons, append_cons. now rewrite <- IH.
  - rewrite lstrip_ones_other by exact Hne. split; [reflexivity | exact Hne].
Qed.

(** The shortest big-endian form of a number spells the number and does
    not start with a zero byte. *)
Lemma minimal_be_bytes_spec (acc : Z) :
  0 <= acc ->
  be_value (Base58.minimal_be_bytes acc) = acc /\
  hd x01 (Base58.minimal_be_bytes acc) <> x00.
Proof.
  intros H0. unfold Base58.minimal_be_bytes.
  destruct (acc <=? 0) eqn:E.
  { apply Z.leb_le in E. assert (acc = 0) as -> by lia. split; [reflexivity | discriminate]. }
  apply Z.leb_gt in E.
  pose proof (Z.log2_spec acc E) as [Hlo Hhi]. pose proof (Z.log2_nonneg acc) as HL.
  set (L := Z.log2 acc) in *. set (q := (L + 8) / 8).
  assert (Hq : 8 * q <= L + 8 < 8 * q + 8).
  { unfold q. pose proof (Z.div_mod (L + 8) 8 ltac:(lia)).
    pose proof (Z.mod_pos_bound (L + 8) 8 ltac:(lia)). lia. }
  assert (Hn : Z.of_nat (Z.to_nat q) = q) by (apply Z2Nat.id; lia).
  assert (H256 : forall k, 0 <= k -> 256 ^ k = 2 ^ (8 * k)).
  { intros k Hk. rewrite Z.pow_mul_r by lia. reflexivity. }
  assert (Hup : acc < 256 ^ q).
  { rewrite H256 by lia. eapply Z.lt_le_trans; [exact Hhi|].
    apply Z.pow_le_mono_r; lia. }
  assert (Hval : be_value (be_bytes (Z.to_nat q) acc) = acc).
  { unfold be_bytes. rewrite le_bytes_value, Hn. apply Z.mod_small. lia. }
  split; [exact Hval|].
  destruct (be_bytes (Z.to_nat q) acc) as [|x l] eqn:Eb; [discriminate|].
  cbn [hd]. intros ->.
  pose proof (be_bytes_length (Z.to_nat q) acc) as Hlen. rewrite Eb in Hlen.
  cbn [length] in Hlen.
  rewrite be_value_cons in Hval. change (Z_of_byte x00) with 0 in Hval.
  pose proof (be_value_range l) as Hl.
  assert (Hk : Z.of_nat (length l) = q - 1) by lia. rewrite Hk in Hl.
  assert (256 ^ (q - 1) <= acc).
  { rewrite H256 by lia. eapply Z.le_trans; [|exact Hlo]. apply Z.pow_le_mono_r; lia. }
  lia.
Qed.

Lemma lstrip_zeros_app (n : nat) (m : bytes) :
  hd x01 m <> x00 -> Base58Encode.lstrip_zeros (zeros n ++ m) = (n, m).
Proof.
  intros Hm. induction n as [|n IH].
  - cbn [zeros repeat app]. destruct m as [|x m]; [reflexivity|].
    destruct x; try reflexivity. now cbn [hd] in Hm.
  - change (zeros (S n) ++ m) with (x00 :: (zeros n ++ m)).
    cbn [Base58Encode.lstrip_zeros]. now rewrite IH.
Qed.

Lemma append_empty (s : string) : String.append s EmptyString = s.
Proof. induction s as [|c s IH]; [reflexivity|]. rewrite append_cons. now rewrite IH. Qed.

(** [b58encode(b58decode(v)) == v.rstrip()]: what decodes is the
    encoding of what it decodes to. *)
Lemma b58encode_b58decode (v : string) (raw : bytes) :
  Base58.b58decode v = Ok raw -> Base58Encode.b58encode raw = Ok (Base58.rstrip v).
Proof.
  unfold Base58.b58decode. pose proof (lstrip_ones_spec (Base58.rstrip v)) as Hs.
  destruct (Base58.lstrip_ones (Base58.rstrip v)) as [nz rest]. destruct Hs as [Hv Hcan].
  intros H. apply bind_inv_Ok in H as (acc & Hacc & H). apply Ok_inj in H as <-.
  unfold Base58.b58decode_int in Hacc.
  destruct (decode_bounds _ _ _ Hacc) as (v0 & Hr & Hv0).
  destruct (minimal_be_bytes_spec acc) as [Hval Hhd]; [lia|].
  unfold Base58Encode.b58encode. rewrite (lstrip_zeros_app _ _ Hhd), Hval.
  pose proof (b58encode_fuel (Base58.minimal_be_bytes acc)) as Hfuel. rewrite Hval in Hfuel.
  destruct (b58encode_int_loop_spec _ _ EmptyString Hfuel)
    as (digits & Hloop & Hdec & _ & Hzero & Hpos).
  rewrite Hloop, bind_Ok, append_empty, Hv. do 2 f_equal.
  apply (canonical_unique digits rest acc); [| exact Hcan | | exact Hacc].
  - destruct (Z.eq_dec acc 0) as [E | E]; [now rewrite (Hzero E)|].
    destruct Hpos as ((Hlo & Hhi) & tail & Hd); [lia|]. rewrite Hd. cbn [canonical].
    set (k := Z.of_nat (String.length digits) - 1) in *.
    assert (Hk0 : 0 <= k) by (unfold k; rewrite Hd; cbn [String.length]; lia).
    assert (Hk : 0 < 58 ^ k) by (apply Z.pow_pos_nonneg; lia).
    assert (Hpow : 58 ^ Z.of_nat (String.length digits) = 58 * 58 ^ k).
    { replace (Z.of_nat (String.length digits)) with (Z.succ k) by (unfold k; lia).
      now rewrite Z.pow_succ_r. }
    apply digit_facts.
    + split; [apply Z.div_pos; lia|]. apply Z.div_lt_upper_bound; lia.
    + intros E0. apply Z.div_small_iff in E0; lia.
  - rewrite Hdec. f_equal; lia.
Qed.

Lemma rstrip_app_blank (s ws : string) :
  blank ws -> Base58.rstrip (String.append s ws) = Base58.rstrip s.
Proof.
  intros Hws. induction s as [|c s IH].
  - rewrite append_nil. induction ws as [|c ws IH]; [reflexivity|].
    destruct Hws as [Hc Hws]. cbn [Base58.rstrip]. rewrite (IH Hws), Hc. reflexivity.
  - rewrite append_cons. cbn [Base58.rstrip]. now rewrite IH.
Qed.

Lemma rstrip_split (s : string) :
  exists ws, s = String.append (Base58.rstrip s) ws /\ blank ws.
Proof.
  induction s as [|c s (ws & Hs & Hws)]; [exists EmptyString; split; [reflexivity | exact I]|].
  cbn [Base58.rstrip]. destruct (Base58.rstrip s) as [|c' r] eqn:Er.
  - rewrite append_nil in Hs. subst ws. destruct (Base58.is_space c) eqn:Hc.
    + exists (String c s). split; [reflexivity | split; assumption].
    + exists s. split; [reflexivity | exact Hws].
  - exists ws. split; [|exact Hws]. rewrite append_cons. now rewrite <- Hs.
Qed.

Lemma b58decode_check_trailing (s ws : string) :
  blank ws -> Base58.b58decode_check (String.append s ws) = Base58.b58decode_check s.
Proof.
  intros Hws. unfold Base58.b58decode_check, Base58.b58decode.
  now rewrite (rstrip_app_blank s ws Hws).
Qed.

(** What [create_scriptPubKey] accepts: the Base58Check encodings,
    followed or not by whitespace. *)
Lemma b58decode_check_accepts (addr : string) (decoded : bytes) :
  Base58.b58decode_check addr = Ok decoded <->
  exists encoded trailing,
    Base58Encode.b58encode_check decoded = Ok encoded /\
    addr = String.append encoded trailing /\ blank trailing.
Proof.
  split.
  - intros H. apply b58decode_check_Ok_iff in H as (check & Hraw & _ & Hck).
    apply b58encode_b58decode in Hraw. subst check.
    destruct (rstrip_split addr) as (ws & Haddr & Hws).
    exists (Base58.rstrip addr), ws. split; [exact Hraw|]. split; [exact Haddr | exact Hws].
  - intros (encoded & ws & Henc & -> & Hws). rewrite (b58decode_check_trailing _ _ Hws).
    destruct (b58decode_check_b58encode_check decoded) as (s & Hs & Hdec).
    rewrite Henc in Hs. apply Ok_inj in Hs as <-. exact Hdec.
Qed.

End Base58Canonical.

(** C9, as the code has it. [create_scriptPubKey] accepts exactly the
    Base58Check encodings, followed or not by whitespace: on the encoding
    of a payload it returns [a9 14], the payload without its first byte,
    [87] (23 bytes when the payload is a version byte and a 20-byte
    hash160, a length the function does not check), and on any other
    string it fails with the library's [ValueError]. *)
Theorem create_scriptPubKey_spec (addr : string) :
  (forall payload, Base58Encode.b58encode_check payload = Ok addr ->
     Multisig.create_scriptPubKey addr = Ok ([xa9; x14] ++ skipn 1 payload ++ [x87])) /\
  (forall version hash160,
     Base58Encode.b58encode_check (version :: hash160) = Ok addr ->
     length hash160 = 20%nat ->
     Multisig.create_scriptPubKey addr = Ok ([xa9; x14] ++ hash160 ++ [x87]) /\
     length ([xa9; x14] ++ hash160 ++ [x87]) = 23%nat) /\
  (forall script,
     Multisig.create_scriptPubKey addr = Ok script <->
     exists payload encoded trailing,
       Base58Encode.b58encode_check payload = Ok encoded /\
       addr = String.append encoded trailing /\ Base58Props.blank trailing /\
       script = [xa9; x14] ++ skipn 1 payload ++ [x87]) /\
  ((exists msg, Multisig.create_scriptPubKey addr = Err (ValueError msg)) <->
   ~ exists payload encoded trailing,
       Base58Encode.b58encode_check payload = Ok encoded /\
       addr = String.append encoded trailing /\ Base58Props.blank trailing).
Proof.
  assert (Hacc : forall script,
     Multisig.create_scriptPubKey addr = Ok script <->
     exists payload encoded trailing,
       Base58Encode.b58encode_check payload = Ok encoded /\
       addr = String.append encoded trailing /\ Base58Props.blank trailing /\
       script = [xa9; x14] ++ skipn 1 payload ++ [x87]).
  { intros script. unfold Multisig.create_scriptPubKey. split.
    - intros H. apply bind_inv_Ok in H as (decoded & Hdec & H). apply Ok_inj in H as <-.
      apply b58decode_check_accepts in Hdec as (encoded & ws & He & Ha & Hw).
      exists decoded, encoded, ws. auto.
    - intros (payload & encoded & ws & He & Ha & Hw & ->).
      rewrite (proj2 (b58decode_check_accepts addr payload)) by eauto. reflexivity. }
  assert (Hself : forall payload, Base58Encode.b58encode_check payload = Ok addr ->
     Multisig.create_scriptPubKey addr = Ok ([xa9; x14] ++ skipn 1 payload ++ [x87])).
  { intros payload H. apply Hacc. exists payload, addr, EmptyString.
    split; [exact H|]. split; [symmetry; apply append_empty|]. split; [exact I | reflexivity]. }
  split; [exact Hself|]. split.
  { intros version hash160 H Hlen. split; [exact (Hself _ H)|].
    cbn [app length]. rewrite length_app, Hlen. reflexivity. }
  split; [exact Hacc|]. split.
  - intros [msg Herr] (payload & encoded & ws & He & Ha & Hw).
    assert (Hok : Multisig.create_scriptPubKey addr =
                  Ok ([xa9; x14] ++ skipn 1 payload ++ [x87])).
    { apply Hacc. exists payload, encoded, ws. auto. }
    rewrite Hok in Herr. discriminate Herr.
  - intros Hno. unfold Multisig.create_scriptPubKey.
    destruct (b58decode_check_cases addr) as [[decoded H] | [msg ->]].
    + exfalso. apply Hno. apply b58decode_check_accepts in H as (encoded & ws & He & Ha & Hw).
      exists decoded, encoded, ws. auto.
    + exists msg. reflexivity.
Qed.

(** The claim as worded fails on an address whose payload is not a
    version byte and a hash160: ["3QJmnh"] is the Base58Check encoding of
    the empty payload, its checksum is valid, and the result is the three
    bytes [a9 14 87], with no 20-byte payload. *)
Lemma create_scriptPubKey_payload_length_not_checked :
  Base58Encode.b58encode_check [] = Ok "3QJmnh" /\
  Base58.b58decode_check "3QJmnh" = Ok [] /\
  Multisig.create_scriptPubKey "3QJmnh" = Ok [xa9; x14; x87] /\
  (forall hash160 : bytes, length hash160 = 20%nat ->
     Multisig.create_scriptPubKey "3QJmnh" <> Ok ([xa9; x14] ++ hash160 ++ [x87])).
Proof.
  split; [vm_compute; reflexivity|]. split; [vm_compute; reflexivity|].
  assert (H : Multisig.create_scriptPubKey "3QJmnh" = Ok [xa9; x14; x87])
    by (vm_compute; reflexivity).
  split; [exact H|]. intros hash160 Hlen E. rewrite H in E. apply Ok_inj in E.
  apply (f_equal (@length byte)) in E. cbn [app length] in E.
  rewrite length_app, Hlen in E. cbn [length] in E. lia.
Qed.
